(** * react-native-big-media-loader: handle registry, range reads, chunk utilities

    A shallow embedding of
    - the Android native module (BigMediaLoaderModule.kt, BigMediaHandle.kt),
    - the iOS native module (BigMediaLoader.mm),
    - the TypeScript utilities built on the TurboModule interface (utils.ts),
    followed by the properties of the handle-based chunked file access core.

    Conventions.  A JavaScript number that carries an offset, a length or a
    count is an integer of [Z]; the narrowing conversions the native code
    applies to it (Kotlin [toLong], [toInt], Long addition, Objective-C
    [unsignedLongLongValue]) are written out.  A file behind an open
    descriptor is the list of its bytes; a read delivers every byte between
    the position and the end of the file, up to the requested count. *)

From Stdlib Require Import ZArith NArith Lia List String Ascii.
From Stdlib.Strings Require Import Byte.
From stdpp Require Import gmap list.

Local Open Scope Z_scope.

(** ** JavaScript strings and buffers *)

Definition Buffer := list byte.

Module Js.

(** [String.prototype.startsWith] *)
Fixpoint startsWith (s p : string) : bool :=
  match p, s with
  | EmptyString, _ => true
  | String a p', String b s' => Ascii.eqb a b && startsWith s' p'
  | String _ _, EmptyString => false
  end.

(** [String.prototype.includes] *)
Fixpoint includes (s p : string) : bool :=
  startsWith s p ||
  match s with
  | EmptyString => false
  | String _ s' => includes s' p
  end.

Definition lowerChar (c : ascii) : ascii :=
  let n := N_of_ascii c in
  if ((65 <=? n) && (n <=? 90))%N then ascii_of_N (n + 32) else c.

(** [String.prototype.toLowerCase], on the ASCII range *)
Fixpoint toLowerCase (s : string) : string :=
  match s with
  | EmptyString => EmptyString
  | String c s' => String (lowerChar c) (toLowerCase s')
  end.

Definition hexDigit (n : N) : ascii :=
  match String.get (N.to_nat n) "0123456789abcdef" with
  | Some c => c
  | None => "0"%char
  end.

(** [Buffer.prototype.toString('hex')]: two lowercase digits per byte *)
Fixpoint toHex (b : Buffer) : string :=
  match b with
  | [] => EmptyString
  | x :: b' =>
      String (hexDigit (Byte.to_N x / 16))
        (String (hexDigit (Byte.to_N x mod 16)) (toHex b'))
  end.

End Js.

(** ** Base64, as the platform libraries implement it

    [encode] is RFC 4648 base64 with padding and without line breaks: what
    [Base64.encodeToString(bytes, Base64.NO_WRAP)] and
    [base64EncodedStringWithOptions:0] produce.  [decode] is
    [Buffer.from(text, 'base64')] of the [buffer] package: the text is cut at
    the first [=], characters outside the alphabet are dropped, the URL-safe
    [-] and [_] are accepted, and a trailing group of two or three characters
    gives one or two bytes. *)

Module Base64.

Definition alphabet : string :=
  "ABCDEFGHIJKLMNOPQRSTUVWXYZabcdefghijklmnopqrstuvwxyz0123456789+/".

Definition pad : ascii := "="%char.

Definition enc (n : N) : ascii :=
  match String.get (N.to_nat n) alphabet with
  | Some c => c
  | None => pad
  end.

Fixpoint encode (bs : list byte) : string :=
  match bs with
  | [] => EmptyString
  | [a] =>
      let x := Byte.to_N a in
      String (enc (x / 4)) (String (enc (x mod 4 * 16))
        (String pad (String pad EmptyString)))
  | [a; b] =>
      let x := Byte.to_N a in
      let y := Byte.to_N b in
      String (enc (x / 4)) (String (enc (x mod 4 * 16 + y / 16))
        (String (enc (y mod 16 * 4)) (String pad EmptyString)))
  | a :: b :: c :: rest =>
      let x := Byte.to_N a in
      let y := Byte.to_N b in
      let z := Byte.to_N c in
      String (enc (x / 4)) (String (enc (x mod 4 * 16 + y / 16))
        (String (enc (y mod 16 * 4 + z / 64)) (String (enc (z mod 64))
          (encode rest))))
  end%N.

(** The reverse lookup table. *)
Definition dec (c : ascii) : option N :=
  let n := N_of_ascii c in
  if ((65 <=? n) && (n <=? 90))%N then Some (n - 65)%N
  else if ((97 <=? n) && (n <=? 122))%N then Some (n - 71)%N
  else if ((48 <=? n) && (n <=? 57))%N then Some (n + 4)%N
  else if ((n =? 43) || (n =? 45))%N then Some 62%N
  else if ((n =? 47) || (n =? 95))%N then Some 63%N
  else None.

(** The sextets of the text before the first padding character. *)
Fixpoint sextets (s : string) : list N :=
  match s with
  | EmptyString => []
  | String c s' =>
      if Ascii.eqb c pad then []
      else match dec c with
           | Some n => n :: sextets s'
           | None => sextets s'
           end
  end.

Definition byteOf (n : N) : byte :=
  match Byte.of_N (n mod 256) with
  | Some b => b
  | None => x00
  end.

Fixpoint bytes (l : list N) : list byte :=
  match l with
  | a :: b :: c :: d :: rest =>
      byteOf (a * 4 + b / 16) :: byteOf (b mod 16 * 16 + c / 4)
        :: byteOf (c mod 4 * 64 + d) :: bytes rest
  | [a; b; c] => [byteOf (a * 4 + b / 16); byteOf (b mod 16 * 16 + c / 4)]
  | [a; b] => [byteOf (a * 4 + b / 16)]
  | _ => []
  end%N.

Definition decode (s : string) : Buffer := bytes (sextets s).

(** A character of the standard alphabet, or the padding character: no
    line break, no URL-safe substitute. *)
Definition isChar (c : ascii) : bool :=
  existsb (Ascii.eqb c) (list_ascii_of_string alphabet) || Ascii.eqb c pad.

(** Text in the standard alphabet, unwrapped, padded to groups of four
    characters. *)
Definition standard (s : string) : Prop :=
  forallb isChar (list_ascii_of_string s) = true /\
  (String.length s mod 4 = 0)%nat.

End Base64.

(** ** What crosses the bridge *)

Inductive Error : Type :=
| RuntimeException (msg : string)      (* Kotlin: throw RuntimeException(msg) *)
| IllegalArgumentException             (* java.nio: negative capacity or position *)
| NSException (reason : string)        (* Objective-C: @throw *)
| TypeError                            (* JavaScript: property read on null *)
| JsError (msg : string).              (* JavaScript: new Error(msg) *)

(** How a blocking synchronous native method completes, as JavaScript sees
    it: a value, [nil] (which arrives as [null]), or an exception. *)
Inductive Completion (A : Type) : Type :=
| Return (a : A)
| Nil
| Throw (e : Error).
Arguments Return {A} a.
Arguments Nil {A}.
Arguments Throw {A} e.

(** [MediaStats] of spec.ts *)
Module MediaStats.
Record t := mk {
  size : Z;
  mime : option string;
  name : option string;
  uri : string
}.
End MediaStats.

(** The result of [readBase64] in spec.ts *)
Record ReadResult := {
  offset : Z;
  bytesRead : Z;
  eof : bool;
  base64 : string
}.

(** The TurboModule interface [Spec] of spec.ts, over the state [M] of the
    native module that implements it. *)
Module BigMediaLoader.
Class Spec (M : Type) := {
  open : M -> string -> Completion Z * M;
  close : M -> Z -> Completion unit * M;
  stat : M -> Z -> Completion MediaStats.t;
  readBase64 : M -> Z -> Z -> Z -> Completion ReadResult;
  playableUri : M -> Z -> Completion string
}.
End BigMediaLoader.

(** ** Fixed-width integers of the native code *)

Definition MiB4 : Z := 4 * 1024 * 1024.

(** Kotlin [Double.toLong()] on an integral value: saturating. *)
Definition toLong (x : Z) : Z := Z.max (- 2 ^ 63) (Z.min x (2 ^ 63 - 1)).

(** Kotlin [Long.toInt()] and [Int] arithmetic: the low 32 bits, signed. *)
Definition toInt (x : Z) : Z := (x + 2 ^ 31) mod 2 ^ 32 - 2 ^ 31.

(** Kotlin [Long] arithmetic: the low 64 bits, signed. *)
Definition wrapLong (x : Z) : Z := (x + 2 ^ 63) mod 2 ^ 64 - 2 ^ 63.

(** Objective-C [unsignedLongLongValue] and [unsigned long long]
    arithmetic: the low 64 bits. *)
Definition unsignedLongLongValue (x : Z) : Z := x mod 2 ^ 64.

(** ** The Android native module (BigMediaLoaderModule.kt) *)

Module Android.

(** BigMediaHandle.kt.  [channel] stands for the open descriptor [pfd] and
    its [FileChannel]: the bytes of the file they give access to.  Every read
    sets the position of the channel first, so the position is no part of
    the state. *)
Record BigMediaHandle := {
  id : Z;
  uri : string;
  channel : list byte;
  size : Z;
  mime : option string;
  name : option string
}.

(** The part of [ContentResolver] that [open] uses. *)
Record ContentResolver := {
  getType : string -> option string;
  queryDisplayName : string -> option string;
  openFileDescriptor : string -> option (list byte)
}.

(** The module: its fields [nextId] and [handles], the resolver of its
    context, and, as the trace of what it did to the system, the ids of the
    handles whose channel and descriptor it closed. *)
Record BigMediaLoaderModule := {
  contentResolver : ContentResolver;
  nextId : Z;
  handles : gmap Z BigMediaHandle;
  released : list Z
}.

(** [private var nextId = 1], [private val handles = HashMap()] *)
Definition init (cr : ContentResolver) : BigMediaLoaderModule :=
  {| contentResolver := cr; nextId := 1; handles := ∅; released := [] |}.

Definition open (m : BigMediaLoaderModule) (uriString : string)
  : Completion Z * BigMediaLoaderModule :=
  let cr := contentResolver m in
  let mime := getType cr uriString in
  let name := queryDisplayName cr uriString in
  match openFileDescriptor cr uriString with
  | None => (Throw (RuntimeException ("Cannot open uri: " ++ uriString)), m)
  | Some file =>
      let size := Z.of_nat (length file) in
      let id := nextId m in
      (Return id,
       {| contentResolver := cr;
          nextId := toInt (id + 1);
          handles :=
            <[id := {| id := id; uri := uriString; channel := file;
                       size := size; mime := mime; name := name |}]>
              (handles m);
          released := released m |})
  end.

(** [handles.remove(handle)?.let { it.channel.close(); it.pfd.close() }] *)
Definition close (m : BigMediaLoaderModule) (handle : Z)
  : Completion unit * BigMediaLoaderModule :=
  match handles m !! handle with
  | Some it =>
      (Return tt,
       {| contentResolver := contentResolver m;
          nextId := nextId m;
          handles := delete handle (handles m);
          released := id it :: released m |})
  | None => (Return tt, m)
  end.

Definition stat (m : BigMediaLoaderModule) (handle : Z) : Completion MediaStats.t :=
  match handles m !! handle with
  | None => Throw (RuntimeException "Invalid handle")
  | Some h =>
      Return (MediaStats.mk (size h) (mime h) (name h) (uri h))
  end.

Definition playableUri (m : BigMediaLoaderModule) (handle : Z) : Completion string :=
  match handles m !! handle with
  | None => Throw (RuntimeException "Invalid handle")
  | Some h => Return (uri h)
  end.

(** [channel.position(off); channel.read(buf)] with a buffer of [capacity]
    bytes: the count [read] returns and the bytes put in the buffer.  An
    empty buffer reads nothing; at or past the end the count is -1. *)
Definition positionAndRead (file : list byte) (off capacity : Z) : Z * list byte :=
  let data := take (Z.to_nat capacity) (drop (Z.to_nat off) file) in
  if capacity =? 0 then (0, [])
  else if Z.of_nat (length file) <=? off then (-1, [])
  else (Z.of_nat (length data), data).

Definition readBase64 (m : BigMediaLoaderModule) (handle offset length : Z)
  : Completion ReadResult :=
  match handles m !! handle with
  | None => Throw (RuntimeException "Invalid handle")
  | Some h =>
      let off := toLong offset in
      let len := Z.min (toLong length) MiB4 in  (* cap to 4MB per sync call *)
      let capacity := toInt len in
      if capacity <? 0 then Throw IllegalArgumentException  (* ByteBuffer.allocate *)
      else if off <? 0 then Throw IllegalArgumentException  (* channel.position *)
      else
        let '(read, buf) := positionAndRead (channel h) off capacity in
        if read <=? 0 then
          Return {| offset := off; bytesRead := 0; eof := true;
                    base64 := EmptyString |}
        else
          let bytes := take (Z.to_nat read) buf in
          Return {| offset := off; bytesRead := read;
                    eof := size h <=? wrapLong (off + read);
                    base64 := Base64.encode bytes |}
  end.

#[export] Instance spec : BigMediaLoader.Spec BigMediaLoaderModule := {|
  BigMediaLoader.open := open;
  BigMediaLoader.close := close;
  BigMediaLoader.stat := stat;
  BigMediaLoader.readBase64 := readBase64;
  BigMediaLoader.playableUri := playableUri
|}.

End Android.

(** ** The iOS native module (BigMediaLoader.mm) *)

Module IOS.

(** [@interface BigMediaHandle].  [fh] stands for the [NSFileHandle]: the
    bytes of the file it reads. *)
Record BigMediaHandle := {
  url : string;
  fh : list byte;
  size : Z;
  mime : option string;
  name : option string
}.

(** The part of Foundation that [open] uses. *)
Record Foundation := {
  fileHandleForReadingFromURL : string -> option (list byte);
  lastPathComponent : string -> option string
}.

(** The module: its instance variables [_handles] and [_nextId], Foundation,
    and, as the trace of what it did to the system, the keys of the handles
    whose file it closed. *)
Record BigMediaLoader := {
  foundation : Foundation;
  _handles : gmap Z BigMediaHandle;
  _nextId : Z;
  released : list Z
}.

(** [init]: [_handles = [NSMutableDictionary new]; _nextId = 1] *)
Definition init (f : Foundation) : BigMediaLoader :=
  {| foundation := f; _handles := ∅; _nextId := 1; released := [] |}.

Definition open (m : BigMediaLoader) (uri : string)
  : Completion Z * BigMediaLoader :=
  match fileHandleForReadingFromURL (foundation m) uri with
  | None => (Throw (NSException "Failed to open"), m)
  | Some file =>
      let size := Z.of_nat (length file) in
      let hid := _nextId m in
      (Return hid,
       {| foundation := foundation m;
          _handles :=
            <[hid := {| url := uri; fh := file; size := size; mime := None;
                        name := lastPathComponent (foundation m) uri |}]>
              (_handles m);
          _nextId := toInt (hid + 1);
          released := released m |})
  end.

(** [if (h) { [h.fh closeFile]; [_handles removeObjectForKey:handle]; }
    return nil;] *)
Definition close (m : BigMediaLoader) (handle : Z)
  : Completion unit * BigMediaLoader :=
  match _handles m !! handle with
  | Some h =>
      (Nil, {| foundation := foundation m;
               _handles := delete handle (_handles m);
               _nextId := _nextId m;
               released := handle :: released m |})
  | None => (Nil, m)
  end.

Definition stat (m : BigMediaLoader) (handle : Z) : Completion MediaStats.t :=
  match _handles m !! handle with
  | None => Nil
  | Some h =>
      Return (MediaStats.mk (size h) (mime h) (name h) (url h))
  end.

Definition playableUri (m : BigMediaLoader) (handle : Z) : Completion string :=
  match _handles m !! handle with
  | None => Nil
  | Some h => Return (url h)
  end.

(** [[h.fh seekToFileOffset:off]; [h.fh readDataOfLength:len]] *)
Definition seekAndRead (file : list byte) (off len : Z) : list byte :=
  take (Z.to_nat len) (drop (Z.to_nat off) file).

Definition readBase64 (m : BigMediaLoader) (handle offset length : Z)
  : Completion ReadResult :=
  match _handles m !! handle with
  | None => Nil
  | Some h =>
      let off := unsignedLongLongValue offset in
      let len := unsignedLongLongValue length in
      let d := seekAndRead (fh h) off len in
      let d_length := Z.of_nat (List.length d) in
      let eof := size h <=? unsignedLongLongValue (off + d_length) in
      Return {| offset := off; bytesRead := d_length; eof := eof;
                base64 := Base64.encode d |}
  end.

#[export] Instance spec : BigMediaLoader.Spec BigMediaLoader := {|
  BigMediaLoader.open := open;
  BigMediaLoader.close := close;
  BigMediaLoader.stat := stat;
  BigMediaLoader.readBase64 := readBase64;
  BigMediaLoader.playableUri := playableUri
|}.

End IOS.

(** ** The module the TurboModule registry resolves to

    [TurboModuleRegistry.getEnforcing<Spec>('BigMediaLoader')] is the Android
    module on Android and the iOS module on iOS. *)

Inductive NativeModule : Type :=
| OnAndroid (m : Android.BigMediaLoaderModule)
| OnIOS (m : IOS.BigMediaLoader).

#[export] Instance NativeModule_spec : BigMediaLoader.Spec NativeModule := {|
  BigMediaLoader.open m uri :=
    match m with
    | OnAndroid a => let '(r, a') := Android.open a uri in (r, OnAndroid a')
    | OnIOS i => let '(r, i') := IOS.open i uri in (r, OnIOS i')
    end;
  BigMediaLoader.close m handle :=
    match m with
    | OnAndroid a => let '(r, a') := Android.close a handle in (r, OnAndroid a')
    | OnIOS i => let '(r, i') := IOS.close i handle in (r, OnIOS i')
    end;
  BigMediaLoader.stat m handle :=
    match m with
    | OnAndroid a => Android.stat a handle
    | OnIOS i => IOS.stat i handle
    end;
  BigMediaLoader.readBase64 m handle offset length :=
    match m with
    | OnAndroid a => Android.readBase64 a handle offset length
    | OnIOS i => IOS.readBase64 i handle offset length
    end;
  BigMediaLoader.playableUri m handle :=
    match m with
    | OnAndroid a => Android.playableUri a handle
    | OnIOS i => IOS.playableUri i handle
    end
|}.

(** [handle] is an entry of the registry of [m]: [size] is the size captured
    when it was opened and [file] the bytes behind its descriptor.  The length
    of a file is a [Long] on Android and an [unsigned long long] on iOS. *)
Definition openHandle (m : NativeModule) (handle : Z) (size : Z) (file : list byte) : Prop :=
  match m with
  | OnAndroid a =>
      exists h, Android.handles a !! handle = Some h /\
                Android.size h = size /\ Android.channel h = file /\
                Z.of_nat (length file) < 2 ^ 63
  | OnIOS i =>
      exists h, IOS._handles i !! handle = Some h /\
                IOS.size h = size /\ IOS.fh h = file /\
                Z.of_nat (length file) < 2 ^ 64
  end.

(** [handle] is open on [file], and the file is as it was when [open]
    captured its size. *)
Definition holds (m : NativeModule) (handle : Z) (file : list byte) : Prop :=
  openHandle m handle (Z.of_nat (length file)) file.

(** [handle] is no entry of the registry: never opened, or closed. *)
Definition unknownHandle (m : NativeModule) (handle : Z) : Prop :=
  match m with
  | OnAndroid a => Android.handles a !! handle = None
  | OnIOS i => IOS._handles i !! handle = None
  end.

(** A non-negative integer argument that the platform's conversion of a
    JavaScript number represents: [toLong] saturates, so any on Android;
    below [2 ^ 64] for [unsignedLongLongValue] on iOS. *)
Definition validArg (m : NativeModule) (x : Z) : Prop :=
  0 <= x /\ match m with OnAndroid _ => True | OnIOS _ => x < 2 ^ 64 end.

(** The number of bytes one read delivers at most, for a requested length. *)
Definition effectiveLength (m : NativeModule) (length : Z) : Z :=
  match m with
  | OnAndroid _ => Z.min length MiB4
  | OnIOS _ => length
  end.

(** ** The TypeScript utilities (utils.ts) *)

(** How a promise settles. *)
Inductive Outcome (A : Type) : Type :=
| Resolved (a : A)
| Rejected (e : Error).
Arguments Resolved {A} a.
Arguments Rejected {A} e.

(** An asynchronous function of the caller (a callback, an upload function),
    awaited by the utilities: it runs on the caller's own state [W] and
    settles.  Callbacks do not call back into the native module. *)
Definition Async (W A : Type) : Type := W -> Outcome A * W.

(** [setTimeout], as the caller's state records the passing of time. *)
Class Timers (W : Type) := setTimeout : Z -> W -> W.

Module Utils.
Section Utils.

Context {M : Type} `{BigMediaLoader.Spec M}.
Context {W : Type}.

(** [ChunkedReadOptions] *)
Record ChunkedReadOptions := {
  chunkSize : option Z;
  onProgress : option (Z -> Z -> Async W unit);
  onChunk : option (Buffer -> Z -> Async W unit)
}.

(** [if (callback) { await callback(...) }] *)
Definition whenGiven {A B} (callback : option (A -> B -> Async W unit))
    (a : A) (b : B) : Async W unit :=
  match callback with
  | Some f => f a b
  | None => fun w => (Resolved tt, w)
  end.

(** The [while (offset < stats.size)] loop of [readFileInChunks].  The
    loop has no bound of its own, so the recursion is on [fuel]: [None]
    means the loop is still running when the fuel is spent. *)
Fixpoint readLoop (fuel : nat) (m : M) (handle chunkSize : Z)
    (onProgress : option (Z -> Z -> Async W unit))
    (onChunk : option (Buffer -> Z -> Async W unit))
    (size offset : Z) (w : W) : option (Outcome unit * W) :=
  match fuel with
  | O => None
  | S fuel' =>
      if offset <? size then
        match BigMediaLoader.readBase64 m handle offset chunkSize with
        | Throw e => Some (Rejected e, w)
        | Nil => Some (Rejected TypeError, w)
        | Return r =>
            let buffer := Base64.decode (base64 r) in
            match whenGiven onChunk buffer offset w with
            | (Rejected e, w1) => Some (Rejected e, w1)
            | (Resolved _, w1) =>
                match whenGiven onProgress (offset + bytesRead r) size w1 with
                | (Rejected e, w2) => Some (Rejected e, w2)
                | (Resolved _, w2) =>
                    let offset' := offset + bytesRead r in
                    if eof r then Some (Resolved tt, w2)
                    else readLoop fuel' m handle chunkSize onProgress onChunk
                           size offset' w2
                end
            end
        end
      else Some (Resolved tt, w)
  end.

Definition readFileInChunks (fuel : nat) (m : M) (handle : Z)
    (options : ChunkedReadOptions) (w : W) : option (Outcome unit * W) :=
  let chunkSize := default MiB4 (chunkSize options) in
  match BigMediaLoader.stat m handle with
  | Throw e => Some (Rejected e, w)
  | Nil => Some (Rejected TypeError, w)  (* stats.size on null *)
  | Return stats =>
      readLoop fuel m handle chunkSize (onProgress options) (onChunk options)
        (MediaStats.size stats) 0 w
  end.

(** [UploadOptions]: [ChunkedReadOptions] and the upload policy *)
Record UploadOptions := {
  uploadFunction : Buffer -> Z -> Async W unit;
  retryAttempts : option Z;
  retryDelay : option Z;
  readOptions : ChunkedReadOptions
}.

(** The [for (let attempt = 0; attempt < retryAttempts; attempt++)] loop of
    the [onChunk] that [uploadFileInChunks] installs, with [remaining]
    iterations to go, and the [throw] that follows it. *)
Fixpoint retryLoop `{Timers W} (uploadFunction : Buffer -> Z -> Async W unit)
    (retryAttempts retryDelay : Z) (chunk : Buffer) (offset : Z)
    (remaining : nat) (attempt : Z) (lastError : option Error)
    : Async W unit :=
  fun w =>
    match remaining with
    | O =>
        (Rejected (default (JsError "Upload failed after all retry attempts")
                     lastError), w)
    | S remaining' =>
        match uploadFunction chunk offset w with
        | (Resolved _, w1) => (Resolved tt, w1)  (* Success, exit retry loop *)
        | (Rejected error, w1) =>
            let w2 := if attempt <? retryAttempts - 1
                      then setTimeout retryDelay w1 else w1 in
            retryLoop uploadFunction retryAttempts retryDelay chunk offset
              remaining' (attempt + 1) (Some error) w2
        end
    end.

Definition uploadChunk `{Timers W} (uploadFunction : Buffer -> Z -> Async W unit)
    (retryAttempts retryDelay : Z) (chunk : Buffer) (offset : Z) : Async W unit :=
  retryLoop uploadFunction retryAttempts retryDelay chunk offset
    (Z.to_nat retryAttempts) 0 None.

Definition uploadFileInChunks `{Timers W} (fuel : nat) (m : M) (handle : Z)
    (options : UploadOptions) (w : W) : option (Outcome unit * W) :=
  let retryAttempts := default 3 (retryAttempts options) in
  let retryDelay := default 1000 (retryDelay options) in
  readFileInChunks fuel m handle
    {| chunkSize := chunkSize (readOptions options);
       onProgress := onProgress (readOptions options);
       onChunk := Some (uploadChunk (uploadFunction options)
                          retryAttempts retryDelay) |}
    w.

(** [readFileHeader(handle, headerSize = 1024)] *)
Definition readFileHeader (m : M) (handle : Z) (headerSize : option Z)
  : Completion Buffer :=
  match BigMediaLoader.readBase64 m handle 0 (default 1024 headerSize) with
  | Throw e => Throw e
  | Nil => Throw TypeError
  | Return r => Return (Base64.decode (base64 r))
  end.

Definition classify (hex : string) : string :=
  if Js.startsWith hex "ffd8ff" then "image/jpeg"
  else if Js.startsWith hex "89504e47" then "image/png"
  else if Js.startsWith hex "47494638" then "image/gif"
  else if Js.startsWith hex "52494646" && Js.includes hex "41564920" then "video/avi"
  else if Js.startsWith hex "000001b3" then "video/mpeg"
  else if Js.startsWith hex "66747970" then "video/mp4"
  else if Js.startsWith hex "1a45dfa3" then "video/webm"
  else if Js.startsWith hex "25504446" then "application/pdf"
  else if Js.startsWith hex "504b0304" then "application/zip"
  else "application/octet-stream".

Definition detectFileType (m : M) (handle : Z) : Completion string :=
  match readFileHeader m handle (Some 16) with
  | Return header =>
      let hex := Js.toLowerCase (Js.toHex header) in
      Return (classify hex)
  | Nil => Throw TypeError
  | Throw e => Throw e
  end.

End Utils.

(** *** [calculateFileHash]

  [crypto.createHash('sha256')] is an incremental digest: the object holds
  the bytes fed so far, [update] appends to them, [digest('hex')] is the
  hexadecimal text of the SHA-256 of what was fed.  The digest function
  itself is the crypto library's. *)
Section Hash.

Context {M : Type} `{BigMediaLoader.Spec M}.
Variable sha256 : list byte -> Buffer.

Record Hash := { fed : list byte }.

Definition createHash : Hash := {| fed := [] |}.

Definition update (chunk : Buffer) (hash : Hash) : Hash :=
  {| fed := fed hash ++ chunk |}.

Definition digestHex (hash : Hash) : string := Js.toHex (sha256 (fed hash)).

(** The iteration of [calculateFileHash], for a given [chunkSize] option. *)
Definition hashChunks (fuel : nat) (m : M) (handle : Z) (chunkSize : option Z)
  : option (Outcome string) :=
  match readFileInChunks fuel m handle
          {| chunkSize := chunkSize;
             onProgress := None;
             onChunk := Some (fun chunk _ hash => (Resolved tt, update chunk hash)) |}
          createHash with
  | None => None
  | Some (Rejected e, _) => Some (Rejected e)
  | Some (Resolved _, hash) => Some (Resolved (digestHex hash))
  end.

(** [calculateFileHash] passes no [chunkSize]: the default applies. *)
Definition calculateFileHash (fuel : nat) (m : M) (handle : Z)
  : option (Outcome string) :=
  hashChunks fuel m handle None.

End Hash.
End Utils.

(** ** Observing the utilities *)

(** The ranges [step] bytes long that cover [file] from [offset] on, each
    with its offset: what an iteration reads when every read delivers [step]
    bytes or what is left. *)
Fixpoint slices (fuel : nat) (step : nat) (file : list byte) (offset : nat)
  : list (Buffer * Z) :=
  match fuel with
  | O => []
  | S fuel' =>
      if (offset <? length file)%nat
      then (take step (drop offset file), Z.of_nat offset)
             :: slices fuel' step file (offset + step)
      else []
  end.

Definition chunksOf (step : Z) (file : list byte) : list (Buffer * Z) :=
  slices (length file) (Z.to_nat step) file 0.

(** What an iteration over [chunks] amounts to: each chunk goes to [onChunk],
    then its end offset to [onProgress]; the first rejection ends it. *)
Fixpoint deliver {W : Type}
    (onChunk : option (Buffer -> Z -> Async W unit))
    (onProgress : option (Z -> Z -> Async W unit))
    (size : Z) (chunks : list (Buffer * Z)) (w : W) : Outcome unit * W :=
  match chunks with
  | [] => (Resolved tt, w)
  | (chunk, offset) :: rest =>
      match Utils.whenGiven onChunk chunk offset w with
      | (Rejected e, w1) => (Rejected e, w1)
      | (Resolved _, w1) =>
          match Utils.whenGiven onProgress
                  (offset + Z.of_nat (length chunk)) size w1 with
          | (Rejected e, w2) => (Rejected e, w2)
          | (Resolved _, w2) => deliver onChunk onProgress size rest w2
          end
      end
  end.

(** A callback that keeps what it is given, as [jest.fn()] does. *)
Definition keep : Buffer -> Z -> Async (list (Buffer * Z)) unit :=
  fun chunk offset calls => (Resolved tt, calls ++ [(chunk, offset)]).

(** What an upload run does that a caller can observe: the invocations of
    the upload function, with how each settled, and the timers awaited. *)
Inductive Event : Type :=
| Invoked (chunk : Buffer) (offset : Z) (settled : Outcome unit)
| Waited (ms : Z).

(** A caller's state [S] with the events recorded so far. *)
Record Recorded (S : Type) := {
  events : list Event;
  inner : S
}.
Arguments events {S} _.
Arguments inner {S} _.

#[export] Instance Recorded_timers {S} : Timers (Recorded S) :=
  fun ms w => {| events := events w ++ [Waited ms]; inner := inner w |}.

(** An upload function on [S], with its invocations recorded. *)
Definition spy {S} (f : Buffer -> Z -> Async S unit)
  : Buffer -> Z -> Async (Recorded S) unit :=
  fun chunk offset w =>
    let '(settled, s') := f chunk offset (inner w) in
    (settled, {| events := events w ++ [Invoked chunk offset settled];
                 inner := s' |}).

(** The events of one chunk whose first attempts failed with [errors] and
    whose last attempt settled as [final]: a wait after each failure that is
    followed by another attempt. *)
Definition retryTrace (retryDelay : Z) (chunk : Buffer * Z)
    (run : list Error * Outcome unit) : list Event :=
  flat_map (fun e => [Invoked chunk.1 chunk.2 (Rejected e); Waited retryDelay]) run.1
    ++ [Invoked chunk.1 chunk.2 run.2].

Definition invocationsAt (offset : Z) (evs : list Event) : nat :=
  length (List.filter (fun ev => match ev with
                                 | Invoked _ o _ => o =? offset
                                 | Waited _ => false
                                 end) evs).

(** [new Error('Upload failed after all retry attempts')] *)
Definition uploadFailed : Error :=
  JsError "Upload failed after all retry attempts".

(** The upload function of scenario 4: its first invocation fails, every
    later one succeeds.  Its state counts the invocations. *)
Definition failsOnce : Buffer -> Z -> Async nat unit :=
  fun _ _ calls =>
    (if (calls =? 0)%nat then Rejected (JsError "Upload failed") else Resolved tt,
     S calls).

(** The upload function of scenario 5: every invocation fails. *)
Definition alwaysFails (e : Error) : Buffer -> Z -> Async unit unit :=
  fun _ _ s => (Rejected e, s).

(** [uploadFileInChunks] with its invocations and timers recorded, from an
    empty record: the given policy and chunk size, no other option. *)
Definition observedUpload {S : Type} (fuel : nat) (m : NativeModule)
    (handle chunkSize retryAttempts retryDelay : Z)
    (f : Buffer -> Z -> Async S unit) (s : S)
  : option (Outcome unit * Recorded S) :=
  Utils.uploadFileInChunks fuel m handle
    {| Utils.uploadFunction := spy f;
       Utils.retryAttempts := Some retryAttempts;
       Utils.retryDelay := Some retryDelay;
       Utils.readOptions :=
         {| Utils.chunkSize := Some chunkSize;
            Utils.onProgress := None;
            Utils.onChunk := None |} |}
    {| events := []; inner := s |}.

(** *** The signature table of the file-type detection, as specified *)

Record Signature := {
  prefix : string;
  contains : option string;
  mimeType : string
}.

Definition signatureTable : list Signature :=
  [ {| prefix := "ffd8ff"; contains := None; mimeType := "image/jpeg" |};
    {| prefix := "89504e47"; contains := None; mimeType := "image/png" |};
    {| prefix := "47494638"; contains := None; mimeType := "image/gif" |};
    {| prefix := "52494646"; contains := Some "41564920"%string; mimeType := "video/avi" |};
    {| prefix := "000001b3"; contains := None; mimeType := "video/mpeg" |};
    {| prefix := "66747970"; contains := None; mimeType := "video/mp4" |};
    {| prefix := "1a45dfa3"; contains := None; mimeType := "video/webm" |};
    {| prefix := "25504446"; contains := None; mimeType := "application/pdf" |};
    {| prefix := "504b0304"; contains := None; mimeType := "application/zip" |} ].

Definition matches (hex : string) (sig : Signature) : bool :=
  Js.startsWith hex (prefix sig) &&
  match contains sig with
  | None => true
  | Some sub => Js.includes hex sub
  end.

(** ** Sample files and modules *)

Definition tenBytes : list byte :=
  [x30; x31; x32; x33; x34; x35; x36; x37; x38; x39].

(** A file of [n] zero bytes. *)
Definition zeros (n : Z) : list byte := replicate (Z.to_nat n) x00.
Arguments zeros : simpl never.

Definition sampleResolver : Android.ContentResolver :=
  {| Android.getType := fun _ => Some "application/octet-stream"%string;
     Android.queryDisplayName := fun _ => Some "ten.bin"%string;
     Android.openFileDescriptor := fun uri =>
       if String.eqb uri "content://media/ten" then Some tenBytes else None |}.

Definition sampleFoundation : IOS.Foundation :=
  {| IOS.fileHandleForReadingFromURL := fun uri =>
       if String.eqb uri "file:///ten.bin" then Some tenBytes else None;
     IOS.lastPathComponent := fun _ => Some "ten.bin"%string |}.

(** The Android module after [open("content://media/ten")]: handle 1. *)
Definition androidSample : Android.BigMediaLoaderModule :=
  (Android.open (Android.init sampleResolver) "content://media/ten").2.

(** The iOS module after [open("file:///ten.bin")]: handle 1. *)
Definition iosSample : IOS.BigMediaLoader :=
  (IOS.open (IOS.init sampleFoundation) "file:///ten.bin").2.

(** An Android module whose handle 1 is open on [file]. *)
Definition androidOn (file : list byte) : Android.BigMediaLoaderModule :=
  {| Android.contentResolver := sampleResolver;
     Android.nextId := 2;
     Android.handles :=
       {[ 1 := {| Android.id := 1; Android.uri := "content://media/file";
                  Android.channel := file;
                  Android.size := Z.of_nat (length file);
                  Android.mime := None; Android.name := None |} ]};
     Android.released := [] |}.

(** An iOS module whose handle 1 is open on [file]. *)
Definition iosOn (file : list byte) : IOS.BigMediaLoader :=
  {| IOS.foundation := sampleFoundation;
     IOS._handles :=
       {[ 1 := {| IOS.url := "file:///file.bin"; IOS.fh := file;
                  IOS.size := Z.of_nat (length file);
                  IOS.mime := None; IOS.name := None |} ]};
     IOS._nextId := 2;
     IOS.released := [] |}.

(** Handle 1 of a module whose file was truncated after [open]: the size
    captured at open time is 10, the file behind the descriptor now has the
    first four bytes only. *)
Definition androidShrunk : Android.BigMediaLoaderModule :=
  {| Android.contentResolver := sampleResolver;
     Android.nextId := 2;
     Android.handles :=
       {[ 1 := {| Android.id := 1; Android.uri := "content://media/ten";
                  Android.channel := take 4 tenBytes;
                  Android.size := 10;
                  Android.mime := None; Android.name := None |} ]};
     Android.released := [] |}.

Definition iosShrunk : IOS.BigMediaLoader :=
  {| IOS.foundation := sampleFoundation;
     IOS._handles :=
       {[ 1 := {| IOS.url := "file:///ten.bin"; IOS.fh := take 4 tenBytes;
                  IOS.size := 10;
                  IOS.mime := None; IOS.name := None |} ]};
     IOS._nextId := 2;
     IOS.released := [] |}.

(** The headers of the unit tests of [detectFileType]. *)
Definition jpegHeader : list byte :=
  [xff; xd8; xff; xe0; x00; x10; x4a; x46; x49; x46; x00; x01].

Definition mp4Header : list byte :=
  [x00; x00; x00; x20; x66; x74; x79; x70; x6d; x70; x34; x32].

(** ** The life of the registry *)

(** The file a uri gives access to, as [open] finds it. *)
Definition resolveFile (m : NativeModule) (uri : string) : option (list byte) :=
  match m with
  | OnAndroid a => Android.openFileDescriptor (Android.contentResolver a) uri
  | OnIOS i => IOS.fileHandleForReadingFromURL (IOS.foundation i) uri
  end.

(** The id the next successful [open] returns. *)
Definition nextHandle (m : NativeModule) : Z :=
  match m with
  | OnAndroid a => Android.nextId a
  | OnIOS i => IOS._nextId i
  end.

(** The ids whose descriptor the module closed, latest first. *)
Definition releasedHandles (m : NativeModule) : list Z :=
  match m with
  | OnAndroid a => Android.released a
  | OnIOS i => IOS.released i
  end.

(** [handle] is an entry of the registry. *)
Definition liveHandle (m : NativeModule) (handle : Z) : Prop :=
  match m with
  | OnAndroid a => is_Some (Android.handles a !! handle)
  | OnIOS i => is_Some (IOS._handles i !! handle)
  end.

(** What the three reading operations answer for a handle. *)
Definition answers (m : NativeModule) (handle offset length : Z)
  : Completion MediaStats.t * Completion string * Completion ReadResult :=
  (BigMediaLoader.stat m handle, BigMediaLoader.playableUri m handle,
   BigMediaLoader.readBase64 m handle offset length).

(** A call that changes the registry. *)
Inductive Call : Type :=
| CallOpen (uri : string)
| CallClose (handle : Z).

Definition call (m : NativeModule) (c : Call) : NativeModule :=
  match c with
  | CallOpen uri => (BigMediaLoader.open m uri).2
  | CallClose handle => (BigMediaLoader.close m handle).2
  end.

Definition calls (m : NativeModule) (cs : list Call) : NativeModule :=
  fold_left call cs m.

(** What the registry keeps: ids are positive and below the counter, an
    Android record carries the id it is stored under, every entry is as
    [open] made it, and a released id is released once and is no entry. *)
Definition registryOk (m : NativeModule) : Prop :=
  1 <= nextHandle m /\
  (forall k, liveHandle m k ->
     1 <= k < nextHandle m /\ exists file, holds m k file) /\
  match m with
  | OnAndroid a =>
      forall k h, Android.handles a !! k = Some h -> Android.id h = k
  | OnIOS _ => True
  end /\
  List.NoDup (releasedHandles m) /\
  (forall r, In r (releasedHandles m) ->
     1 <= r < nextHandle m /\ unknownHandle m r).

(** Every file of the system has a length that fits the platform's type. *)
Definition filesFit (m : NativeModule) : Prop :=
  forall uri file, resolveFile m uri = Some file ->
    Z.of_nat (length file) < 2 ^ 63.

(** On Android every entry records the key it is stored under. *)
Definition idsAgree (m : NativeModule) : Prop :=
  match m with
  | OnAndroid a => forall k h, Android.handles a !! k = Some h -> Android.id h = k
  | OnIOS _ => True
  end.

(** ** More of utils.ts *)

(** [getFileInfo]: [{ ...stats, detectedType }].  Spreading a null [stats]
    adds no field, hence the optional first component. *)
Definition getFileInfo {M : Type} `{BigMediaLoader.Spec M} (m : M) (handle : Z)
  : Completion (option MediaStats.t * string) :=
  match BigMediaLoader.stat m handle with
  | Throw e => Throw e
  | stats =>
      match Utils.detectFileType m handle with
      | Throw e => Throw e
      | Nil => Nil
      | Return detectedType =>
          Return (match stats with Return s => Some s | _ => None end,
                  detectedType)
      end
  end.

(** An [onProgress] that keeps the reports it is given. *)
Definition note : Z -> Z -> Async (list (Z * Z)) unit :=
  fun done total reports => (Resolved tt, reports ++ [(done, total)]).

(** An [onChunk] that keeps what it is given and throws [e] on the chunk at
    offset [bad]. *)
Definition rejectsAt (bad : Z) (e : Error)
  : Buffer -> Z -> Async (list (Buffer * Z)) unit :=
  fun chunk offset calls =>
    (if offset =? bad then Rejected e else Resolved tt,
     calls ++ [(chunk, offset)]).

(** What JavaScript gets when a utility uses a handle that is no entry of
    the registry: the native error on Android; on iOS the native call returns
    [nil] and reading a property of it fails. *)
Definition unknownHandleError (m : NativeModule) : Error :=
  match m with
  | OnAndroid _ => RuntimeException "Invalid handle"
  | OnIOS _ => TypeError
  end.

(** ** The [FileHandle] class and the wrappers built on it (utils.ts) *)

Module FileHandle.
Section FileHandle.

Context {M : Type} `{BigMediaLoader.Spec M}.

(** The fields of an instance.  [handle] is what [BigMediaLoader.open]
    returned to the constructor, [None] standing for a null. *)
Record t := { handle : option Z; closed : bool }.

(** [constructor(uri) { this.handle = BigMediaLoader.open(uri); }] *)
Definition new (m : M) (uri : string) : (Error + t) * M :=
  match BigMediaLoader.open m uri with
  | (Throw e, m') => (inl e, m')
  | (Return h, m') => (inr {| handle := Some h; closed := false |}, m')
  | (Nil, m') => (inr {| handle := None; closed := false |}, m')
  end.

Definition getHandle (self : t) : Error + option Z :=
  if closed self then inl (JsError "File handle is closed")
  else inr (handle self).

(** A native method called with [this.getHandle()].  A null where the
    native method expects a number fails the call. *)
Definition onHandle {A} (self : t) (method : Z -> Completion A) : Completion A :=
  match getHandle self with
  | inl e => Throw e
  | inr (Some h) => method h
  | inr None => Throw TypeError
  end.

Definition stat (m : M) (self : t) : Completion MediaStats.t :=
  onHandle self (BigMediaLoader.stat m).

Definition readChunk (m : M) (self : t) (offset length : Z) : Completion ReadResult :=
  onHandle self (fun h => BigMediaLoader.readBase64 m h offset length).

Definition getPlayableUri (m : M) (self : t) : Completion string :=
  onHandle self (BigMediaLoader.playableUri m).

(** [if (!this.closed) { BigMediaLoader.close(this.handle);
    this.closed = true; }] *)
Definition close (m : M) (self : t) : Completion unit * (M * t) :=
  if closed self then (Return tt, (m, self))
  else
    match handle self with
    | None => (Throw TypeError, (m, self))
    | Some h =>
        match BigMediaLoader.close m h with
        | (Throw e, m') => (Throw e, (m', self))
        | (_, m') => (Return tt, (m', {| handle := handle self; closed := true |}))
        end
    end.

End FileHandle.
End FileHandle.

(** [withFileHandle].  The operation runs on the native module and on the
    handle object it is given, and settles; whichever way it settles, the
    [finally] block closes the object as the operation left it.  An error
    thrown by the [finally] block replaces the outcome. *)
Definition withFileHandle {M : Type} `{BigMediaLoader.Spec M} {T : Type}
    (m : M) (uri : string)
    (operation : M * FileHandle.t -> Outcome T * (M * FileHandle.t))
  : Outcome T * M :=
  match FileHandle.new m uri with
  | (inl e, m') => (Rejected e, m')
  | (inr handle, m') =>
      let '(settled, (m1, handle1)) := operation (m', handle) in
      match FileHandle.close m1 handle1 with
      | (Throw e, (m2, _)) => (Rejected e, m2)
      | (_, (m2, _)) => (settled, m2)
      end
  end.

(** [MediaAsset] *)
Module MediaAsset.
Record t := mk {
  uri : string;
  fileName : option string;
  fileSize : option Z;
  type : option string;
  width : option Z;
  height : option Z;
  duration : option Z;
  base64 : option string
}.
End MediaAsset.

(** [MediaPickerResult] *)
Module MediaPickerResult.
Record t := mk {
  assets : list MediaAsset.t;
  canceled : bool
}.
End MediaPickerResult.

(** What the [pick...WithHandles] functions resolve to. *)
Module PickedMedia.
Record t := mk {
  assets : list MediaAsset.t;
  handles : list FileHandle.t;
  canceled : bool
}.
End PickedMedia.

Section Pickers.

Context {M : Type} `{BigMediaLoader.Spec M}.

(** [result.assets.map(asset => new FileHandle(asset.uri))]: the
    constructors run in the order of the assets; the first one that throws
    ends the [map], and the handles made so far are dropped with it. *)
Fixpoint openAll (m : M) (assets : list MediaAsset.t)
  : (Error + list FileHandle.t) * M :=
  match assets with
  | [] => (inr [], m)
  | asset :: rest =>
      match FileHandle.new m (MediaAsset.uri asset) with
      | (inl e, m') => (inl e, m')
      | (inr handle, m') =>
          match openAll m' rest with
          | (inl e, m'') => (inl e, m'')
          | (inr handles, m'') => (inr (handle :: handles), m'')
          end
      end
  end.

(** The body the three [pick...WithHandles] functions share, from the point
    where the promise of the native picker has settled. *)
Definition attachHandles (m : M) (picked : Outcome MediaPickerResult.t)
  : Outcome PickedMedia.t * M :=
  match picked with
  | Rejected e => (Rejected e, m)
  | Resolved result =>
      if MediaPickerResult.canceled result
      then (Resolved (PickedMedia.mk [] [] true), m)
      else
        match openAll m (MediaPickerResult.assets result) with
        | (inl e, m') => (Rejected e, m')
        | (inr handles, m') =>
            (Resolved (PickedMedia.mk (MediaPickerResult.assets result) handles false),
             m')
        end
  end.

(** [pickImagesWithHandles], given how [BigMediaLoader.pickImage(options)]
    settled. *)
Definition pickImagesWithHandles (m : M) (pickImage : Outcome MediaPickerResult.t)
  : Outcome PickedMedia.t * M :=
  attachHandles m pickImage.

(** [pickVideosWithHandles], given how [BigMediaLoader.pickVideo(options)]
    settled. *)
Definition pickVideosWithHandles (m : M) (pickVideo : Outcome MediaPickerResult.t)
  : Outcome PickedMedia.t * M :=
  attachHandles m pickVideo.

(** [pickMediaWithHandles], given how [BigMediaLoader.pickMedia(options)]
    settled. *)
Definition pickMediaWithHandles (m : M) (pickMedia : Outcome MediaPickerResult.t)
  : Outcome PickedMedia.t * M :=
  attachHandles m pickMedia.

(** [handles.forEach(handle => handle.close())]: the first [close] that
    throws ends the loop. *)
Fixpoint closeAll (m : M) (handles : list FileHandle.t)
  : Completion unit * (M * list FileHandle.t) :=
  match handles with
  | [] => (Return tt, (m, []))
  | handle :: rest =>
      match FileHandle.close m handle with
      | (Throw e, (m', handle')) => (Throw e, (m', handle' :: rest))
      | (_, (m', handle')) =>
          let '(r, (m'', rest')) := closeAll m' rest in
          (r, (m'', handle' :: rest'))
      end
  end.

(** [processPickedMedia].  The processor runs on the native module and on
    the handle objects of the array it is given; the [finally] block closes
    the objects of that array as the processor left them. *)
Definition processPickedMedia {T : Type}
    (pickerFunction : M -> Outcome PickedMedia.t * M)
    (processor : list MediaAsset.t -> M * list FileHandle.t
                 -> Outcome T * (M * list FileHandle.t))
    (m : M) : Outcome (option T) * M :=
  match pickerFunction m with
  | (Rejected e, m') => (Rejected e, m')
  | (Resolved picked, m') =>
      if PickedMedia.canceled picked then (Resolved None, m')
      else
        let '(settled, (m1, handles1)) :=
          processor (PickedMedia.assets picked) (m', PickedMedia.handles picked) in
        match closeAll m1 handles1 with
        | (Throw e, (m2, _)) => (Rejected e, m2)
        | (_, (m2, _)) =>
            (match settled with
             | Resolved t => Resolved (Some t)
             | Rejected e => Rejected e
             end, m2)
        end
  end.

End Pickers.

(** ** The media pickers of the Android module (BigMediaLoaderModule.kt)

    The picker methods use three fields of the module, [pickImageResolve],
    [pickVideoResolve] and [pickMediaResolve], and neither [nextId] nor
    [handles]; they are modelled on those fields.  A promise is known by a
    number, and what the module does to promises and to the activity is kept
    as a trace: the calls of [resolve] and [reject] in order, and the intents
    handed to [startActivityForResult]. *)

Module AndroidPicker.

Definition REQUEST_PICK_IMAGE : Z := 1001.
Definition REQUEST_PICK_VIDEO : Z := 1002.
Definition REQUEST_PICK_MEDIA : Z := 1003.

(** [Activity.RESULT_CANCELED] and [Activity.RESULT_OK] *)
Definition RESULT_CANCELED : Z := 0.
Definition RESULT_OK : Z := -1.

(** The [options] map, as far as it is read: the key [multiple], when
    present. *)
Record Options := { multiple : option bool }.

(** The intent a picker builds. *)
Record PickIntent := {
  type : string;
  mimeTypes : list string;  (* EXTRA_MIME_TYPES *)
  allowMultiple : bool      (* EXTRA_ALLOW_MULTIPLE *)
}.

(** The intent a result comes with: [clipData] (the uris of its items) and
    [data]. *)
Record ResultIntent := {
  clipData : option (list string);
  data : option string
}.

(** [currentActivity.startActivityForResult] starts the picker or throws an
    exception, whose message may be null. *)
Inductive Activity : Type :=
| Starts
| Throws (message : option string).

(** The first row of a query, by the columns [createAssetFromUri] looks up:
    [None] for a column that the cursor does not have. *)
Record Row := { DISPLAY_NAME : option string; SIZE : option Z }.

(** [reactContext.contentResolver], as the pickers use it: [query] gives
    the first row, or [None] when the cursor is null or empty. *)
Record Resolver := {
  getType : string -> option string;
  query : string -> option Row
}.

Inductive Settlement : Type :=
| Resolve (result : MediaPickerResult.t)
| Reject (code : string) (message : option string).

Definition Promise : Type := nat.

Record t := {
  pickImageResolve : option Promise;
  pickVideoResolve : option Promise;
  pickMediaResolve : option Promise;
  settlements : list (Promise * Settlement);
  started : list (PickIntent * Z)
}.

(** The fields as the class initialises them. *)
Definition init : t :=
  {| pickImageResolve := None; pickVideoResolve := None; pickMediaResolve := None;
     settlements := []; started := [] |}.

(** [options.hasKey("multiple") && options.getBoolean("multiple")] *)
Definition wantsMultiple (options : Options) : bool :=
  match multiple options with
  | Some b => b
  | None => false
  end.

(** The [try] block that the three pickers share. *)
Definition launch (intent : PickIntent) (requestCode : Z)
    (currentActivity : option Activity) (promise : Promise) (s : t) : t :=
  match currentActivity with
  | Some Starts =>
      {| pickImageResolve := pickImageResolve s;
         pickVideoResolve := pickVideoResolve s;
         pickMediaResolve := pickMediaResolve s;
         settlements := settlements s;
         started := started s ++ [(intent, requestCode)] |}
  | Some (Throws message) =>
      {| pickImageResolve := pickImageResolve s;
         pickVideoResolve := pickVideoResolve s;
         pickMediaResolve := pickMediaResolve s;
         settlements := settlements s ++ [(promise, Reject "PICKER_ERROR" message)];
         started := started s |}
  | None =>
      {| pickImageResolve := pickImageResolve s;
         pickVideoResolve := pickVideoResolve s;
         pickMediaResolve := pickMediaResolve s;
         settlements :=
           settlements s
           ++ [(promise, Reject "NO_ACTIVITY" (Some "No activity available"%string))];
         started := started s |}
  end.

Definition pickImage (options : Options) (promise : Promise)
    (currentActivity : option Activity) (s : t) : t :=
  launch {| type := "image/*"; mimeTypes := [];
            allowMultiple := wantsMultiple options |}
    REQUEST_PICK_IMAGE currentActivity promise
    {| pickImageResolve := Some promise;
       pickVideoResolve := pickVideoResolve s;
       pickMediaResolve := pickMediaResolve s;
       settlements := settlements s;
       started := started s |}.

Definition pickVideo (options : Options) (promise : Promise)
    (currentActivity : option Activity) (s : t) : t :=
  launch {| type := "video/*"; mimeTypes := [];
            allowMultiple := wantsMultiple options |}
    REQUEST_PICK_VIDEO currentActivity promise
    {| pickImageResolve := pickImageResolve s;
       pickVideoResolve := Some promise;
       pickMediaResolve := pickMediaResolve s;
       settlements := settlements s;
       started := started s |}.

Definition pickMedia (options : Options) (promise : Promise)
    (currentActivity : option Activity) (s : t) : t :=
  launch {| type := "*/*"; mimeTypes := ["image/*"%string; "video/*"%string];
            allowMultiple := wantsMultiple options |}
    REQUEST_PICK_MEDIA currentActivity promise
    {| pickImageResolve := pickImageResolve s;
       pickVideoResolve := pickVideoResolve s;
       pickMediaResolve := Some promise;
       settlements := settlements s;
       started := started s |}.

Definition createAssetFromUri (cr : Resolver) (uri type : string) : MediaAsset.t :=
  let row := query cr uri in
  MediaAsset.mk uri
    (match row with Some r => DISPLAY_NAME r | None => None end)
    (match row with Some r => SIZE r | None => None end)
    (Some type) None None None None.

Definition createSuccessResult (assets : list MediaAsset.t) : MediaPickerResult.t :=
  MediaPickerResult.mk assets false.

Definition createCanceledResult : MediaPickerResult.t :=
  MediaPickerResult.mk [] true.

(** [promise?.resolve(result)] *)
Definition resolveIfSet (promise : option Promise) (result : MediaPickerResult.t)
    (s : t) : t :=
  match promise with
  | None => s
  | Some p =>
      {| pickImageResolve := pickImageResolve s;
         pickVideoResolve := pickVideoResolve s;
         pickMediaResolve := pickMediaResolve s;
         settlements := settlements s ++ [(p, Resolve result)];
         started := started s |}
  end.

(** The body the three result handlers share; [assetOf] makes the asset of
    a uri. *)
Definition handleResult (assetOf : string -> MediaAsset.t) (resultCode : Z)
    (data : option ResultIntent) (promise : option Promise) (s : t) : t :=
  if resultCode =? RESULT_CANCELED then resolveIfSet promise createCanceledResult s
  else
    match data with
    | Some intent =>
        if resultCode =? RESULT_OK then
          let assets :=
            match clipData intent with
            | Some uris => map assetOf uris
            | None =>
                match AndroidPicker.data intent with
                | Some uri => [assetOf uri]
                | None => []
                end
            end in
          resolveIfSet promise (createSuccessResult assets) s
        else s
    | None => s
    end.

Definition handleImageResult (cr : Resolver) :=
  handleResult (fun uri => createAssetFromUri cr uri "image").

Definition handleVideoResult (cr : Resolver) :=
  handleResult (fun uri => createAssetFromUri cr uri "video").

(** [if (mimeType?.startsWith("image/") == true) "image" else "video"] *)
Definition mediaType (cr : Resolver) (uri : string) : string :=
  match getType cr uri with
  | Some mimeType => if Js.startsWith mimeType "image/" then "image" else "video"
  | None => "video"
  end.

Definition handleMediaResult (cr : Resolver) :=
  handleResult (fun uri => createAssetFromUri cr uri (mediaType cr uri)).

Definition onActivityResult (cr : Resolver) (requestCode resultCode : Z)
    (data : option ResultIntent) (s : t) : t :=
  if requestCode =? REQUEST_PICK_IMAGE
  then handleImageResult cr resultCode data (pickImageResolve s) s
  else if requestCode =? REQUEST_PICK_VIDEO
  then handleVideoResult cr resultCode data (pickVideoResolve s) s
  else if requestCode =? REQUEST_PICK_MEDIA
  then handleMediaResult cr resultCode data (pickMediaResolve s) s
  else s.

(** A result delivered to the module. *)
Record ActivityResult := {
  requestCode : Z;
  resultCode : Z;
  intent : option ResultIntent
}.

Definition deliverResults (cr : Resolver) (results : list ActivityResult) (s : t) : t :=
  fold_left (fun s r => onActivityResult cr (requestCode r) (resultCode r) (intent r) s)
    results s.

(** The promises that were settled after the first [n] settlements. *)
Definition settledSince (n : nat) (s : t) : list Promise :=
  map fst (drop n (settlements s)).

End AndroidPicker.

(** A resolver for the picker samples: one image, one audio clip. *)
Definition samplePickerResolver : AndroidPicker.Resolver :=
  {| AndroidPicker.getType := fun uri =>
       if String.eqb uri "content://media/photo" then Some "image/png"%string
       else if String.eqb uri "content://media/clip" then Some "audio/mpeg"%string
       else None;
     AndroidPicker.query := fun uri =>
       if String.eqb uri "content://media/photo"
       then Some {| AndroidPicker.DISPLAY_NAME := Some "photo.png"%string;
                    AndroidPicker.SIZE := Some 10 |}
       else None |}.

(** * Properties *)

(** The vectors the unit tests use as mocked payloads. *)
Example base64_test_vector :
  Base64.encode [x74; x65; x73; x74] = "dGVzdA=="%string /\
  Base64.decode "ZGF0YQ==" = [x64; x61; x74; x61].
Proof. split; reflexivity. Qed.

(** *** Round trip of the transport encoding *)

Lemma list_ind3 {A} (P : list A -> Prop) :
  P [] -> (forall a, P [a]) -> (forall a b, P [a; b]) ->
  (forall a b c l, P l -> P (a :: b :: c :: l)) ->
  forall l, P l.
Proof.
  intros H0 H1 H2 H3.
  assert (H : forall l, P l /\ (forall a, P (a :: l)) /\ (forall a b, P (a :: b :: l))).
  { induction l as [|x l (IH0 & IH1 & IH2)]; [now auto|].
    repeat split; auto. }
  intros l. apply H.
Qed.

Lemma dec_enc (n : N) : (n < 64)%N -> Base64.dec (Base64.enc n) = Some n.
Proof.
  intros Hn.
  assert (H : forallb (fun k => match Base64.dec (Base64.enc k) with
                                | Some m => N.eqb m k
                                | None => false
                                end)
                (List.map N.of_nat (seq 0 64)) = true) by (vm_compute; reflexivity).
  rewrite forallb_forall in H.
  specialize (H n).
  destruct (Base64.dec (Base64.enc n)) as [m|].
  - f_equal. apply N.eqb_eq, H.
    apply in_map_iff. exists (N.to_nat n). split; [lia|]. apply in_seq. lia.
  - discriminate H.
    apply in_map_iff. exists (N.to_nat n). split; [lia|]. apply in_seq. lia.
Qed.

Lemma enc_not_pad (n : N) : (n < 64)%N -> Ascii.eqb (Base64.enc n) Base64.pad = false.
Proof.
  intros Hn.
  assert (H : forallb (fun k => negb (Ascii.eqb (Base64.enc k) Base64.pad))
                (List.map N.of_nat (seq 0 64)) = true) by (vm_compute; reflexivity).
  rewrite forallb_forall in H.
  apply negb_true_iff, H.
  apply in_map_iff. exists (N.to_nat n). split; [lia|]. apply in_seq. lia.
Qed.

Lemma sextets_enc (n : N) (s : string) :
  (n < 64)%N ->
  Base64.sextets (String (Base64.enc n) s) = n :: Base64.sextets s.
Proof.
  intros Hn. cbn [Base64.sextets].
  now rewrite enc_not_pad, dec_enc.
Qed.

Lemma byteOf_to_N (b : byte) (n : N) : n = Byte.to_N b -> Base64.byteOf n = b.
Proof.
  intros ->. unfold Base64.byteOf.
  pose proof (Byte.to_N_bounded b).
  rewrite N.mod_small by lia.
  now rewrite Byte.of_to_N.
Qed.

Ltac byte_arith :=
  repeat match goal with
         | |- context [Byte.to_N ?b] =>
             lazymatch goal with
             | _ : (Byte.to_N b <= 255)%N |- _ => fail
             | _ => pose proof (Byte.to_N_bounded b)
             end
         end;
  zify; Z.to_euclidean_division_equations; lia.

Lemma decode_encode (bs : list byte) : Base64.decode (Base64.encode bs) = bs.
Proof.
  unfold Base64.decode.
  induction bs as [|a|a b|a b c l IH] using list_ind3.
  - reflexivity.
  - cbn [Base64.encode].
    rewrite !sextets_enc by byte_arith.
    cbn [Base64.sextets Base64.bytes]. rewrite Ascii.eqb_refl.
    f_equal. apply byteOf_to_N. byte_arith.
  - cbn [Base64.encode].
    rewrite !sextets_enc by byte_arith.
    cbn [Base64.sextets Base64.bytes]. rewrite Ascii.eqb_refl.
    f_equal; [|f_equal]; apply byteOf_to_N; byte_arith.
  - cbn [Base64.encode].
    rewrite !sextets_enc by byte_arith.
    cbn [Base64.bytes]. fold Base64.bytes. rewrite IH.
    f_equal; [|f_equal; [|f_equal]]; apply byteOf_to_N; byte_arith.
Qed.

(** ** Fixed-width conversions inside their range *)

Lemma toLong_id (x : Z) : - 2 ^ 63 <= x < 2 ^ 63 -> toLong x = x.
Proof. unfold toLong. lia. Qed.

Lemma toLong_nonneg (x : Z) : 0 <= x -> toLong x = Z.min x (2 ^ 63 - 1).
Proof. unfold toLong. lia. Qed.

Lemma toInt_id (x : Z) : - 2 ^ 31 <= x < 2 ^ 31 -> toInt x = x.
Proof. intros Hx. unfold toInt. rewrite Z.mod_small; lia. Qed.

Lemma wrapLong_id (x : Z) : - 2 ^ 63 <= x < 2 ^ 63 -> wrapLong x = x.
Proof. intros Hx. unfold wrapLong. rewrite Z.mod_small; lia. Qed.

Lemma unsignedLongLongValue_id (x : Z) :
  0 <= x < 2 ^ 64 -> unsignedLongLongValue x = x.
Proof. intros Hx. unfold unsignedLongLongValue. now rewrite Z.mod_small. Qed.

Lemma MiB4_value : MiB4 = 4194304.
Proof. reflexivity. Qed.

Lemma validArg_android (a : Android.BigMediaLoaderModule) (x : Z) :
  0 <= x -> validArg (OnAndroid a) x.
Proof. now split. Qed.

Lemma validArg_ios (i : IOS.BigMediaLoader) (x : Z) :
  0 <= x < 2 ^ 64 -> validArg (OnIOS i) x.
Proof. now split. Qed.

Lemma validArg_small (m : NativeModule) (x : Z) :
  0 <= x < 2 ^ 64 -> validArg m x.
Proof. destruct m; now split. Qed.

(** ** One read of an open handle *)

Lemma length_range (file : list byte) (off k : Z) :
  0 <= off -> 0 <= k ->
  Z.of_nat (length (take (Z.to_nat k) (drop (Z.to_nat off) file)))
  = Z.max 0 (Z.min k (Z.of_nat (length file) - off)).
Proof. intros Hoff Hk. rewrite length_take, length_drop. lia. Qed.

(** Android: a read of an open handle, for a non-negative offset and length. *)
Lemma Android_readBase64_open (a : Android.BigMediaLoaderModule)
    (handle : Z) (h : Android.BigMediaHandle) (off len : Z) :
  Android.handles a !! handle = Some h ->
  Z.of_nat (length (Android.channel h)) < 2 ^ 63 ->
  0 <= off -> 0 <= len ->
  let k := Z.min (Z.min len MiB4) (Z.of_nat (length (Android.channel h)) - off) in
  Android.readBase64 a handle off len =
    if 0 <? k then
      Return {| offset := off; bytesRead := k;
                eof := Android.size h <=? off + k;
                base64 := Base64.encode
                            (take (Z.to_nat k) (drop (Z.to_nat off) (Android.channel h))) |}
    else
      Return {| offset := toLong off; bytesRead := 0; eof := true;
                base64 := EmptyString |}.
Proof.
  intros Hh Hfile Hoff Hlen k.
  unfold Android.readBase64. rewrite Hh.
  pose proof MiB4_value as HM.
  assert (Hcap : Z.min (toLong len) MiB4 = Z.min len MiB4)
    by (rewrite toLong_nonneg by lia; lia).
  rewrite Hcap, toInt_id by lia.
  destruct (Z.ltb_spec (Z.min len MiB4) 0) as [?|_]; [lia|].
  destruct (Z.ltb_spec (toLong off) 0) as [Hneg|_];
    [rewrite toLong_nonneg in Hneg by lia; lia|].
  unfold Android.positionAndRead.
  destruct (Z.eqb_spec (Z.min len MiB4) 0) as [H0|H0].
  { cbn. destruct (Z.ltb_spec 0 k); [lia|reflexivity]. }
  destruct (Z.leb_spec (Z.of_nat (length (Android.channel h))) (toLong off)) as [Hend|Hin].
  { cbn. rewrite toLong_nonneg in Hend by lia.
    destruct (Z.ltb_spec 0 k); [lia|reflexivity]. }
  assert (Hid : toLong off = off) by (rewrite toLong_nonneg in * by lia; lia).
  rewrite Hid in *.
  rewrite length_range by lia.
  assert (Hk : Z.max 0 (Z.min (Z.min len MiB4)
                 (Z.of_nat (length (Android.channel h)) - off)) = k) by lia.
  rewrite Hk.
  destruct (Z.leb_spec k 0) as [?|Hpos]; [lia|].
  destruct (Z.ltb_spec 0 k) as [_|?]; [|lia].
  rewrite wrapLong_id by lia.
  rewrite take_take.
  replace (Z.to_nat k `min` Z.to_nat (Z.min len MiB4))%nat with (Z.to_nat k)
    by (subst k; lia).
  reflexivity.
Qed.

(** iOS: a read of an open handle, for an offset and a length that
    [unsigned long long] represents. *)
Lemma IOS_readBase64_open (i : IOS.BigMediaLoader)
    (handle : Z) (h : IOS.BigMediaHandle) (off len : Z) :
  IOS._handles i !! handle = Some h ->
  Z.of_nat (length (IOS.fh h)) < 2 ^ 64 ->
  0 <= off < 2 ^ 64 -> 0 <= len < 2 ^ 64 ->
  let k := Z.max 0 (Z.min len (Z.of_nat (length (IOS.fh h)) - off)) in
  IOS.readBase64 i handle off len =
    Return {| offset := off; bytesRead := k;
              eof := IOS.size h <=? off + k;
              base64 := Base64.encode
                          (take (Z.to_nat len) (drop (Z.to_nat off) (IOS.fh h))) |}.
Proof.
  intros Hh Hfile Hoff Hlen k.
  unfold IOS.readBase64, IOS.seekAndRead. rewrite Hh.
  rewrite !(unsignedLongLongValue_id off), !(unsignedLongLongValue_id len) by lia.
  rewrite length_range by lia. fold k.
  rewrite unsignedLongLongValue_id by lia.
  reflexivity.
Qed.

(** Either platform: a read that finds at least one byte. *)
Lemma readBase64_some (m : NativeModule) (handle size : Z) (file : list byte)
    (off len : Z) :
  openHandle m handle size file -> validArg m off -> validArg m len ->
  let k := Z.min (effectiveLength m len) (Z.of_nat (length file) - off) in
  0 < k ->
  BigMediaLoader.readBase64 m handle off len =
    Return {| offset := off; bytesRead := k; eof := size <=? off + k;
              base64 := Base64.encode (take (Z.to_nat k) (drop (Z.to_nat off) file)) |}.
Proof.
  intros Hopen [Hoff Hoff'] [Hlen Hlen'] k Hk.
  destruct m as [a|i]; destruct Hopen as (h & Hh & Hsize & Hfile & Hbound);
    subst size file; cbn [effectiveLength] in k;
    cbn [BigMediaLoader.readBase64 NativeModule_spec].
  - rewrite (Android_readBase64_open a handle h) by assumption.
    fold k. destruct (Z.ltb_spec 0 k); [reflexivity|lia].
  - rewrite (IOS_readBase64_open i handle h) by (assumption || lia).
    replace (Z.max 0 _) with k by lia.
    do 3 f_equal.
    assert (Hl : length (drop (Z.to_nat off) (IOS.fh h))
                 = Z.to_nat (Z.of_nat (length (IOS.fh h)) - off))
      by (rewrite length_drop; lia).
    destruct (Z.le_gt_cases len (Z.of_nat (length (IOS.fh h)) - off)).
    + f_equal. lia.
    + rewrite !take_ge by lia. reflexivity.
Qed.

(** Either platform: a read at or beyond the end of the file. *)
Lemma readBase64_none (m : NativeModule) (handle : Z) (file : list byte)
    (off len : Z) :
  holds m handle file -> validArg m off -> validArg m len ->
  Z.of_nat (length file) <= off ->
  exists o,
    BigMediaLoader.readBase64 m handle off len =
      Return {| offset := o; bytesRead := 0; eof := true; base64 := EmptyString |}.
Proof.
  intros Hopen [Hoff Hoff'] [Hlen Hlen'] Hend.
  destruct m as [a|i]; destruct Hopen as (h & Hh & Hsize & Hfile & Hbound);
    subst file; cbn [BigMediaLoader.readBase64 NativeModule_spec].
  - exists (toLong off).
    rewrite (Android_readBase64_open a handle h) by assumption.
    cbv zeta.
    match goal with |- context [0 <? ?k] => destruct (Z.ltb_spec 0 k) end;
      [lia|reflexivity].
  - exists off.
    rewrite (IOS_readBase64_open i handle h) by (assumption || lia).
    rewrite Hsize.
    replace (Z.max 0 _) with 0 by lia.
    rewrite take_ge, drop_ge by (rewrite ?length_drop; lia).
    cbn [Base64.encode]. do 2 f_equal. lia.
Qed.

(** ** The registry: [open], [close] and unknown handles *)

(** [open] stores the file with its length as the captured size. *)
Lemma Android_open_holds (a a' : Android.BigMediaLoaderModule) (uri : string)
    (file : list byte) (id : Z) :
  Android.openFileDescriptor (Android.contentResolver a) uri = Some file ->
  Z.of_nat (length file) < 2 ^ 63 ->
  Android.open a uri = (Return id, a') ->
  id = Android.nextId a /\ holds (OnAndroid a') id file.
Proof.
  intros Hfile Hlen. unfold Android.open. rewrite Hfile.
  intros [= <- <-]. split; [reflexivity|].
  eexists. split; [apply lookup_insert_eq|]. cbn. auto.
Qed.

Lemma IOS_open_holds (i i' : IOS.BigMediaLoader) (uri : string)
    (file : list byte) (id : Z) :
  IOS.fileHandleForReadingFromURL (IOS.foundation i) uri = Some file ->
  Z.of_nat (length file) < 2 ^ 64 ->
  IOS.open i uri = (Return id, i') ->
  id = IOS._nextId i /\ holds (OnIOS i') id file.
Proof.
  intros Hfile Hlen. unfold IOS.open. rewrite Hfile.
  intros [= <- <-]. split; [reflexivity|].
  eexists. split; [apply lookup_insert_eq|]. cbn. auto.
Qed.

(** A handle is unknown in a fresh module and after [close]. *)
Lemma unknownHandle_init_android (cr : Android.ContentResolver) (handle : Z) :
  unknownHandle (OnAndroid (Android.init cr)) handle.
Proof. apply lookup_empty. Qed.

Lemma unknownHandle_init_ios (f : IOS.Foundation) (handle : Z) :
  unknownHandle (OnIOS (IOS.init f)) handle.
Proof. apply lookup_empty. Qed.

Lemma unknownHandle_close (m : NativeModule) (handle : Z) :
  unknownHandle (BigMediaLoader.close m handle).2 handle.
Proof.
  destruct m as [a|i]; cbn.
  - unfold Android.close.
    destruct (Android.handles a !! handle) eqn:E; cbn; [apply lookup_delete_eq|exact E].
  - unfold IOS.close.
    destruct (IOS._handles i !! handle) eqn:E; cbn; [apply lookup_delete_eq|exact E].
Qed.

Lemma close_unknown (m : NativeModule) (handle : Z) :
  unknownHandle m handle -> (BigMediaLoader.close m handle).2 = m.
Proof.
  destruct m as [a|i]; cbn; intros Hnone.
  - unfold Android.close. now rewrite Hnone.
  - unfold IOS.close. now rewrite Hnone.
Qed.

(** Android: every operation on an unknown handle throws "Invalid handle". *)
Lemma Android_unknown_handle_throws (a : Android.BigMediaLoaderModule)
    (handle off len : Z) :
  Android.handles a !! handle = None ->
  Android.stat a handle = Throw (RuntimeException "Invalid handle") /\
  Android.readBase64 a handle off len = Throw (RuntimeException "Invalid handle") /\
  Android.playableUri a handle = Throw (RuntimeException "Invalid handle").
Proof.
  intros Hnone. unfold Android.stat, Android.readBase64, Android.playableUri.
  now rewrite Hnone.
Qed.

(** iOS: every operation on an unknown handle returns [nil]. *)
Lemma IOS_unknown_handle_nil (i : IOS.BigMediaLoader) (handle off len : Z) :
  IOS._handles i !! handle = None ->
  IOS.stat i handle = Nil /\
  IOS.readBase64 i handle off len = Nil /\
  IOS.playableUri i handle = Nil.
Proof.
  intros Hnone. unfold IOS.stat, IOS.readBase64, IOS.playableUri.
  now rewrite Hnone.
Qed.

(** C2, evaluated on iOS: on a handle that was never opened (handle 1 of a
    fresh module) and on a handle that was opened and closed (handle 1 of the
    sample module), [stat], [readBase64] and [playableUri] return [nil] to
    JavaScript: no operation fails with an invalid-handle error. *)
Theorem C2_ios_unknown_handle_returns_nil :
  (IOS.stat (IOS.init sampleFoundation) 1 = Nil /\
   IOS.readBase64 (IOS.init sampleFoundation) 1 0 4 = Nil /\
   IOS.playableUri (IOS.init sampleFoundation) 1 = Nil) /\
  (exists r, IOS.stat iosSample 1 = Return r) /\
  (IOS.stat (IOS.close iosSample 1).2 1 = Nil /\
   IOS.readBase64 (IOS.close iosSample 1).2 1 0 4 = Nil /\
   IOS.playableUri (IOS.close iosSample 1).2 1 = Nil).
Proof.
  split; [|split].
  - apply IOS_unknown_handle_nil, lookup_empty.
  - eexists. vm_compute. reflexivity.
  - apply IOS_unknown_handle_nil.
    apply (unknownHandle_close (OnIOS iosSample) 1).
Qed.

(** C7: [close] never throws; on a handle that is no entry of the registry
    (unknown, never opened) it leaves the module as it is; and a second
    [close] of the same handle changes nothing that the first one left. *)
Theorem C7_close_idempotent (m : NativeModule) (handle : Z) :
  (forall e, (BigMediaLoader.close m handle).1 <> Throw e) /\
  (unknownHandle m handle -> (BigMediaLoader.close m handle).2 = m) /\
  (forall e, (BigMediaLoader.close (BigMediaLoader.close m handle).2 handle).1 <> Throw e) /\
  (BigMediaLoader.close (BigMediaLoader.close m handle).2 handle).2
    = (BigMediaLoader.close m handle).2.
Proof.
  assert (Hok : forall m' e, (BigMediaLoader.close m' handle).1 <> Throw e).
  { intros [a|i] e; cbn.
    - unfold Android.close. destruct (Android.handles a !! handle); discriminate.
    - unfold IOS.close. destruct (IOS._handles i !! handle); discriminate. }
  repeat split.
  - apply Hok.
  - apply close_unknown.
  - apply Hok.
  - apply close_unknown, unknownHandle_close.
Qed.

(** The descriptor of a handle is released by the first [close], once. *)
Example close_releases_once :
  Android.released (Android.close androidSample 1).2 = [1] /\
  Android.released (Android.close (Android.close androidSample 1).2 1).2 = [1] /\
  IOS.released (IOS.close (IOS.close iosSample 1).2 1).2 = [1].
Proof. repeat split; vm_compute; reflexivity. Qed.

(** C7 at the sample modules: handle 1 closed twice, handle 7 never opened. *)
Lemma C7_close_idempotent_witness :
  (BigMediaLoader.close (OnAndroid androidSample) 7).2 = OnAndroid androidSample /\
  (BigMediaLoader.close (BigMediaLoader.close (OnIOS iosSample) 1).2 1).2
    = (BigMediaLoader.close (OnIOS iosSample) 1).2.
Proof.
  split.
  - refine (proj1 (proj2 (C7_close_idempotent (OnAndroid androidSample) 7)) _).
    vm_compute. reflexivity.
  - exact (proj2 (proj2 (proj2 (C7_close_idempotent (OnIOS iosSample) 1)))).
Defined.

(** ** The shape of the payload *)

Lemma enc_isChar (n : N) : (n < 64)%N -> Base64.isChar (Base64.enc n) = true.
Proof.
  intros Hn.
  assert (H : forallb (fun k => Base64.isChar (Base64.enc k))
                (List.map N.of_nat (seq 0 64)) = true) by (vm_compute; reflexivity).
  rewrite forallb_forall in H. apply H.
  apply in_map_iff. exists (N.to_nat n). split; [lia|]. apply in_seq. lia.
Qed.

Lemma encode_standard (bs : list byte) : Base64.standard (Base64.encode bs).
Proof.
  unfold Base64.standard.
  induction bs as [|a|a b|a b c l [IH1 IH2]] using list_ind3.
  - split; reflexivity.
  - split; [|reflexivity]. cbn [Base64.encode list_ascii_of_string forallb].
    rewrite !enc_isChar by byte_arith. reflexivity.
  - split; [|reflexivity]. cbn [Base64.encode list_ascii_of_string forallb].
    rewrite !enc_isChar by byte_arith. reflexivity.
  - split.
    + cbn [Base64.encode list_ascii_of_string forallb].
      rewrite !enc_isChar by byte_arith. exact IH1.
    + cbn [Base64.encode String.length].
      change (S (S (S (S ?n)))) with (4 + n)%nat.
      rewrite <- Nat.Div0.add_mod_idemp_l. exact IH2.
Qed.

Lemma encode_nil_iff (bs : list byte) : Base64.encode bs = EmptyString <-> bs = [].
Proof.
  split; [|now intros ->].
  destruct bs as [|a [|b [|c l]]]; [reflexivity|discriminate..].
Qed.

(** ** The sample states *)

Lemma length_zeros (n : Z) : 0 <= n -> Z.of_nat (length (zeros n)) = n.
Proof. intros Hn. unfold zeros. rewrite length_replicate. lia. Qed.

Lemma holds_androidOn (file : list byte) :
  Z.of_nat (length file) < 2 ^ 63 -> holds (OnAndroid (androidOn file)) 1 file.
Proof.
  intros Hn. eexists. split; [apply lookup_singleton_eq|]. cbn. auto.
Qed.

Lemma holds_iosOn (file : list byte) :
  Z.of_nat (length file) < 2 ^ 64 -> holds (OnIOS (iosOn file)) 1 file.
Proof.
  intros Hn. eexists. split; [apply lookup_singleton_eq|]. cbn. auto.
Qed.

Lemma holds_androidSample : holds (OnAndroid androidSample) 1 tenBytes.
Proof. eexists. split; [vm_compute; reflexivity|]. cbn. repeat split; lia. Qed.

Lemma holds_iosSample : holds (OnIOS iosSample) 1 tenBytes.
Proof. eexists. split; [vm_compute; reflexivity|]. cbn. repeat split; lia. Qed.

(** ** The cap of [readBase64] *)

(** iOS applies no cap: the whole requested range is read. *)
Lemma IOS_readBase64_not_clamped :
  exists r, IOS.readBase64 (iosOn (zeros 10485760)) 1 0 10485760 = Return r /\
            bytesRead r = 10485760 /\ MiB4 < bytesRead r /\ eof r = true.
Proof.
  pose proof (readBase64_some (OnIOS (iosOn (zeros 10485760))) 1 10485760
                (zeros 10485760) 0 10485760) as H.
  rewrite length_zeros in H by lia.
  cbn [BigMediaLoader.readBase64 NativeModule_spec effectiveLength] in H.
  eexists. split.
  - apply H.
    + rewrite <- (length_zeros 10485760) at 2 by lia. apply holds_iosOn.
      rewrite length_zeros; lia.
    + apply validArg_ios. lia.
    + apply validArg_ios. lia.
    + lia.
  - cbn [bytesRead eof]. rewrite MiB4_value. repeat split; lia.
Qed.

(** Android: a negative length whose low 32 bits are a positive [Int] is not
    rejected, and the buffer it allocates exceeds the cap. *)
Lemma Android_negative_length_wraps :
  toInt (Z.min (toLong (8388608 - 2 ^ 32)) MiB4) = 8388608.
Proof. reflexivity. Qed.

(** C1, as stated, fails where exactly the cap remains: on an Android handle
    open on a file of 4 MiB, [readBase64(h, 0, 10 MiB)] exceeds the cap and
    the cap's worth of bytes remains past the offset; the cap's worth of
    bytes is returned, but with [eof = true]. *)
Lemma C1_counterexample :
  holds (OnAndroid (androidOn (zeros MiB4))) 1 (zeros MiB4) /\
  MiB4 < 10485760 /\
  MiB4 <= Z.of_nat (length (zeros MiB4)) - 0 /\
  exists r, Android.readBase64 (androidOn (zeros MiB4)) 1 0 10485760 = Return r /\
            bytesRead r = MiB4 /\ eof r <> false.
Proof.
  pose proof MiB4_value as HM.
  assert (Hholds : holds (OnAndroid (androidOn (zeros MiB4))) 1 (zeros MiB4))
    by (apply holds_androidOn; rewrite length_zeros; lia).
  split; [exact Hholds|]. split; [lia|].
  split; [rewrite length_zeros; lia|].
  pose proof (readBase64_some (OnAndroid (androidOn (zeros MiB4))) 1 _ _ 0 10485760
                Hholds) as H.
  rewrite length_zeros in H by lia.
  cbn [BigMediaLoader.readBase64 NativeModule_spec effectiveLength] in H.
  eexists. split; [apply H; try apply validArg_android; lia|].
  cbn [bytesRead eof]. split; [lia|].
  destruct (Z.leb_spec MiB4 (0 + Z.min (Z.min 10485760 MiB4) (MiB4 - 0)));
    [discriminate|lia].
Qed.

(** C1, amended: on Android, for an open handle, a non-negative offset and a
    non-negative requested length, [readBase64] returns a result (the request
    is not rejected) whose [bytesRead] is at most the 4 MiB cap and at most
    the requested length; when the length exceeds the cap and at least the
    cap's worth of bytes remains past the offset, exactly the cap is read,
    with [eof = false] when more than the cap remains and [eof = true] when
    exactly the cap remains. *)
Theorem C1_android_clamps_to_cap (a : Android.BigMediaLoaderModule)
    (handle : Z) (file : list byte) (off len : Z) :
  holds (OnAndroid a) handle file -> 0 <= off -> 0 <= len ->
  exists r,
    Android.readBase64 a handle off len = Return r /\
    0 <= bytesRead r <= MiB4 /\ bytesRead r <= len /\
    (MiB4 < len -> off + MiB4 < Z.of_nat (length file) ->
       bytesRead r = MiB4 /\ eof r = false) /\
    (MiB4 < len -> off + MiB4 = Z.of_nat (length file) ->
       bytesRead r = MiB4 /\ eof r = true).
Proof.
  intros (h & Hh & Hsize & Hfile & Hbound) Hoff Hlen. subst file.
  pose proof MiB4_value as HM.
  rewrite (Android_readBase64_open a handle h) by assumption. cbv zeta.
  set (k := Z.min (Z.min len MiB4) (Z.of_nat (length (Android.channel h)) - off)).
  destruct (Z.ltb_spec 0 k) as [Hk|Hk]; eexists; (split; [reflexivity|]);
    cbn [bytesRead eof]; rewrite ?Hsize.
  - repeat split; intros; lia.
  - repeat split; intros; lia.
Qed.

(** C1 at an Android handle open on a file of 4 MiB + 1 bytes: 10 MiB are
    requested at offset 0, more than the cap remains, and exactly the cap is
    returned with [eof = false]. *)
Lemma C1_android_clamps_to_cap_witness :
  MiB4 < 10485760 /\
  0 + MiB4 < Z.of_nat (length (zeros (MiB4 + 1))) /\
  exists r,
    Android.readBase64 (androidOn (zeros (MiB4 + 1))) 1 0 10485760 = Return r /\
    0 <= bytesRead r <= MiB4 /\ bytesRead r <= 10485760 /\
    bytesRead r = MiB4 /\ eof r = false.
Proof.
  pose proof MiB4_value as HM.
  assert (Hlen : Z.of_nat (length (zeros (MiB4 + 1))) = MiB4 + 1)
    by (apply length_zeros; lia).
  split; [lia|]. split; [lia|].
  destruct (C1_android_clamps_to_cap (androidOn (zeros (MiB4 + 1))) 1
              (zeros (MiB4 + 1)) 0 10485760)
    as (r & Hr & Hbound & Hle & Hmore & _).
  - apply holds_androidOn. lia.
  - lia.
  - lia.
  - exists r. split; [exact Hr|]. split; [exact Hbound|]. split; [exact Hle|].
    apply Hmore; lia.
Defined.

(** ** What a read returns *)

(** Either platform: a read that finds no byte. *)
Lemma readBase64_empty (m : NativeModule) (handle size : Z) (file : list byte)
    (off len : Z) :
  openHandle m handle size file -> validArg m off -> validArg m len ->
  Z.min (effectiveLength m len) (Z.of_nat (length file) - off) <= 0 ->
  exists o e,
    BigMediaLoader.readBase64 m handle off len =
      Return {| offset := o; bytesRead := 0; eof := e; base64 := EmptyString |}.
Proof.
  intros Hopen [Hoff Hoff'] [Hlen Hlen'] Hk.
  destruct m as [a|i]; destruct Hopen as (h & Hh & Hsize & Hfile & Hbound);
    subst size file; cbn [effectiveLength] in Hk;
    cbn [BigMediaLoader.readBase64 NativeModule_spec].
  - rewrite (Android_readBase64_open a handle h) by assumption. cbv zeta.
    match goal with |- context [0 <? ?k] => destruct (Z.ltb_spec 0 k) end; [lia|].
    eauto.
  - rewrite (IOS_readBase64_open i handle h) by (assumption || lia).
    replace (Z.max 0 _) with 0 by lia.
    assert (Hnil : take (Z.to_nat len) (drop (Z.to_nat off) (IOS.fh h)) = []).
    { apply length_zero_iff_nil. rewrite length_take, length_drop. lia. }
    rewrite Hnil. cbn [Base64.encode]. eauto.
Qed.

(** Either platform: a read of an open handle returns a result. *)
Lemma readBase64_returns (m : NativeModule) (handle size : Z) (file : list byte)
    (off len : Z) :
  openHandle m handle size file -> validArg m off -> validArg m len ->
  exists r, BigMediaLoader.readBase64 m handle off len = Return r.
Proof.
  intros Hopen Hoff Hlen.
  destruct (Z.lt_ge_cases 0
              (Z.min (effectiveLength m len) (Z.of_nat (length file) - off))) as [Hk|Hk].
  - rewrite (readBase64_some m handle size file) by assumption. eauto.
  - destruct (readBase64_empty m handle size file off len) as (o & e & ->);
      try assumption; eauto.
Qed.

(** Android: whatever the arguments, a result that carries no byte says
    [eof = true] and has an empty payload (the [read <= 0] branch). *)
Lemma Android_zero_read (a : Android.BigMediaLoaderModule) (handle off len : Z)
    (r : ReadResult) :
  Android.readBase64 a handle off len = Return r ->
  bytesRead r = 0 -> eof r = true /\ base64 r = EmptyString.
Proof.
  unfold Android.readBase64.
  destruct (Android.handles a !! handle) as [h|]; [|discriminate].
  destruct (_ <? 0); [discriminate|].
  destruct (_ <? 0); [discriminate|].
  destruct (Android.positionAndRead _ _ _) as [read buf].
  destruct (Z.leb_spec read 0) as [Hzero|Hsome]; intros [= <-]; cbn.
  - auto.
  - lia.
Qed.

(** iOS reports [eof] by the captured size alone: a request of length zero
    below the end reads nothing and is not at the end. *)
Example IOS_zero_length_read :
  IOS.readBase64 iosSample 1 0 0 =
    Return {| offset := 0; bytesRead := 0; eof := false; base64 := EmptyString |}.
Proof. vm_compute. reflexivity. Qed.

(** C4: a read of an open handle that returns at least one byte carries the
    requested offset, the number of bytes actually read (the requested
    length, capped on Android, or what is left of the file if that is less),
    [eof = (offset + bytesRead >= size)] for the size captured at open time,
    and as payload the standard base64 text, unwrapped and padded, of exactly
    the bytes of that range; on a file of ten bytes, [readBase64(h, 8, 4)] is
    [{offset: 8, bytesRead: 2, eof: true}] with the base64 of the last two
    bytes. *)
Theorem C4_read_result (m : NativeModule) (handle size : Z) (file : list byte)
    (off len : Z) (r : ReadResult) :
  openHandle m handle size file -> validArg m off -> validArg m len ->
  BigMediaLoader.readBase64 m handle off len = Return r ->
  1 <= bytesRead r ->
  offset r = off /\
  bytesRead r = Z.min (effectiveLength m len) (Z.of_nat (length file) - off) /\
  bytesRead r <= len /\
  eof r = (size <=? off + bytesRead r) /\
  base64 r = Base64.encode (take (Z.to_nat (bytesRead r)) (drop (Z.to_nat off) file)) /\
  Base64.standard (base64 r) /\
  Base64.decode (base64 r) = take (Z.to_nat (bytesRead r)) (drop (Z.to_nat off) file) /\
  Z.of_nat (length (Base64.decode (base64 r))) = bytesRead r /\
  (Z.of_nat (length file) = 10 -> size = 10 -> off = 8 -> len = 4 ->
   r = {| offset := 8; bytesRead := 2; eof := true;
          base64 := Base64.encode (drop 8 file) |}).
Proof.
  intros Hopen Hoff Hlen Hread Hsome.
  set (k := Z.min (effectiveLength m len) (Z.of_nat (length file) - off)).
  assert (Heff : effectiveLength m len <= len)
    by (destruct m; cbn [effectiveLength]; lia).
  destruct (Z.lt_ge_cases 0 k) as [Hk|Hk].
  2: { destruct (readBase64_empty m handle size file off len) as (o & e & Hr);
         try assumption.
       rewrite Hr in Hread. injection Hread as <-. cbn in Hsome. lia. }
  rewrite (readBase64_some m handle size file) in Hread by assumption.
  injection Hread as <-. fold k. cbn [offset bytesRead eof base64].
  assert (Hlength : Z.of_nat (length (take (Z.to_nat k) (drop (Z.to_nat off) file))) = k).
  { destruct Hoff. rewrite length_range by lia. lia. }
  repeat split; try reflexivity; try lia.
  - apply encode_standard.
  - apply encode_standard.
  - apply decode_encode.
  - rewrite decode_encode. exact Hlength.
  - intros Hten -> -> ->.
    assert (Hk2 : k = 2).
    { subst k. rewrite Hten. destruct m; cbn [effectiveLength];
        rewrite ?MiB4_value; lia. }
    rewrite Hk2. change (10 <=? 8 + 2) with true.
    change (Z.to_nat 8) with 8%nat.
    rewrite take_ge by (rewrite length_drop; lia).
    reflexivity.
Qed.

(** C4 at the sample modules: [readBase64(1, 8, 4)] of the ten-byte file, on
    Android and on iOS. *)
Lemma C4_read_result_witness :
  let r := {| offset := 8; bytesRead := 2; eof := true; base64 := "ODk=" |} in
  BigMediaLoader.readBase64 (OnAndroid androidSample) 1 8 4 = Return r /\
  BigMediaLoader.readBase64 (OnIOS iosSample) 1 8 4 = Return r /\
  eof r = (10 <=? 8 + bytesRead r) /\
  Base64.decode (base64 r) = [x38; x39].
Proof.
  intros r.
  assert (Ha : BigMediaLoader.readBase64 (OnAndroid androidSample) 1 8 4 = Return r)
    by (vm_compute; reflexivity).
  assert (Hi : BigMediaLoader.readBase64 (OnIOS iosSample) 1 8 4 = Return r)
    by (vm_compute; reflexivity).
  split; [exact Ha|]. split; [exact Hi|].
  pose proof (C4_read_result (OnAndroid androidSample) 1 10 tenBytes 8 4 r
                holds_androidSample
                (validArg_android _ 8 ltac:(lia)) (validArg_android _ 4 ltac:(lia))
                Ha ltac:(cbn; lia)) as H.
  split; [apply H|apply H].
Defined.

(** At an offset at or beyond the end of an unchanged file a read returns a
    result, not an error, with [bytesRead = 0], [eof = true] and an empty
    payload, on either platform; so does, after [readBase64(h, 0, size)],
    the read [readBase64(h, size, 1)]. *)
Lemma readBase64_at_end (m : NativeModule) (handle : Z) (file : list byte)
    (off len : Z) :
  holds m handle file -> validArg m off -> validArg m len ->
  (Z.of_nat (length file) <= off ->
   exists r, BigMediaLoader.readBase64 m handle off len = Return r /\
             bytesRead r = 0 /\ eof r = true /\ base64 r = EmptyString) /\
  (exists r1 r2,
     BigMediaLoader.readBase64 m handle 0 (Z.of_nat (length file)) = Return r1 /\
     BigMediaLoader.readBase64 m handle (Z.of_nat (length file)) 1 = Return r2 /\
     bytesRead r2 = 0 /\ eof r2 = true /\ base64 r2 = EmptyString).
Proof.
  intros Hholds Hoff Hlen.
  assert (Hsize : validArg m (Z.of_nat (length file))).
  { destruct m; destruct Hholds as (h & _ & _ & _ & Hbound); split; lia. }
  split.
  - intros Hend.
    destruct (readBase64_none m handle file off len) as (o & ->); try assumption.
    eexists. split; [reflexivity|]. auto.
  - destruct (readBase64_returns m handle (Z.of_nat (length file)) file 0
                (Z.of_nat (length file)))
      as (r1 & Hr1); try assumption.
    { destruct m; split; try exact I; lia. }
    destruct (readBase64_none m handle file (Z.of_nat (length file)) 1)
      as (o & Hr2); try assumption.
    { destruct m; split; try exact I; lia. }
    { lia. }
    exists r1. eexists. split; [exact Hr1|]. split; [exact Hr2|]. auto.
Qed.

Example readBase64_at_end_sample :
  exists r1 r2,
    BigMediaLoader.readBase64 (OnIOS iosSample) 1 0 10 = Return r1 /\
    BigMediaLoader.readBase64 (OnIOS iosSample) 1 10 1 = Return r2 /\
    bytesRead r2 = 0 /\ eof r2 = true /\ base64 r2 = EmptyString.
Proof.
  exact (proj2 (readBase64_at_end (OnIOS iosSample) 1 tenBytes 10 1
                  holds_iosSample
                  (validArg_ios _ 10 ltac:(lia))
                  (validArg_ios _ 1 ltac:(lia)))).
Qed.

Lemma openHandle_androidShrunk :
  openHandle (OnAndroid androidShrunk) 1 10 (take 4 tenBytes).
Proof. eexists. split; [vm_compute; reflexivity|]. cbn. repeat split; lia. Qed.

Lemma openHandle_iosShrunk :
  openHandle (OnIOS iosShrunk) 1 10 (take 4 tenBytes).
Proof. eexists. split; [vm_compute; reflexivity|]. cbn. repeat split; lia. Qed.

(** C5, as the code behaves: a read for which zero bytes are available (a
    request of no bytes, or an offset at or beyond the end of the file
    behind the descriptor) at an offset below the size captured at open time
    returns [bytesRead = 0] and an empty payload on both platforms, but with
    [eof = false] on iOS, which computes [eof] from the captured size alone,
    where the Android module takes its [read <= 0] branch and says
    [eof = true]. *)
Theorem C5_ios_zero_read_is_not_eof (a : Android.BigMediaLoaderModule)
    (i : IOS.BigMediaLoader) (ha hi size : Z) (file : list byte) (off len : Z) :
  openHandle (OnAndroid a) ha size file -> openHandle (OnIOS i) hi size file ->
  0 <= off < 2 ^ 63 -> 0 <= len < 2 ^ 64 ->
  Z.min len (Z.of_nat (length file) - off) <= 0 ->
  off < size ->
  IOS.readBase64 i hi off len
  = Return {| offset := off; bytesRead := 0; eof := false; base64 := EmptyString |} /\
  Android.readBase64 a ha off len
  = Return {| offset := off; bytesRead := 0; eof := true; base64 := EmptyString |}.
Proof.
  intros (h & Hh & Hsize & Hfile & Hbound) (h' & Hh' & Hsize' & Hfile' & Hbound')
    Hoff Hlen Hzero Hbelow.
  split.
  - rewrite (IOS_readBase64_open i hi h')
      by (rewrite ?Hfile'; assumption || lia).
    rewrite Hsize', Hfile'.
    replace (Z.max 0 _) with 0 by lia.
    assert (Hnil : take (Z.to_nat len) (drop (Z.to_nat off) file) = []).
    { apply length_zero_iff_nil. rewrite length_take, length_drop. lia. }
    rewrite Hnil. cbn [Base64.encode].
    destruct (Z.leb_spec size (off + 0)); [lia|reflexivity].
  - rewrite (Android_readBase64_open a ha h)
      by (rewrite ?Hfile; assumption || lia).
    rewrite Hfile. cbv zeta.
    match goal with |- context [0 <? ?k] => destruct (Z.ltb_spec 0 k) end; [lia|].
    rewrite toLong_id by lia. reflexivity.
Qed.

(** C5 on the sample modules: a request of no bytes at offset 3 of the
    ten-byte file, and a request of one byte at offset 4 of the file that was
    truncated to four bytes after it was opened with ten. *)
Lemma C5_ios_zero_read_is_not_eof_witness :
  (IOS.readBase64 iosSample 1 3 0
   = Return {| offset := 3; bytesRead := 0; eof := false; base64 := EmptyString |} /\
   Android.readBase64 androidSample 1 3 0
   = Return {| offset := 3; bytesRead := 0; eof := true; base64 := EmptyString |}) /\
  (IOS.readBase64 iosShrunk 1 4 1
   = Return {| offset := 4; bytesRead := 0; eof := false; base64 := EmptyString |} /\
   Android.readBase64 androidShrunk 1 4 1
   = Return {| offset := 4; bytesRead := 0; eof := true; base64 := EmptyString |}).
Proof.
  split.
  - apply (C5_ios_zero_read_is_not_eof androidSample iosSample 1 1 10 tenBytes 3 0).
    + exact holds_androidSample.
    + exact holds_iosSample.
    + lia.
    + lia.
    + cbn. lia.
    + lia.
  - apply (C5_ios_zero_read_is_not_eof androidShrunk iosShrunk 1 1 10
             (take 4 tenBytes) 4 1).
    + exact openHandle_androidShrunk.
    + exact openHandle_iosShrunk.
    + lia.
    + lia.
    + cbn. lia.
    + lia.
Defined.

(** ** The ranges an iteration reads *)

Lemma take_min_length {A} (n : nat) (l : list A) :
  take (n `min` length l) l = take n l.
Proof.
  destruct (Nat.le_gt_cases n (length l)).
  - now rewrite Nat.min_l.
  - rewrite Nat.min_r, !take_ge by lia. reflexivity.
Qed.

Section Slices.

Variable step : nat.
Hypothesis step_pos : (1 <= step)%nat.
Variable file : list byte.

Lemma slices_end (fuel off : nat) :
  (length file <= off)%nat -> slices fuel step file off = [].
Proof using Type.
  clear step_pos. intros Hend. destruct fuel as [|fuel]; [reflexivity|]. cbn [slices].
  destruct (Nat.ltb_spec off (length file)); [lia|reflexivity].
Qed.

(** Fuel beyond the number of bytes left changes nothing. *)
Lemma slices_fuel (fuel fuel' off : nat) :
  (length file - off <= fuel)%nat -> (length file - off <= fuel')%nat ->
  slices fuel step file off = slices fuel' step file off.
Proof.
  revert fuel' off.
  induction fuel as [|fuel IH]; intros fuel' off Hf Hf'.
  - rewrite (slices_end fuel') by lia. reflexivity.
  - destruct fuel' as [|fuel'].
    + rewrite (slices_end (S fuel)) by lia. reflexivity.
    + cbn [slices]. destruct (Nat.ltb_spec off (length file)); [|reflexivity].
      f_equal. apply IH; lia.
Qed.

(** Round trip: the ranges, in order, make up the file from [off] on. *)
Lemma slices_concat (fuel off : nat) :
  (length file - off <= fuel)%nat ->
  concat (map fst (slices fuel step file off)) = drop off file.
Proof.
  revert off. induction fuel as [|fuel IH]; intros off Hf.
  - cbn. symmetry. apply drop_ge. lia.
  - cbn [slices]. destruct (Nat.ltb_spec off (length file)) as [Hin|Hout].
    + cbn [map fst concat]. rewrite IH by lia.
      rewrite <- (take_drop step (drop off file)) at 2.
      now rewrite drop_drop.
    + cbn. symmetry. apply drop_ge. lia.
Qed.

(** Every range is non-empty, lies in the file at its offset, and starts
    where the ranges before it end. *)
Lemma slices_lookup (fuel off i : nat) (b : Buffer) (o : Z) :
  slices fuel step file off !! i = Some (b, o) ->
  b <> [] /\
  b = take (length b) (drop (Z.to_nat o) file) /\
  o = Z.of_nat off
      + Z.of_nat (length (concat (map fst (take i (slices fuel step file off))))).
Proof.
  revert off i. induction fuel as [|fuel IH]; intros off i; [discriminate|].
  cbn [slices]. destruct (Nat.ltb_spec off (length file)) as [Hin|Hout];
    [|discriminate].
  destruct i as [|i].
  - intros [= <- <-]. rewrite Nat2Z.id. split; [|split].
    + intros Hnil. apply (f_equal length) in Hnil.
      rewrite length_take, length_drop in Hnil. cbn in Hnil. lia.
    + now rewrite length_take, take_min_length.
    + cbn. lia.
  - cbn [lookup list_lookup]. intros Hi.
    destruct (IH _ _ Hi) as (Hne & Hb & Ho). split; [exact Hne|].
    split; [exact Hb|].
    cbn [take map fst concat]. rewrite length_app, length_take, length_drop.
    assert (Hlast : (off + step <= length file)%nat).
    { apply lookup_lt_Some in Hi.
      destruct (Nat.le_gt_cases (off + step) (length file)); [assumption|].
      rewrite slices_end in Hi by lia. cbn in Hi. lia. }
    lia.
Qed.

End Slices.

(** Offsets grow strictly along a list in which every chunk is non-empty and
    starts where the chunks before it end. *)
Lemma offsets_increase (chunks : list (Buffer * Z)) (start : Z) :
  (forall i b o, chunks !! i = Some (b, o) ->
     b <> [] /\
     o = start + Z.of_nat (length (concat (map fst (take i chunks))))) ->
  forall i j b1 o1 b2 o2, (i < j)%nat ->
    chunks !! i = Some (b1, o1) -> chunks !! j = Some (b2, o2) ->
    o1 < o1 + Z.of_nat (length b1) <= o2.
Proof.
  intros Hall i j b1 o1 b2 o2 Hij Hi Hj.
  destruct (Hall _ _ _ Hi) as [Hne1 Ho1]. destruct (Hall _ _ _ Hj) as [_ Ho2].
  assert (Hlen1 : (0 < length b1)%nat) by (destruct b1; [congruence|cbn; lia]).
  split; [lia|].
  assert (Hsplit : take j chunks = take i chunks ++ (b1, o1) :: take (j - S i) (drop (S i) chunks)).
  { rewrite <- (take_drop_middle chunks i (b1, o1)) at 1 by exact Hi.
    assert (Hi' : (i < length chunks)%nat) by (eapply lookup_lt_Some; eauto).
    rewrite take_app, length_take, Nat.min_l by lia.
    rewrite take_take, Nat.min_r by lia.
    f_equal. replace (j - i)%nat with (S (j - S i)) by lia. reflexivity. }
  rewrite Ho2, Hsplit, Ho1.
  rewrite map_app, concat_app, length_app. cbn [map fst concat].
  rewrite length_app. lia.
Qed.

(** ** [readFileInChunks] on an open handle *)

Lemma stat_holds (m : NativeModule) (handle : Z) (file : list byte) :
  holds m handle file ->
  exists stats, BigMediaLoader.stat m handle = Return stats /\
                MediaStats.size stats = Z.of_nat (length file).
Proof.
  destruct m as [a|i]; intros (h & Hh & Hsize & _); cbn;
    [unfold Android.stat|unfold IOS.stat]; rewrite Hh; eauto.
Qed.

Lemma validArg_offset (m : NativeModule) (handle : Z) (file : list byte) (off : nat) :
  holds m handle file -> (off <= length file)%nat -> validArg m (Z.of_nat off).
Proof.
  destruct m; intros (h & _ & _ & _ & Hbound) Hoff; split; try exact I; lia.
Qed.

Section Iteration.

Context {W : Type}.
Variables (m : NativeModule) (handle : Z) (file : list byte).
Variable chunkSize : option Z.
Hypothesis Hholds : holds m handle file.
Hypothesis Hsize : 1 <= default MiB4 chunkSize.
Hypothesis Hvalid : validArg m (default MiB4 chunkSize).
Variable onProgress : option (Z -> Z -> Async W unit).
Variable onChunk : option (Buffer -> Z -> Async W unit).

Let requested : Z := default MiB4 chunkSize.
Let step : nat := Z.to_nat (effectiveLength m requested).
Let size : Z := Z.of_nat (length file).

Lemma step_pos : (1 <= step)%nat.
Proof.
  subst step requested. pose proof MiB4_value.
  destruct m; cbn [effectiveLength]; lia.
Qed.

(** The loop reads the ranges of [slices], one per turn. *)
Lemma readLoop_slices (fuel off : nat) (w : W) :
  (off <= length file)%nat -> (length file - off < fuel)%nat ->
  Utils.readLoop fuel m handle requested onProgress onChunk size (Z.of_nat off) w
  = Some (deliver onChunk onProgress size (slices fuel step file off) w).
Proof.
  pose proof step_pos as Hstep.
  revert off w. induction fuel as [|fuel IH]; intros off w Hoff Hfuel; [lia|].
  cbn [Utils.readLoop slices].
  destruct (Z.ltb_spec (Z.of_nat off) size) as [Hin|Hout];
    destruct (Nat.ltb_spec off (length file)) as [Hin'|Hout'];
    try (subst size; lia); [|reflexivity].
  set (k := Z.min (effectiveLength m requested) (Z.of_nat (length file) - Z.of_nat off)).
  assert (Hk : 0 < k) by (subst k step size; lia).
  rewrite (readBase64_some m handle size file (Z.of_nat off) requested);
    [|exact Hholds|eapply validArg_offset; eauto|exact Hvalid|exact Hk].
  fold k. cbn [base64 bytesRead eof]. rewrite decode_encode, Nat2Z.id.
  assert (Hrange : take (Z.to_nat k) (drop off file) = take step (drop off file)).
  { rewrite <- (take_min_length step). f_equal.
    rewrite length_drop. subst k step. lia. }
  rewrite Hrange. cbn [deliver].
  assert (Hlen : Z.of_nat (length (take step (drop off file))) = k).
  { rewrite <- Hrange, length_take, length_drop. subst k. lia. }
  rewrite Hlen.
  destruct (Utils.whenGiven onChunk _ _ w) as [[[]|e] w1]; [|reflexivity].
  destruct (Utils.whenGiven onProgress _ _ w1) as [[[]|e] w2]; [|reflexivity].
  destruct (Z.leb_spec size (Z.of_nat off + k)) as [Heof|Hmore].
  - rewrite slices_end by (subst k step size; lia). reflexivity.
  - replace (Z.of_nat off + k) with (Z.of_nat (off + step))
      by (subst k step size; lia).
    apply IH; subst k step size; lia.
Qed.

(** [readFileInChunks] delivers the ranges of [chunksOf], in order. *)
Lemma readFileInChunks_delivers (fuel : nat) (w : W) :
  (length file < fuel)%nat ->
  Utils.readFileInChunks fuel m handle
    {| Utils.chunkSize := chunkSize;
       Utils.onProgress := onProgress;
       Utils.onChunk := onChunk |} w
  = Some (deliver onChunk onProgress size
            (chunksOf (effectiveLength m requested) file) w).
Proof.
  intros Hfuel. unfold Utils.readFileInChunks.
  destruct (stat_holds m handle file Hholds) as (stats & -> & ->).
  cbn [Utils.chunkSize Utils.onProgress Utils.onChunk].
  etrans; [apply (readLoop_slices fuel 0 w); lia|].
  unfold chunksOf. do 2 f_equal.
  apply slices_fuel; try lia. exact step_pos.
Qed.

End Iteration.

(** ** The chunk iterator *)

Lemma deliver_keep (size : Z) (chunks calls : list (Buffer * Z)) :
  deliver (Some keep) None size chunks calls = (Resolved tt, calls ++ chunks).
Proof.
  revert calls. induction chunks as [|[b o] chunks IH]; intros calls.
  - now rewrite app_nil_r.
  - cbn [deliver Utils.whenGiven]. unfold keep at 1. rewrite IH.
    now rewrite <- app_assoc.
Qed.

(** C3: for a file of any size and a chunk size of at least 1,
    [readFileInChunks] completes and hands [onChunk] chunks that are
    non-empty ranges of the file, each starting where the chunks before it
    end (the first at 0), so that offsets grow strictly and no two chunks
    overlap; concatenated in the order of delivery, the chunks are the
    file. *)
Theorem C3_chunks_reconstruct_file (m : NativeModule) (handle : Z)
    (file : list byte) (chunkSize : Z) (fuel : nat) :
  holds m handle file -> 1 <= chunkSize -> validArg m chunkSize ->
  (length file < fuel)%nat ->
  exists chunks : list (Buffer * Z),
    Utils.readFileInChunks fuel m handle
      {| Utils.chunkSize := Some chunkSize;
         Utils.onProgress := None;
         Utils.onChunk := Some keep |} [] = Some (Resolved tt, chunks) /\
    concat (map fst chunks) = file /\
    (forall i b o, chunks !! i = Some (b, o) ->
       b <> [] /\
       b = take (length b) (drop (Z.to_nat o) file) /\
       o = Z.of_nat (length (concat (map fst (take i chunks))))) /\
    (forall i j b1 o1 b2 o2, (i < j)%nat ->
       chunks !! i = Some (b1, o1) -> chunks !! j = Some (b2, o2) ->
       o1 < o1 + Z.of_nat (length b1) <= o2).
Proof.
  intros Hholds Hsize Hvalid Hfuel.
  exists (chunksOf (effectiveLength m chunkSize) file).
  assert (Hstep : (1 <= Z.to_nat (effectiveLength m chunkSize))%nat).
  { pose proof MiB4_value. destruct m; cbn [effectiveLength]; lia. }
  assert (Hall : forall i b o,
             chunksOf (effectiveLength m chunkSize) file !! i = Some (b, o) ->
             b <> [] /\
             b = take (length b) (drop (Z.to_nat o) file) /\
             o = Z.of_nat (length (concat (map fst
                   (take i (chunksOf (effectiveLength m chunkSize) file)))))).
  { intros i b o Hi. unfold chunksOf in *.
    destruct (slices_lookup _ Hstep _ _ _ _ _ _ Hi) as (? & ? & ?).
    repeat split; assumption || lia. }
  split; [|split; [|split]].
  - rewrite (readFileInChunks_delivers m handle file (Some chunkSize)) by assumption.
    now rewrite deliver_keep.
  - unfold chunksOf. rewrite slices_concat by (assumption || lia). apply drop_0.
  - exact Hall.
  - apply (offsets_increase _ 0). intros i b o Hi.
    destruct (Hall i b o Hi) as (? & _ & ?). split; [assumption|lia].
Qed.

(** C3 at the sample Android module: the ten-byte file in chunks of four. *)
Lemma C3_chunks_reconstruct_file_witness :
  exists chunks : list (Buffer * Z),
    Utils.readFileInChunks 11 (OnAndroid androidSample) 1
      {| Utils.chunkSize := Some 4;
         Utils.onProgress := None;
         Utils.onChunk := Some keep |} [] = Some (Resolved tt, chunks) /\
    concat (map fst chunks) = tenBytes /\
    (forall i b o, chunks !! i = Some (b, o) ->
       b <> [] /\
       b = take (length b) (drop (Z.to_nat o) tenBytes) /\
       o = Z.of_nat (length (concat (map fst (take i chunks))))) /\
    (forall i j b1 o1 b2 o2, (i < j)%nat ->
       chunks !! i = Some (b1, o1) -> chunks !! j = Some (b2, o2) ->
       o1 < o1 + Z.of_nat (length b1) <= o2).
Proof.
  apply (C3_chunks_reconstruct_file (OnAndroid androidSample) 1 tenBytes 4 11).
  - exact holds_androidSample.
  - lia.
  - apply validArg_android. lia.
  - cbn. lia.
Defined.

Example readFileInChunks_sample :
  Utils.readFileInChunks 11 (OnIOS iosSample) 1
    {| Utils.chunkSize := Some 4;
       Utils.onProgress := None;
       Utils.onChunk := Some keep |} []
  = Some (Resolved tt,
          [([x30; x31; x32; x33], 0); ([x34; x35; x36; x37], 4); ([x38; x39], 8)]).
Proof. vm_compute. reflexivity. Qed.

(** On an unknown handle the iterator rejects with the native error on
    Android; on iOS [stat] returns [nil] and reading [stats.size] fails. *)
Example readFileInChunks_unknown_handle :
  Utils.readFileInChunks 1 (OnAndroid (Android.init sampleResolver)) 1
    {| Utils.chunkSize := None; Utils.onProgress := None;
       Utils.onChunk := Some keep |} []
  = Some (Rejected (RuntimeException "Invalid handle"), []) /\
  Utils.readFileInChunks 1 (OnIOS (IOS.init sampleFoundation)) 1
    {| Utils.chunkSize := None; Utils.onProgress := None;
       Utils.onChunk := Some keep |} []
  = Some (Rejected TypeError, []).
Proof. split; reflexivity. Qed.

(** iOS: with a chunk size of zero the loop reads nothing and never ends;
    whatever the fuel, it is still running. *)
Example readFileInChunks_zero_chunk_ios (fuel : nat) :
  Utils.readFileInChunks fuel (OnIOS iosSample) 1
    {| Utils.chunkSize := Some 0;
       Utils.onProgress := None;
       Utils.onChunk := Some keep |} [] = None.
Proof.
  unfold Utils.readFileInChunks.
  replace (BigMediaLoader.stat (OnIOS iosSample) 1)
    with (Return (MediaStats.mk 10 None (Some "ten.bin"%string) "file:///ten.bin"))
    by (vm_compute; reflexivity).
  cbn [Utils.chunkSize Utils.onProgress Utils.onChunk default MediaStats.size].
  generalize (@nil (Buffer * Z)).
  induction fuel as [|fuel IH]; intros calls; [reflexivity|].
  cbn [Utils.readLoop].
  replace (BigMediaLoader.readBase64 (OnIOS iosSample) 1 0 0)
    with (Return {| offset := 0; bytesRead := 0; eof := false; base64 := EmptyString |})
    by (vm_compute; reflexivity).
  cbn. apply IH.
Qed.

(** ** The streaming hasher *)

Lemma deliver_update (size : Z) (chunks : list (Buffer * Z)) (hash : Utils.Hash) :
  deliver (Some (fun chunk (_ : Z) hash => (Resolved tt, Utils.update chunk hash)))
    None size chunks hash
  = (Resolved tt, {| Utils.fed := Utils.fed hash ++ concat (map fst chunks) |}).
Proof.
  revert hash. induction chunks as [|[b o] chunks IH]; intros hash.
  - cbn. rewrite app_nil_r. now destruct hash.
  - cbn [deliver Utils.whenGiven]. rewrite IH. cbn. now rewrite <- app_assoc.
Qed.

Lemma hashChunks_digest (sha256 : list byte -> Buffer) (m : NativeModule)
    (handle : Z) (file : list byte) (chunkSize : option Z) (fuel : nat) :
  holds m handle file ->
  1 <= default MiB4 chunkSize -> validArg m (default MiB4 chunkSize) ->
  (length file < fuel)%nat ->
  Utils.hashChunks sha256 fuel m handle chunkSize
  = Some (Resolved (Js.toHex (sha256 file))).
Proof.
  intros Hholds Hsize Hvalid Hfuel. unfold Utils.hashChunks.
  rewrite (readFileInChunks_delivers m handle file chunkSize) by assumption.
  rewrite deliver_update. unfold Utils.digestHex, Utils.createHash.
  cbn [Utils.fed app].
  unfold chunksOf. rewrite slices_concat, drop_0; [reflexivity| |lia].
  pose proof MiB4_value. destruct m; cbn [effectiveLength]; lia.
Qed.

(** C8: [calculateFileHash] resolves to the hexadecimal SHA-256 digest of
    the bytes of the file, and iterating with any chunk size of at least 1
    instead of the default feeds the digest the same bytes in the same order,
    so the digest is the same: chunk boundaries do not show in it. *)
Theorem C8_hash_independent_of_chunk_size (sha256 : list byte -> Buffer)
    (m : NativeModule) (handle : Z) (file : list byte) (fuel : nat) :
  holds m handle file -> (length file < fuel)%nat ->
  Utils.calculateFileHash sha256 fuel m handle
    = Some (Resolved (Js.toHex (sha256 file))) /\
  (forall chunkSize, 1 <= chunkSize -> validArg m chunkSize ->
     Utils.hashChunks sha256 fuel m handle (Some chunkSize)
     = Utils.calculateFileHash sha256 fuel m handle) /\
  Utils.hashChunks sha256 fuel m handle (Some 1)
    = Utils.hashChunks sha256 fuel m handle (Some 17).
Proof.
  intros Hholds Hfuel.
  assert (Hdefault : Utils.calculateFileHash sha256 fuel m handle
                     = Some (Resolved (Js.toHex (sha256 file)))).
  { apply hashChunks_digest; try assumption; cbn [default].
    - rewrite MiB4_value. lia.
    - apply validArg_small. rewrite MiB4_value. lia. }
  assert (Hany : forall chunkSize, 1 <= chunkSize -> validArg m chunkSize ->
                 Utils.hashChunks sha256 fuel m handle (Some chunkSize)
                 = Utils.calculateFileHash sha256 fuel m handle).
  { intros chunkSize Hsize Hvalid. rewrite Hdefault.
    now apply hashChunks_digest. }
  split; [exact Hdefault|]. split; [exact Hany|].
  rewrite (Hany 1), (Hany 17); try lia; try (apply validArg_small; lia).
  reflexivity.
Qed.

(** C8 at the sample iOS module, with chunk sizes 1, 17 and the file size
    plus one, for a digest function that stands in for SHA-256. *)
Lemma C8_hash_independent_of_chunk_size_witness :
  let sha256 := fun message : list byte => rev message in
  Utils.calculateFileHash sha256 11 (OnIOS iosSample) 1
    = Some (Resolved (Js.toHex (sha256 tenBytes))) /\
  Utils.hashChunks sha256 11 (OnIOS iosSample) 1 (Some 1)
    = Utils.calculateFileHash sha256 11 (OnIOS iosSample) 1 /\
  Utils.hashChunks sha256 11 (OnIOS iosSample) 1 (Some 17)
    = Utils.calculateFileHash sha256 11 (OnIOS iosSample) 1 /\
  Utils.hashChunks sha256 11 (OnIOS iosSample) 1 (Some 11)
    = Utils.calculateFileHash sha256 11 (OnIOS iosSample) 1.
Proof.
  intros sha256.
  pose proof (C8_hash_independent_of_chunk_size sha256 (OnIOS iosSample) 1
                tenBytes 11 holds_iosSample ltac:(cbn; lia)) as (H0 & Hall & _).
  split; [exact H0|].
  split; [|split]; apply Hall; try lia; apply validArg_ios; lia.
Defined.

(** ** File-type detection *)

Lemma lowerChar_hexDigit (n : N) : (n < 16)%N -> Js.lowerChar (Js.hexDigit n) = Js.hexDigit n.
Proof.
  intros Hn.
  assert (H : forallb (fun k => Ascii.eqb (Js.lowerChar (Js.hexDigit k)) (Js.hexDigit k))
                (List.map N.of_nat (seq 0 16)) = true) by (vm_compute; reflexivity).
  rewrite forallb_forall in H. apply Ascii.eqb_eq, H.
  apply in_map_iff. exists (N.to_nat n). split; [lia|]. apply in_seq. lia.
Qed.

(** The hexadecimal text of a buffer is lowercase already. *)
Lemma toLowerCase_toHex (b : Buffer) : Js.toLowerCase (Js.toHex b) = Js.toHex b.
Proof.
  induction b as [|x b IH]; [reflexivity|].
  cbn [Js.toHex Js.toLowerCase]. rewrite IH, !lowerChar_hexDigit by byte_arith.
  reflexivity.
Qed.

(** Either platform: the bytes a read of an open handle carries. *)
Lemma readBase64_range (m : NativeModule) (handle size : Z) (file : list byte)
    (off len : Z) :
  openHandle m handle size file -> validArg m off -> validArg m len ->
  exists r,
    BigMediaLoader.readBase64 m handle off len = Return r /\
    Base64.decode (base64 r)
    = take (Z.to_nat (effectiveLength m len)) (drop (Z.to_nat off) file).
Proof.
  intros Hopen Hoff Hlen.
  set (k := Z.min (effectiveLength m len) (Z.of_nat (length file) - off)).
  assert (Hdrop : length (drop (Z.to_nat off) file)
                  = Z.to_nat (Z.of_nat (length file) - off))
    by (destruct Hoff; rewrite length_drop; lia).
  destruct (Z.lt_ge_cases 0 k) as [Hk|Hk].
  - rewrite (readBase64_some m handle size file) by assumption.
    eexists. split; [reflexivity|]. cbn [base64]. rewrite decode_encode.
    fold k. rewrite <- (take_min_length (Z.to_nat (effectiveLength m len))).
    f_equal. rewrite Hdrop. subst k. lia.
  - destruct (readBase64_empty m handle size file off len) as (o & e & ->);
      try assumption.
    eexists. split; [reflexivity|]. cbn [base64].
    symmetry. apply length_zero_iff_nil. rewrite length_take, Hdrop.
    subst k. lia.
Qed.

Lemma readFileHeader_holds (m : NativeModule) (handle : Z) (file : list byte) :
  holds m handle file ->
  Utils.readFileHeader m handle (Some 16) = Return (take 16 file).
Proof.
  intros Hholds. unfold Utils.readFileHeader.
  change (default 1024 (Some 16)) with 16.
  destruct (readBase64_range m handle _ file 0 16 Hholds) as (r & -> & ->);
    try (apply validArg_small; lia).
  rewrite drop_0. do 2 f_equal.
  destruct m; cbn [effectiveLength]; rewrite ?MiB4_value; reflexivity.
Qed.

Lemma startsWith_two (hex : string) (a b : ascii) (p : string) :
  Js.startsWith hex (String a (String b p)) = true ->
  exists rest, hex = String a (String b rest).
Proof.
  destruct hex as [|c [|d rest]]; cbn [Js.startsWith]; try discriminate.
  - rewrite andb_false_r. discriminate.
  - intros H. apply andb_true_iff in H as [Ha H].
    apply andb_true_iff in H as [Hb _].
    apply Ascii.eqb_eq in Ha, Hb. subst. eauto.
Qed.

(** A text that starts with the first two characters of one signature does
    not start with any other: the rows of the table exclude each other. *)
Ltac other_rows_fail Hrow :=
  let sig := fresh "sig" in
  let Hin := fresh "Hin" in
  let Hmatch := fresh "Hmatch" in
  intros sig Hin Hmatch;
  apply startsWith_two in Hrow as [? ->];
  cbn [signatureTable In] in Hin;
  repeat (destruct Hin as [<-|Hin]; [first [reflexivity | discriminate Hmatch]|]);
  destruct Hin.

Ltac row_matches Hrow p mime :=
  right; exists {| prefix := p; contains := None; mimeType := mime |};
  split; [cbn [signatureTable In]; auto 15|];
  split; [unfold matches; cbn [prefix contains]; rewrite Hrow; reflexivity|];
  split; [reflexivity|]; other_rows_fail Hrow.

Lemma classify_table (hex : string) :
  (Utils.classify hex = "application/octet-stream"%string /\
   forall sig, In sig signatureTable -> matches hex sig = false) \/
  (exists sig, In sig signatureTable /\ matches hex sig = true /\
               Utils.classify hex = mimeType sig /\
               forall sig', In sig' signatureTable -> matches hex sig' = true ->
                            sig' = sig).
Proof.
  unfold Utils.classify.
  destruct (Js.startsWith hex "ffd8ff") eqn:H1;
    [row_matches H1 "ffd8ff"%string "image/jpeg"%string|].
  destruct (Js.startsWith hex "89504e47") eqn:H2;
    [row_matches H2 "89504e47"%string "image/png"%string|].
  destruct (Js.startsWith hex "47494638") eqn:H3;
    [row_matches H3 "47494638"%string "image/gif"%string|].
  destruct (Js.startsWith hex "52494646") eqn:H4.
  { destruct (Js.includes hex "41564920") eqn:H4'; cbn [andb].
    - right;
        exists {| prefix := "52494646"; contains := Some "41564920"%string;
                  mimeType := "video/avi" |};
        split; [cbn [signatureTable In]; auto 15|].
      split; [unfold matches; cbn [prefix contains]; rewrite H4, H4'; reflexivity|].
      split; [reflexivity|]. other_rows_fail H4.
    - assert (Hrest : forall sig, In sig signatureTable -> matches hex sig = false).
      { intros sig Hin. cbn [signatureTable In] in Hin.
        unfold matches.
        repeat (destruct Hin as [<-|Hin];
                [cbn [prefix contains];
                 rewrite ?H1, ?H2, ?H3, ?H4, ?H4'; try reflexivity;
                 apply startsWith_two in H4 as [? ->]; reflexivity|]).
        destruct Hin. }
      pose proof H4 as H4''. apply startsWith_two in H4'' as [rest ->].
      left. split; [reflexivity|exact Hrest]. }
  cbn [andb].
  destruct (Js.startsWith hex "000001b3") eqn:H5;
    [row_matches H5 "000001b3"%string "video/mpeg"%string|].
  destruct (Js.startsWith hex "66747970") eqn:H6;
    [row_matches H6 "66747970"%string "video/mp4"%string|].
  destruct (Js.startsWith hex "1a45dfa3") eqn:H7;
    [row_matches H7 "1a45dfa3"%string "video/webm"%string|].
  destruct (Js.startsWith hex "25504446") eqn:H8;
    [row_matches H8 "25504446"%string "application/pdf"%string|].
  destruct (Js.startsWith hex "504b0304") eqn:H9;
    [row_matches H9 "504b0304"%string "application/zip"%string|].
  left. split; [reflexivity|].
  intros sig Hin. cbn [signatureTable In] in Hin. unfold matches.
  repeat (destruct Hin as [<-|Hin];
          [cbn [prefix contains];
           rewrite ?H1, ?H2, ?H3, ?H4, ?H5, ?H6, ?H7, ?H8, ?H9; reflexivity|]).
  destruct Hin.
Qed.

(** C9: [detectFileType] reads the first 16 bytes of the file and decides on
    their hexadecimal text, which is lowercase: when a row of the signature
    table matches (its prefix starts the text and, for the AVI row, its
    second signature occurs in the text), no other row does and the row's
    MIME type is returned; when no row matches,
    [application/octet-stream] is returned. *)
Theorem C9_detectFileType_table (m : NativeModule) (handle : Z) (file : list byte) :
  holds m handle file ->
  let hex := Js.toLowerCase (Js.toHex (take 16 file)) in
  exists mime,
    Utils.detectFileType m handle = Return mime /\
    hex = Js.toHex (take 16 file) /\
    ((mime = "application/octet-stream"%string /\
      forall sig, In sig signatureTable -> matches hex sig = false) \/
     (exists sig, In sig signatureTable /\ matches hex sig = true /\
                  mime = mimeType sig /\
                  forall sig', In sig' signatureTable ->
                               matches hex sig' = true -> sig' = sig)).
Proof.
  intros Hholds hex. exists (Utils.classify hex).
  split; [|split].
  - unfold Utils.detectFileType. now rewrite (readFileHeader_holds m handle file).
  - apply toLowerCase_toHex.
  - apply classify_table.
Qed.

(** C9 at an Android handle open on the JPEG header of the unit tests. *)
Lemma C9_detectFileType_table_witness :
  let hex := Js.toLowerCase (Js.toHex (take 16 jpegHeader)) in
  exists mime,
    Utils.detectFileType (OnAndroid (androidOn jpegHeader)) 1 = Return mime /\
    hex = Js.toHex (take 16 jpegHeader) /\
    ((mime = "application/octet-stream"%string /\
      forall sig, In sig signatureTable -> matches hex sig = false) \/
     (exists sig, In sig signatureTable /\ matches hex sig = true /\
                  mime = mimeType sig /\
                  forall sig', In sig' signatureTable ->
                               matches hex sig' = true -> sig' = sig)).
Proof.
  apply (C9_detectFileType_table (OnAndroid (androidOn jpegHeader)) 1 jpegHeader).
  apply holds_androidOn. cbn. lia.
Defined.

Example detectFileType_jpeg :
  Utils.detectFileType (OnIOS (iosOn jpegHeader)) 1 = Return "image/jpeg"%string.
Proof. vm_compute. reflexivity. Qed.

(** The MP4 header of the unit tests carries [66747970] at byte 4, not at
    the start: the prefix match does not see it. *)
Example detectFileType_mp4_header :
  Utils.detectFileType (OnAndroid (androidOn mp4Header)) 1
  = Return "application/octet-stream"%string.
Proof. vm_compute. reflexivity. Qed.

(** The AVI row matches on the text, not on bytes: its second signature is
    found at an odd position too. *)
Example detectFileType_avi_unaligned :
  Utils.detectFileType
    (OnAndroid (androidOn [x52; x49; x46; x46; x04; x15; x64; x92; x00])) 1
  = Return "video/avi"%string.
Proof. vm_compute. reflexivity. Qed.

(** ** The retrying uploader *)

(** With no attempt to make, the upload function is not invoked: the chunk
    fails with the last error, or with the generic error when there is none. *)
Lemma retryLoop_exhausted {W} `{Timers W} (f : Buffer -> Z -> Async W unit)
    (R D : Z) (b : Buffer) (o attempt : Z) (lastError : option Error) (w : W) :
  Utils.retryLoop f R D b o 0 attempt lastError w
  = (Rejected (default uploadFailed lastError), w).
Proof. reflexivity. Qed.

Section Retry.

Context {S : Type}.
Variable f : Buffer -> Z -> Async S unit.
Variables R D : Z.

(** One chunk: the attempts left are made in turn, each failure but the
    last one is followed by a wait, and the chunk settles as its last
    attempt did. *)
Lemma retryLoop_trace (b : Buffer) (o : Z) (n : nat) (attempt : Z)
    (lastError : option Error) (w : Recorded S) :
  attempt + Z.of_nat (Datatypes.S n) = R ->
  exists errs final w',
    Utils.retryLoop (spy f) R D b o (Datatypes.S n) attempt lastError w = (final, w') /\
    events w' = events w ++ retryTrace D (b, o) (errs, final) /\
    (length errs <= n)%nat /\
    (forall e, final = Rejected e -> length errs = n).
Proof.
  revert attempt lastError w.
  induction n as [|n IH]; intros attempt lastError w Hn;
    cbn [Utils.retryLoop]; unfold spy at 1;
    destruct (f b o (inner w)) as [[[]|e] s'] eqn:Hf.
  - exists [], (Resolved tt). eexists. split; [reflexivity|].
    split; [reflexivity|]. split; [cbn; lia|discriminate].
  - destruct (Z.ltb_spec attempt (R - 1)); [lia|].
    exists [], (Rejected e). eexists. split; [reflexivity|].
    split; [reflexivity|]. split; [cbn; lia|reflexivity].
  - exists [], (Resolved tt). eexists. split; [reflexivity|].
    split; [reflexivity|]. split; [cbn; lia|discriminate].
  - destruct (Z.ltb_spec attempt (R - 1)); [|lia].
    edestruct (IH (attempt + 1) (Some e)) as (errs & final & w' & Hrun & Hev & Hlen & Hall);
      [lia|].
    exists (e :: errs), final, w'. split; [exact Hrun|].
    split; [|split].
    + rewrite Hev. cbn [events setTimeout Recorded_timers].
      unfold setTimeout, Recorded_timers. cbn [events].
      unfold retryTrace. cbn [fst snd flat_map].
      rewrite <- !app_assoc. reflexivity.
    + cbn [length]. lia.
    + intros e' He'. cbn [length]. f_equal. eauto.
Qed.

Hypothesis R_pos : 1 <= R.

Lemma uploadChunk_trace (b : Buffer) (o : Z) (w : Recorded S) :
  exists errs final w',
    Utils.uploadChunk (spy f) R D b o w = (final, w') /\
    events w' = events w ++ retryTrace D (b, o) (errs, final) /\
    Z.of_nat (length errs) + 1 <= R /\
    (forall e, final = Rejected e -> Z.of_nat (length errs) + 1 = R).
Proof.
  unfold Utils.uploadChunk.
  assert (Hn : Z.to_nat R = Datatypes.S (Z.to_nat R - 1)) by lia.
  rewrite Hn.
  destruct (retryLoop_trace b o (Z.to_nat R - 1) 0 None w)
    as (errs & final & w' & Hrun & Hev & Hlen & Hall); [lia|].
  exists errs, final, w'. split; [exact Hrun|]. split; [exact Hev|].
  split; [lia|]. intros e He. rewrite (Hall e He). lia.
Qed.

(** The whole file: chunk after chunk as long as chunks settle well; the
    first chunk whose attempts all fail ends the upload with its last
    error. *)
Lemma deliver_upload (size : Z) (chunks : list (Buffer * Z)) (w : Recorded S) :
  exists out w' runs,
    deliver (Some (Utils.uploadChunk (spy f) R D)) None size chunks w = (out, w') /\
    events w' = events w ++ concat (zip_with (retryTrace D) chunks runs) /\
    (length runs <= length chunks)%nat /\
    Forall (fun run => Z.of_nat (length run.1) + 1 <= R) runs /\
    match out with
    | Resolved _ =>
        length runs = length chunks /\
        Forall (fun run => run.2 = Resolved tt) runs
    | Rejected e =>
        exists runs' errs,
          runs = runs' ++ [(errs, Rejected e)] /\
          Forall (fun run => run.2 = Resolved tt) runs' /\
          Z.of_nat (length errs) + 1 = R
    end.
Proof.
  revert w. induction chunks as [|[b o] chunks IH]; intros w.
  - exists (Resolved tt), w, []. cbn. rewrite app_nil_r. repeat split; auto.
  - cbn [deliver Utils.whenGiven].
    destruct (uploadChunk_trace b o w) as (errs & final & w1 & -> & Hev & Hlen & Hall).
    destruct final as [[]|e].
    + destruct (IH w1) as (out & w' & runs & -> & Hev' & Hlen' & Hbound & Hout).
      exists out, w', ((errs, Resolved tt) :: runs).
      split; [reflexivity|]. split; [|split; [|split]].
      * rewrite Hev', Hev. cbn [zip_with concat]. now rewrite <- app_assoc.
      * cbn [length]. lia.
      * constructor; [exact Hlen|exact Hbound].
      * destruct out as [[]|e].
        -- destruct Hout as [Hl Hok]. split; [cbn [length]; lia|].
           constructor; [reflexivity|exact Hok].
        -- destruct Hout as (runs' & errs' & -> & Hok & HR).
           exists ((errs, Resolved tt) :: runs'), errs'.
           split; [reflexivity|]. split; [|exact HR].
           constructor; [reflexivity|exact Hok].
    + exists (Rejected e), w1, [(errs, Rejected e)].
      split; [reflexivity|]. split; [|split; [|split]].
      * rewrite Hev. cbn [zip_with concat]. destruct chunks; cbn; now rewrite app_nil_r.
      * cbn [length]. lia.
      * constructor; [exact Hlen|constructor].
      * exists [], errs. split; [reflexivity|]. split; [constructor|].
        now apply (Hall e).
Qed.

End Retry.

(** *** Counting invocations *)

Lemma invocationsAt_app (o : Z) (l1 l2 : list Event) :
  invocationsAt o (l1 ++ l2) = (invocationsAt o l1 + invocationsAt o l2)%nat.
Proof. unfold invocationsAt. now rewrite List.filter_app, length_app. Qed.

Lemma invocationsAt_retryTrace (o D : Z) (chunk : Buffer * Z)
    (run : list Error * Outcome unit) :
  invocationsAt o (retryTrace D chunk run)
  = if chunk.2 =? o then Datatypes.S (length run.1) else 0%nat.
Proof.
  destruct chunk as [b o'], run as [errs final]. unfold retryTrace. cbn [fst snd].
  rewrite invocationsAt_app.
  assert (Herrs : invocationsAt o
                    (flat_map (fun e => [Invoked b o' (Rejected e); Waited D]) errs)
                  = if o' =? o then length errs else 0%nat).
  { induction errs as [|e errs IH]; [now destruct (o' =? o)|].
    cbn [flat_map]. rewrite invocationsAt_app, IH.
    unfold invocationsAt. cbn. destruct (o' =? o); reflexivity. }
  rewrite Herrs. unfold invocationsAt. cbn.
  destruct (o' =? o); cbn; lia.
Qed.

Lemma invocationsAt_absent (o D : Z) (chunks : list (Buffer * Z))
    (runs : list (list Error * Outcome unit)) :
  ~ In o (map snd chunks) ->
  invocationsAt o (concat (zip_with (retryTrace D) chunks runs)) = 0%nat.
Proof.
  revert runs. induction chunks as [|c chunks IH]; intros runs Hout; [reflexivity|].
  destruct runs as [|run runs]; [reflexivity|].
  cbn [zip_with concat]. rewrite invocationsAt_app, invocationsAt_retryTrace.
  rewrite IH by (intros Hin; apply Hout; now right).
  destruct (Z.eqb_spec c.2 o) as [Heq|_]; [|reflexivity].
  exfalso. apply Hout. now left.
Qed.

(** When no two chunks share an offset, an offset is invoked as often as the
    run of its chunk says. *)
Lemma invocationsAt_bound (o D R : Z) (chunks : list (Buffer * Z))
    (runs : list (list Error * Outcome unit)) :
  0 <= R -> List.NoDup (map snd chunks) ->
  Forall (fun run => Z.of_nat (length run.1) + 1 <= R) runs ->
  Z.of_nat (invocationsAt o (concat (zip_with (retryTrace D) chunks runs))) <= R.
Proof.
  intros HR. revert runs.
  induction chunks as [|c chunks IH]; intros runs Hnodup Hruns; [cbn; lia|].
  destruct runs as [|run runs]; [cbn; lia|].
  apply List.NoDup_cons_iff in Hnodup as [Hfresh Hnodup].
  apply Forall_cons in Hruns as [Hrun Hruns].
  cbn [zip_with concat]. rewrite invocationsAt_app, invocationsAt_retryTrace.
  destruct (Z.eqb_spec c.2 o) as [Heq|_].
  - rewrite invocationsAt_absent by (rewrite <- Heq; exact Hfresh). lia.
  - now apply IH.
Qed.

Lemma chunksOf_first (step : Z) (file : list byte) :
  file <> [] ->
  exists rest, chunksOf step file = (take (Z.to_nat step) file, 0) :: rest.
Proof.
  intros Hfile. unfold chunksOf. destruct file as [|x file]; [congruence|].
  cbn [length slices Nat.ltb Nat.leb]. rewrite drop_0. eauto.
Qed.

Lemma chunksOf_offsets (step : Z) (file : list byte) :
  1 <= step -> List.NoDup (map snd (chunksOf step file)).
Proof.
  intros Hstep. apply NoDup_ListNoDup, NoDup_alt.
  assert (Hall : forall i b o, chunksOf step file !! i = Some (b, o) ->
            b <> [] /\
            o = 0 + Z.of_nat (length (concat (map fst (take i (chunksOf step file)))))).
  { intros i b o Hi. unfold chunksOf in *.
    destruct (slices_lookup (Z.to_nat step) ltac:(lia) _ _ _ _ _ _ Hi) as (? & _ & ?).
    split; [assumption|lia]. }
  intros i j o Hi Hj.
  apply list_lookup_fmap_Some in Hi as ([b1 o1] & -> & Hi).
  apply list_lookup_fmap_Some in Hj as ([b2 o2] & Ho & Hj). cbn [snd] in Ho.
  destruct (Nat.lt_trichotomy i j) as [Hlt|[Heq|Hgt]]; [|exact Heq|].
  - pose proof (offsets_increase _ 0 Hall _ _ _ _ _ _ Hlt Hi Hj). lia.
  - pose proof (offsets_increase _ 0 Hall _ _ _ _ _ _ Hgt Hj Hi). lia.
Qed.

(** *** The two scenarios *)

(** Once [failsOnce] has been invoked, every chunk goes through at its
    first attempt. *)
Lemma uploadChunk_failsOnce_warm (R D : Z) (b : Buffer) (o : Z) (w : Recorded nat) :
  1 <= R -> (1 <= inner w)%nat ->
  Utils.uploadChunk (spy failsOnce) R D b o w
  = (Resolved tt, {| events := events w ++ [Invoked b o (Resolved tt)];
                     inner := Datatypes.S (inner w) |}).
Proof.
  intros HR Hwarm. unfold Utils.uploadChunk.
  assert (Hn : Z.to_nat R = Datatypes.S (Z.to_nat R - 1)) by lia.
  rewrite Hn. cbn [Utils.retryLoop]. unfold spy, failsOnce.
  destruct (Nat.eqb_spec (inner w) 0) as [?|_]; [lia|reflexivity].
Qed.

Lemma deliver_failsOnce_warm (R D size : Z) (chunks : list (Buffer * Z))
    (w : Recorded nat) :
  1 <= R -> (1 <= inner w)%nat ->
  exists w',
    deliver (Some (Utils.uploadChunk (spy failsOnce) R D)) None size chunks w
    = (Resolved tt, w') /\
    events w' = events w ++ map (fun c => Invoked c.1 c.2 (Resolved tt)) chunks /\
    (1 <= inner w')%nat.
Proof.
  intros HR. revert w. induction chunks as [|[b o] chunks IH]; intros w Hwarm.
  - exists w. cbn. now rewrite app_nil_r.
  - cbn [deliver Utils.whenGiven].
    rewrite uploadChunk_failsOnce_warm by assumption.
    match goal with
    | |- context [deliver _ _ _ chunks ?w1] => destruct (IH w1) as (w' & -> & Hev & Hin)
    end; [cbn; lia|].
    exists w'. split; [reflexivity|]. split; [|exact Hin].
    rewrite Hev. cbn [events map fst snd]. now rewrite <- app_assoc.
Qed.

(** Scenario 4: two attempts allowed, an upload function whose first
    invocation fails. *)
Lemma deliver_failsOnce (D size : Z) (b : Buffer) (o : Z)
    (rest : list (Buffer * Z)) :
  exists w',
    deliver (Some (Utils.uploadChunk (spy failsOnce) 2 D)) None size
      ((b, o) :: rest) {| events := []; inner := 0%nat |}
    = (Resolved tt, w') /\
    events w' = [Invoked b o (Rejected (JsError "Upload failed")); Waited D;
                 Invoked b o (Resolved tt)]
                ++ map (fun c => Invoked c.1 c.2 (Resolved tt)) rest.
Proof.
  cbn [deliver Utils.whenGiven].
  assert (Hfirst : Utils.uploadChunk (spy failsOnce) 2 D b o
                     {| events := []; inner := 0%nat |}
                   = (Resolved tt,
                      {| events := [Invoked b o (Rejected (JsError "Upload failed"));
                                    Waited D; Invoked b o (Resolved tt)];
                         inner := 2%nat |})) by reflexivity.
  rewrite Hfirst.
  match goal with
  | |- context [deliver _ _ _ rest ?w1] =>
      destruct (deliver_failsOnce_warm 2 D size rest w1) as (w' & -> & Hev & _)
  end; [lia|cbn; lia|].
  exists w'. split; [reflexivity|exact Hev].
Qed.

(** Scenario 5: one attempt allowed, an upload function that always fails. *)
Lemma deliver_alwaysFails (e : Error) (D size : Z) (b : Buffer) (o : Z)
    (rest : list (Buffer * Z)) :
  deliver (Some (Utils.uploadChunk (spy (alwaysFails e)) 1 D)) None size
    ((b, o) :: rest) {| events := []; inner := tt |}
  = (Rejected e, {| events := [Invoked b o (Rejected e)]; inner := tt |}).
Proof. reflexivity. Qed.

Lemma observedUpload_delivers {S : Type} (fuel : nat) (m : NativeModule)
    (handle chunkSize R D : Z) (file : list byte)
    (f : Buffer -> Z -> Async S unit) (s : S) :
  holds m handle file -> 1 <= chunkSize -> validArg m chunkSize ->
  (length file < fuel)%nat ->
  observedUpload fuel m handle chunkSize R D f s
  = Some (deliver (Some (Utils.uploadChunk (spy f) R D)) None
            (Z.of_nat (length file))
            (chunksOf (effectiveLength m chunkSize) file)
            {| events := []; inner := s |}).
Proof.
  intros Hholds Hsize Hvalid Hfuel.
  unfold observedUpload, Utils.uploadFileInChunks.
  cbn [Utils.retryAttempts Utils.retryDelay Utils.readOptions Utils.uploadFunction
       Utils.chunkSize Utils.onProgress].
  change (default 3 (Some R)) with R. change (default 1000 (Some D)) with D.
  now apply (readFileInChunks_delivers m handle file (Some chunkSize)).
Qed.

Lemma invocationsAt_others (o : Z) (r : Outcome unit) (chunks : list (Buffer * Z)) :
  ~ In o (map snd chunks) ->
  invocationsAt o (map (fun c => Invoked c.1 c.2 r) chunks) = 0%nat.
Proof.
  induction chunks as [|c chunks IH]; intros Hout; [reflexivity|].
  change (map ?g (c :: chunks)) with ([g c] ++ map g chunks).
  rewrite invocationsAt_app, IH by (intros Hin; apply Hout; now right).
  unfold invocationsAt. cbn.
  destruct (Z.eqb_spec c.2 o) as [Heq|_]; [|reflexivity].
  exfalso. apply Hout. now left.
Qed.

(** C6: with at least one attempt allowed, an upload over an open handle
    settles, and what it did is a run per chunk, in chunk order, over a
    prefix of the chunks: a run invokes the upload function on its chunk at
    most [retryAttempts] times (so no offset is invoked more often), waits
    [retryDelay] after each failed attempt that another attempt follows, and
    ends with the first attempt that succeeds or with the last allowed one.
    The upload resolves when every chunk's run ended well; it rejects with
    the error of the last attempt of the first chunk whose [retryAttempts]
    attempts all failed, and that attempt is the last thing it did.  With
    two attempts allowed and an upload function that fails once, the first
    chunk is invoked exactly twice and the upload resolves; with one attempt
    allowed and an upload function that always fails, the upload rejects
    with that error after exactly one invocation. *)
Theorem C6_upload_retries {S : Type} (m : NativeModule) (handle : Z)
    (file : list byte) (chunkSize retryAttempts retryDelay : Z) (fuel : nat)
    (uploadFunction : Buffer -> Z -> Async S unit) (s : S) :
  holds m handle file -> 1 <= chunkSize -> validArg m chunkSize ->
  1 <= retryAttempts -> (length file < fuel)%nat ->
  let chunks := chunksOf (effectiveLength m chunkSize) file in
  (exists out w' runs,
     observedUpload fuel m handle chunkSize retryAttempts retryDelay
       uploadFunction s = Some (out, w') /\
     events w' = concat (zip_with (retryTrace retryDelay) chunks runs) /\
     (length runs <= length chunks)%nat /\
     Forall (fun run => Z.of_nat (length run.1) + 1 <= retryAttempts) runs /\
     (forall o, Z.of_nat (invocationsAt o (events w')) <= retryAttempts) /\
     match out with
     | Resolved _ =>
         length runs = length chunks /\
         Forall (fun run => run.2 = Resolved tt) runs
     | Rejected e =>
         exists runs' errs,
           runs = runs' ++ [(errs, Rejected e)] /\
           Forall (fun run => run.2 = Resolved tt) runs' /\
           Z.of_nat (length errs) + 1 = retryAttempts
     end) /\
  (file <> [] ->
   exists w' b rest,
     chunks = (b, 0) :: rest /\
     observedUpload fuel m handle chunkSize 2 retryDelay failsOnce 0%nat
       = Some (Resolved tt, w') /\
     events w' = [Invoked b 0 (Rejected (JsError "Upload failed"));
                  Waited retryDelay; Invoked b 0 (Resolved tt)]
                 ++ map (fun c => Invoked c.1 c.2 (Resolved tt)) rest /\
     invocationsAt 0 (events w') = 2%nat) /\
  (file <> [] -> forall e,
   exists b rest,
     chunks = (b, 0) :: rest /\
     observedUpload fuel m handle chunkSize 1 retryDelay (alwaysFails e) tt
     = Some (Rejected e, {| events := [Invoked b 0 (Rejected e)]; inner := tt |})).
Proof.
  intros Hholds Hsize Hvalid Hattempts Hfuel chunks. subst chunks.
  assert (Hstep : 1 <= effectiveLength m chunkSize).
  { pose proof MiB4_value. destruct m; cbn [effectiveLength]; lia. }
  pose proof (chunksOf_offsets (effectiveLength m chunkSize) file Hstep) as Hnodup.
  split; [|split].
  - rewrite (observedUpload_delivers fuel m handle chunkSize _ _ file) by assumption.
    destruct (deliver_upload uploadFunction retryAttempts retryDelay Hattempts
                (Z.of_nat (length file))
                (chunksOf (effectiveLength m chunkSize) file)
                {| events := []; inner := s |})
      as (out & w' & runs & -> & Hev & Hlen & Hbound & Hout).
    cbn [events app] in Hev.
    exists out, w', runs. split; [reflexivity|]. split; [exact Hev|].
    split; [exact Hlen|]. split; [exact Hbound|]. split; [|exact Hout].
    intros o. rewrite Hev. apply invocationsAt_bound; [lia|assumption..].
  - intros Hfile.
    destruct (chunksOf_first (effectiveLength m chunkSize) file Hfile) as (rest & Hchunks).
    rewrite (observedUpload_delivers fuel m handle chunkSize _ _ file) by assumption.
    rewrite Hchunks in *.
    destruct (deliver_failsOnce retryDelay (Z.of_nat (length file))
                (take (Z.to_nat (effectiveLength m chunkSize)) file) 0 rest)
      as (w' & Hrun & Hev).
    exists w'. do 2 eexists. split; [reflexivity|].
    split; [f_equal; exact Hrun|].
    split; [exact Hev|].
    rewrite Hev, invocationsAt_app, invocationsAt_others.
    + reflexivity.
    + cbn [map snd] in Hnodup.
      now apply List.NoDup_cons_iff in Hnodup as [Hfresh _].
  - intros Hfile e.
    destruct (chunksOf_first (effectiveLength m chunkSize) file Hfile) as (rest & Hchunks).
    rewrite (observedUpload_delivers fuel m handle chunkSize _ _ file) by assumption.
    rewrite Hchunks.
    do 2 eexists. split; [reflexivity|].
    now rewrite deliver_alwaysFails.
Qed.

(** C6 at the sample Android module, in chunks of four bytes: scenario 5. *)
Lemma C6_upload_retries_witness :
  exists b rest,
    chunksOf (effectiveLength (OnAndroid androidSample) 4) tenBytes = (b, 0) :: rest /\
    observedUpload 11 (OnAndroid androidSample) 1 4 1 1000
      (alwaysFails (JsError "Upload failed")) tt
    = Some (Rejected (JsError "Upload failed"),
            {| events := [Invoked b 0 (Rejected (JsError "Upload failed"))];
               inner := tt |}).
Proof.
  refine (proj2 (proj2 (C6_upload_retries (OnAndroid androidSample) 1 tenBytes
                          4 1 1000 11 (alwaysFails (JsError "Upload failed")) tt
                          holds_androidSample _ _ _ _)) _ _).
  - lia.
  - apply validArg_android. lia.
  - lia.
  - cbn. lia.
  - discriminate.
Defined.

Example upload_scenario_4 :
  observedUpload 11 (OnIOS iosSample) 1 10 2 10 failsOnce 0%nat
  = Some (Resolved tt,
          {| events := [Invoked tenBytes 0 (Rejected (JsError "Upload failed"));
                        Waited 10; Invoked tenBytes 0 (Resolved tt)];
             inner := 2%nat |}).
Proof. vm_compute. reflexivity. Qed.

(** C10: with [retryAttempts = 0], an upload over an open handle on a
    non-empty file, for a chunk size that is not negative, rejects with the
    generic error and leaves the caller's state as it was: the first chunk is
    read, the retry loop runs no turn, and neither the upload function nor a
    timer nor the progress callback runs.  In particular the record of
    invocations stays empty. *)
Theorem C10_zero_attempts {W : Type} `{Timers W} (m : NativeModule) (handle : Z)
    (file : list byte) (options : Utils.UploadOptions) (fuel : nat) (w : W) :
  holds m handle file -> file <> [] ->
  Utils.retryAttempts options = Some 0 ->
  validArg m (default MiB4 (Utils.chunkSize (Utils.readOptions options))) ->
  (1 <= fuel)%nat ->
  Utils.uploadFileInChunks fuel m handle options w
    = Some (Rejected (JsError "Upload failed after all retry attempts"), w) /\
  (forall (S : Type) (f : Buffer -> Z -> Async S unit) (s : S) (retryDelay : Z),
     observedUpload fuel m handle
       (default MiB4 (Utils.chunkSize (Utils.readOptions options))) 0 retryDelay f s
     = Some (Rejected (JsError "Upload failed after all retry attempts"),
             {| events := []; inner := s |})).
Proof.
  intros Hholds Hfile Hzero Hvalid Hfuel.
  assert (Hany : forall (W' : Type) (T : Timers W') (opts : Utils.UploadOptions) (w' : W'),
             Utils.retryAttempts opts = Some 0 ->
             validArg m (default MiB4 (Utils.chunkSize (Utils.readOptions opts))) ->
             Utils.uploadFileInChunks fuel m handle opts w'
             = Some (Rejected (JsError "Upload failed after all retry attempts"), w')).
  { intros W' T opts w' Hopts Hchunk.
    unfold Utils.uploadFileInChunks, Utils.readFileInChunks.
    cbn [Utils.chunkSize Utils.onProgress Utils.onChunk].
    rewrite Hopts.
    destruct (stat_holds m handle file Hholds) as (stats & -> & ->).
    destruct fuel as [|fuel']; [lia|]. cbn [Utils.readLoop].
    destruct (Z.ltb_spec 0 (Z.of_nat (length file))) as [_|Hempty];
      [|destruct file; [congruence|cbn in Hempty; lia]].
    destruct (readBase64_returns m handle _ file 0
                (default MiB4 (Utils.chunkSize (Utils.readOptions opts))) Hholds)
      as (r & ->); [apply validArg_small; lia|exact Hchunk|].
    reflexivity. }
  split; [now apply Hany|].
  intros S f s retryDelay. unfold observedUpload. apply Hany; [reflexivity|exact Hvalid].
Qed.

(** C10 at the sample iOS module, default chunk size. *)
Lemma C10_zero_attempts_witness :
  observedUpload 1 (OnIOS iosSample) 1 MiB4 0 1000 failsOnce 0%nat
  = Some (Rejected (JsError "Upload failed after all retry attempts"),
          {| events := []; inner := 0%nat |}).
Proof.
  refine (proj2 (C10_zero_attempts (W := unit) (H := fun _ w => w)
                   (OnIOS iosSample) 1 tenBytes
                   {| Utils.uploadFunction := fun _ _ w => (Resolved tt, w);
                      Utils.retryAttempts := Some 0;
                      Utils.retryDelay := None;
                      Utils.readOptions :=
                        {| Utils.chunkSize := None;
                           Utils.onProgress := None;
                           Utils.onChunk := None |} |}
                   1 tt holds_iosSample _ _ _ _) nat failsOnce 0%nat 1000).
  - discriminate.
  - reflexivity.
  - apply validArg_ios. cbn. rewrite MiB4_value. lia.
  - lia.
Defined.

(** * Further properties: the registry over its life *)

Lemma open_unresolved (m : NativeModule) (uri : string) :
  resolveFile m uri = None ->
  exists e, BigMediaLoader.open m uri = (Throw e, m).
Proof.
  destruct m as [a|i]; cbn; intros Hnone.
  - unfold Android.open. rewrite Hnone. eauto.
  - unfold IOS.open. rewrite Hnone. eauto.
Qed.

(** What a successful [open] leaves: the counter moved on, the environment
    and the releases as they were, one entry more. *)
Lemma open_returns (m : NativeModule) (uri : string) (file : list byte) :
  resolveFile m uri = Some file ->
  exists m',
    BigMediaLoader.open m uri = (Return (nextHandle m), m') /\
    nextHandle m' = toInt (nextHandle m + 1) /\
    releasedHandles m' = releasedHandles m /\
    (forall u, resolveFile m' u = resolveFile m u) /\
    (forall k off len, k <> nextHandle m -> answers m' k off len = answers m k off len) /\
    (forall k, liveHandle m' k <-> k = nextHandle m \/ liveHandle m k) /\
    (forall k f, k <> nextHandle m -> holds m' k f <-> holds m k f) /\
    (forall k, k <> nextHandle m -> unknownHandle m' k <-> unknownHandle m k) /\
    BigMediaLoader.playableUri m' (nextHandle m) = Return uri /\
    (exists stats, BigMediaLoader.stat m' (nextHandle m) = Return stats /\
                   MediaStats.size stats = Z.of_nat (length file) /\
                   MediaStats.uri stats = uri) /\
    (Z.of_nat (length file) < 2 ^ 63 -> holds m' (nextHandle m) file).
Proof.
  intros Hfile. destruct m as [a|i]; cbn in Hfile |- *.
  - unfold Android.open. rewrite Hfile. eexists. split; [reflexivity|].
    cbn [snd Android.nextId Android.released Android.contentResolver Android.handles].
    split; [reflexivity|]. split; [reflexivity|]. split; [reflexivity|].
    split; [|split; [|split; [|split; [|split; [|split]]]]].
    + intros k off len Hk. unfold answers. cbn.
      unfold Android.stat, Android.playableUri, Android.readBase64. cbn.
      now rewrite !lookup_insert_ne by congruence.
    + intros k. unfold liveHandle; cbn. rewrite lookup_insert. case_decide; subst.
      * split; [auto|]. intros _. eauto.
      * split; [auto|]. intros [?|?]; [congruence|assumption].
    + intros k f Hk. unfold holds, openHandle. cbn.
      now rewrite lookup_insert_ne by congruence.
    + intros k Hk. unfold unknownHandle; cbn. now rewrite lookup_insert_ne by congruence.
    + unfold Android.playableUri. cbn. now rewrite lookup_insert_eq.
    + unfold Android.stat. cbn. rewrite lookup_insert_eq. eauto.
    + intros Hfit. eexists. split; [apply lookup_insert_eq|]. cbn. auto.
  - unfold IOS.open. rewrite Hfile. eexists. split; [reflexivity|].
    cbn [snd IOS._nextId IOS.released IOS.foundation IOS._handles].
    split; [reflexivity|]. split; [reflexivity|]. split; [reflexivity|].
    split; [|split; [|split; [|split; [|split; [|split]]]]].
    + intros k off len Hk. unfold answers. cbn.
      unfold IOS.stat, IOS.playableUri, IOS.readBase64. cbn.
      now rewrite !lookup_insert_ne by congruence.
    + intros k. unfold liveHandle; cbn. rewrite lookup_insert. case_decide; subst.
      * split; [auto|]. intros _. eauto.
      * split; [auto|]. intros [?|?]; [congruence|assumption].
    + intros k f Hk. unfold holds, openHandle. cbn.
      now rewrite lookup_insert_ne by congruence.
    + intros k Hk. unfold unknownHandle; cbn. now rewrite lookup_insert_ne by congruence.
    + unfold IOS.playableUri. cbn. now rewrite lookup_insert_eq.
    + unfold IOS.stat. cbn. rewrite lookup_insert_eq. eauto.
    + intros Hfit. eexists. split; [apply lookup_insert_eq|]. cbn.
      repeat split; lia.
Qed.

(** What [close] leaves: the counter and the environment as they were, one
    entry less at most, and the id released when it was an entry. *)
Lemma close_leaves (m : NativeModule) (handle : Z) :
  let m' := (BigMediaLoader.close m handle).2 in
  nextHandle m' = nextHandle m /\
  (forall u, resolveFile m' u = resolveFile m u) /\
  (forall k off len, k <> handle -> answers m' k off len = answers m k off len) /\
  (forall k, liveHandle m' k <-> k <> handle /\ liveHandle m k) /\
  (forall k f, k <> handle -> holds m' k f <-> holds m k f) /\
  (forall k, unknownHandle m' k <-> k = handle \/ unknownHandle m k) /\
  (~ liveHandle m handle -> releasedHandles m' = releasedHandles m) /\
  (liveHandle m handle ->
   match m with
   | OnAndroid a => forall it, Android.handles a !! handle = Some it -> Android.id it = handle
   | OnIOS _ => True
   end ->
   releasedHandles m' = handle :: releasedHandles m).
Proof.
  destruct m as [a|i]; cbn.
  - unfold Android.close.
    destruct (Android.handles a !! handle) as [it|] eqn:Hit; cbn.
    + split; [reflexivity|]. split; [reflexivity|].
      split; [|split; [|split; [|split; [|split]]]].
      * intros k off len Hk. unfold answers. cbn.
        unfold Android.stat, Android.playableUri, Android.readBase64. cbn.
        now rewrite !lookup_delete_ne by congruence.
      * intros k. unfold liveHandle; cbn. rewrite lookup_delete.
        case_decide; subst.
        -- split; [intros [? ?]; discriminate|intros [? _]; congruence].
        -- split; [auto|now intros [_ ?]].
      * intros k f Hk. unfold holds, openHandle. cbn.
        now rewrite lookup_delete_ne by congruence.
      * intros k. unfold unknownHandle; cbn. rewrite lookup_delete.
        case_decide; subst; [tauto|]. split; [auto|]. intros [?|?]; [congruence|assumption].
      * unfold liveHandle; cbn. intros Hnot. exfalso. apply Hnot. eauto.
      * intros _ Hid. now rewrite (Hid it eq_refl).
    + split; [reflexivity|]. split; [reflexivity|].
      split; [|split; [|split; [|split; [|split]]]].
      * reflexivity.
      * intros k. unfold liveHandle; cbn. split; [|now intros [_ ?]].
        intros Hk. split; [|assumption]. intros ->. rewrite Hit in Hk.
        now destruct Hk.
      * reflexivity.
      * intros k. unfold unknownHandle; cbn. split; [auto|].
        intros [->|?]; assumption.
      * reflexivity.
      * unfold liveHandle; cbn. intros [? ?]. discriminate.
  - unfold IOS.close.
    destruct (IOS._handles i !! handle) as [it|] eqn:Hit; cbn.
    + split; [reflexivity|]. split; [reflexivity|].
      split; [|split; [|split; [|split; [|split]]]].
      * intros k off len Hk. unfold answers. cbn.
        unfold IOS.stat, IOS.playableUri, IOS.readBase64. cbn.
        now rewrite !lookup_delete_ne by congruence.
      * intros k. unfold liveHandle; cbn. rewrite lookup_delete.
        case_decide; subst.
        -- split; [intros [? ?]; discriminate|intros [? _]; congruence].
        -- split; [auto|now intros [_ ?]].
      * intros k f Hk. unfold holds, openHandle. cbn.
        now rewrite lookup_delete_ne by congruence.
      * intros k. unfold unknownHandle; cbn. rewrite lookup_delete.
        case_decide; subst; [tauto|]. split; [auto|]. intros [?|?]; [congruence|assumption].
      * unfold liveHandle; cbn. intros Hnot. exfalso. apply Hnot. eauto.
      * reflexivity.
    + split; [reflexivity|]. split; [reflexivity|].
      split; [|split; [|split; [|split; [|split]]]].
      * reflexivity.
      * intros k. unfold liveHandle; cbn. split; [|now intros [_ ?]].
        intros Hk. split; [|assumption]. intros ->. rewrite Hit in Hk.
        now destruct Hk.
      * reflexivity.
      * intros k. unfold unknownHandle; cbn. split; [auto|].
        intros [->|?]; assumption.
      * reflexivity.
      * unfold liveHandle; cbn. intros [? ?]. discriminate.
Qed.

Lemma live_or_unknown (m : NativeModule) (k : Z) :
  liveHandle m k \/ unknownHandle m k.
Proof.
  destruct m as [a|i]; cbn.
  - destruct (Android.handles a !! k); [left; eauto|now right].
  - destruct (IOS._handles i !! k); [left; eauto|now right].
Qed.

Lemma live_not_unknown (m : NativeModule) (k : Z) :
  liveHandle m k -> unknownHandle m k -> False.
Proof.
  destruct m as [a|i]; cbn; intros [h Hh] Hnone; congruence.
Qed.

Lemma registryOk_init_android (cr : Android.ContentResolver) :
  registryOk (OnAndroid (Android.init cr)).
Proof.
  unfold registryOk. cbn. split; [lia|]. split.
  - intros k [h Hh]. rewrite lookup_empty in Hh. discriminate.
  - split; [intros k h Hh; rewrite lookup_empty in Hh; discriminate|].
    split; [constructor|]. intros r [].
Qed.

Lemma registryOk_init_ios (f : IOS.Foundation) :
  registryOk (OnIOS (IOS.init f)).
Proof.
  unfold registryOk. cbn. split; [lia|]. split.
  - intros k [h Hh]. rewrite lookup_empty in Hh. discriminate.
  - split; [exact I|]. split; [constructor|]. intros r [].
Qed.


Lemma idsAgree_open (m : NativeModule) (uri : string) :
  idsAgree m -> idsAgree (BigMediaLoader.open m uri).2.
Proof.
  destruct m as [a|i]; cbn; [|destruct (IOS.open i uri); auto].
  intros Hid. unfold Android.open.
  destruct (Android.openFileDescriptor _ _); cbn; [|exact Hid].
  intros k h. rewrite lookup_insert. case_decide; subst.
  - now intros [= <-].
  - apply Hid.
Qed.

Lemma idsAgree_close (m : NativeModule) (handle : Z) :
  idsAgree m -> idsAgree (BigMediaLoader.close m handle).2.
Proof.
  destruct m as [a|i]; cbn; [|destruct (IOS.close i handle); auto].
  intros Hid. unfold Android.close.
  destruct (Android.handles a !! handle); cbn; [|exact Hid].
  intros k h Hk. apply lookup_delete_Some in Hk as [_ Hk]. now apply Hid.
Qed.

Lemma registryOk_ids (m : NativeModule) : registryOk m -> idsAgree m.
Proof. intros (_ & _ & Hid & _). exact Hid. Qed.

Lemma registryOk_open (m : NativeModule) (uri : string) :
  registryOk m -> filesFit m -> nextHandle m + 1 < 2 ^ 31 ->
  registryOk (BigMediaLoader.open m uri).2 /\
  nextHandle m <= nextHandle (BigMediaLoader.open m uri).2 <= nextHandle m + 1.
Proof.
  intros Hok Hfit Hroom.
  pose proof (idsAgree_open m uri (registryOk_ids m Hok)) as Hid'.
  destruct Hok as (Hnext & Hlive & Hid & Hnodup & Hrel).
  destruct (resolveFile m uri) as [file|] eqn:Hfile.
  2: { destruct (open_unresolved m uri Hfile) as (e & ->). cbn.
       split; [exact (conj Hnext (conj Hlive (conj Hid (conj Hnodup Hrel))))|lia]. }
  destruct (open_returns m uri file Hfile)
    as (m' & Hopen & Hn' & Hr' & _ & _ & Hl' & Hh' & Hu' & _ & _ & Hnew).
  rewrite Hopen in *. cbn [snd] in *. rewrite toInt_id in Hn' by lia.
  split; [|lia]. unfold registryOk. rewrite Hn', Hr'.
  split; [lia|]. split; [|split; [|split]].
  - intros k Hk. apply Hl' in Hk as [->|Hk].
    + split; [lia|]. exists file. apply Hnew. eapply Hfit; eauto.
    + destruct (Hlive k Hk) as (Hb & f & Hf). split; [lia|].
      exists f. apply Hh'; [lia|assumption].
  - exact Hid'.
  - exact Hnodup.
  - intros r Hr. destruct (Hrel r Hr) as [Hb Hu]. split; [lia|].
    apply Hu'; [lia|assumption].
Qed.

Lemma registryOk_close (m : NativeModule) (handle : Z) :
  registryOk m ->
  registryOk (BigMediaLoader.close m handle).2 /\
  nextHandle (BigMediaLoader.close m handle).2 = nextHandle m.
Proof.
  intros Hok.
  pose proof (idsAgree_close m handle (registryOk_ids m Hok)) as Hid'.
  destruct Hok as (Hnext & Hlive & Hid & Hnodup & Hrel).
  destruct (close_leaves m handle) as (Hn' & _ & _ & Hl' & Hh' & Hu' & Hsame & Hpush).
  split; [|exact Hn'].
  unfold registryOk. rewrite Hn'.
  split; [exact Hnext|]. split; [|split; [exact Hid'|]].
  - intros k Hk. apply Hl' in Hk as [Hne Hk].
    destruct (Hlive k Hk) as (Hb & f & Hf). split; [exact Hb|].
    exists f. now apply Hh'.
  - destruct (live_or_unknown m handle) as [Hlh|Hun].
    + rewrite (Hpush Hlh); [|destruct m; [intros it; apply Hid|exact I]].
      split.
      * constructor; [|exact Hnodup]. intros Hin.
        destruct (Hrel handle Hin) as [_ Hu]. eapply live_not_unknown; eauto.
      * intros r [<-|Hr].
        -- split; [apply (Hlive handle Hlh)|]. apply Hu'. now left.
        -- destruct (Hrel r Hr) as [Hb Hu]. split; [exact Hb|]. apply Hu'. now right.
    + rewrite Hsame by (intros Hl; eapply live_not_unknown; eauto).
      split; [exact Hnodup|].
      intros r Hr. destruct (Hrel r Hr) as [Hb Hu]. split; [exact Hb|].
      apply Hu'. now right.
Qed.

Lemma filesFit_call (m : NativeModule) (c : Call) :
  filesFit m -> filesFit (call m c).
Proof.
  intros Hfit uri file Hfile. apply (Hfit uri).
  destruct c as [u|h]; cbn [call] in Hfile.
  - destruct (resolveFile m u) as [f|] eqn:Hu.
    + destruct (open_returns m u f Hu) as (m' & Hopen & _ & _ & Hres & _).
      rewrite Hopen in Hfile. cbn [snd] in Hfile. now rewrite Hres in Hfile.
    + destruct (open_unresolved m u Hu) as (e & Hopen).
      now rewrite Hopen in Hfile.
  - destruct (close_leaves m h) as (_ & Hres & _). now rewrite Hres in Hfile.
Qed.

(** X4: from a registry in order, any sequence of [open] and [close] calls
    that does not exhaust the 32-bit counter leaves the registry in order:
    every entry has a positive id below the counter and is as [open] made it
    (its size is the length of its file), no id was released twice, and no
    released id is an entry. *)
Theorem X4_registry_stays_in_order (m : NativeModule) (cs : list Call) :
  registryOk m -> filesFit m ->
  nextHandle m + Z.of_nat (length cs) < 2 ^ 31 ->
  registryOk (calls m cs) /\
  nextHandle m <= nextHandle (calls m cs) <= nextHandle m + Z.of_nat (length cs).
Proof.
  revert m. induction cs as [|c cs IH]; intros m Hok Hfit Hroom.
  - cbn. split; [exact Hok|lia].
  - cbn [calls fold_left length] in *.
    assert (Hstep : registryOk (call m c) /\
                    nextHandle m <= nextHandle (call m c) <= nextHandle m + 1).
    { destruct c as [uri|h]; cbn [call].
      - apply registryOk_open; [assumption..|lia].
      - destruct (registryOk_close m h Hok) as [Hok' Hn]. split; [exact Hok'|lia]. }
    destruct Hstep as [Hok' Hn].
    destruct (IH (call m c) Hok' (filesFit_call m c Hfit)) as [Hfinal Hbound]; [lia|].
    split; [exact Hfinal|]. unfold calls in Hbound. lia.
Qed.

Lemma filesFit_sample_android : filesFit (OnAndroid (Android.init sampleResolver)).
Proof.
  intros uri file. cbn. destruct (String.eqb uri _); [|discriminate].
  intros [= <-]. cbn. lia.
Qed.

Lemma filesFit_sample_ios : filesFit (OnIOS (IOS.init sampleFoundation)).
Proof.
  intros uri file. cbn. destruct (String.eqb uri _); [|discriminate].
  intros [= <-]. cbn. lia.
Qed.

(** X4 at the sample Android module: open, open, close 1, a failing open,
    close 1 again. *)
Lemma X4_registry_stays_in_order_witness :
  let cs := [CallOpen "content://media/ten"; CallOpen "content://media/ten";
             CallClose 1; CallOpen "content://nowhere"; CallClose 1] in
  registryOk (calls (OnAndroid (Android.init sampleResolver)) cs) /\
  1 <= nextHandle (calls (OnAndroid (Android.init sampleResolver)) cs) <= 1 + 5.
Proof.
  intros cs.
  apply (X4_registry_stays_in_order (OnAndroid (Android.init sampleResolver)) cs).
  - apply registryOk_init_android.
  - exact filesFit_sample_android.
  - cbn. lia.
Defined.

Example registry_sample_run :
  let m := calls (OnAndroid (Android.init sampleResolver))
             [CallOpen "content://media/ten"; CallOpen "content://media/ten";
              CallClose 1; CallOpen "content://nowhere"; CallClose 1] in
  nextHandle m = 3 /\ releasedHandles m = [1] /\
  unknownHandle m 1 /\ holds m 2 tenBytes.
Proof.
  cbn zeta. split; [reflexivity|]. split; [reflexivity|].
  split; [reflexivity|].
  eexists. split; [vm_compute; reflexivity|]. cbn. repeat split; lia.
Qed.

Lemma registryOk_androidSample : registryOk (OnAndroid androidSample).
Proof.
  apply (registryOk_open (OnAndroid (Android.init sampleResolver))
           "content://media/ten").
  - apply registryOk_init_android.
  - exact filesFit_sample_android.
  - cbn. lia.
Qed.

Lemma registryOk_iosSample : registryOk (OnIOS iosSample).
Proof.
  apply (registryOk_open (OnIOS (IOS.init sampleFoundation)) "file:///ten.bin").
  - apply registryOk_init_ios.
  - exact filesFit_sample_ios.
  - cbn. lia.
Qed.

(** X1: [open] of a uri that resolves to a file returns the counter as the
    handle, and the module it leaves answers for that handle with what was
    opened: [playableUri] is the uri, [stat] has the uri and the length of
    the file as its size, and a read of the whole file from offset 0 decodes
    to the bytes of the file (to its first 4 MiB on Android). *)
Theorem X1_open_then_stat_and_read (m : NativeModule) (uri : string)
    (file : list byte) :
  resolveFile m uri = Some file -> Z.of_nat (length file) < 2 ^ 63 ->
  exists m',
    BigMediaLoader.open m uri = (Return (nextHandle m), m') /\
    BigMediaLoader.playableUri m' (nextHandle m) = Return uri /\
    (exists stats,
        BigMediaLoader.stat m' (nextHandle m) = Return stats /\
        MediaStats.size stats = Z.of_nat (length file) /\
        MediaStats.uri stats = uri) /\
    (exists r,
        BigMediaLoader.readBase64 m' (nextHandle m) 0 (Z.of_nat (length file))
        = Return r /\
        Base64.decode (base64 r)
        = take (Z.to_nat (effectiveLength m' (Z.of_nat (length file)))) file).
Proof.
  intros Hfile Hfit.
  destruct (open_returns m uri file Hfile)
    as (m' & Hopen & _ & _ & _ & _ & _ & _ & _ & Huri & Hstat & Hnew).
  exists m'. split; [exact Hopen|]. split; [exact Huri|]. split; [exact Hstat|].
  destruct (readBase64_range m' (nextHandle m) _ file 0 (Z.of_nat (length file))
              (Hnew Hfit)) as (r & Hr & Hdec);
    try (apply validArg_small; lia).
  exists r. split; [exact Hr|]. now rewrite Hdec, drop_0.
Qed.

(** X1 at a fresh iOS module: the ten-byte file. *)
Lemma X1_open_then_stat_and_read_witness :
  exists m',
    BigMediaLoader.open (OnIOS (IOS.init sampleFoundation)) "file:///ten.bin"
    = (Return 1, m') /\
    BigMediaLoader.playableUri m' 1 = Return "file:///ten.bin"%string /\
    (exists stats,
        BigMediaLoader.stat m' 1 = Return stats /\
        MediaStats.size stats = 10 /\
        MediaStats.uri stats = "file:///ten.bin"%string) /\
    (exists r,
        BigMediaLoader.readBase64 m' 1 0 10 = Return r /\
        Base64.decode (base64 r)
        = take (Z.to_nat (effectiveLength m' 10)) tenBytes).
Proof.
  apply (X1_open_then_stat_and_read (OnIOS (IOS.init sampleFoundation))
           "file:///ten.bin" tenBytes).
  - reflexivity.
  - cbn. lia.
Defined.

(** X2: in a registry in order, the handle a successful [open] returns is
    new: it is no entry of the registry and was never released; and every
    handle that was open before answers [stat], [playableUri] and
    [readBase64] as it did. *)
Theorem X2_open_returns_fresh_handle (m : NativeModule) (uri : string)
    (file : list byte) :
  registryOk m -> resolveFile m uri = Some file ->
  exists m',
    BigMediaLoader.open m uri = (Return (nextHandle m), m') /\
    unknownHandle m (nextHandle m) /\
    ~ In (nextHandle m) (releasedHandles m) /\
    (forall k off len, liveHandle m k ->
       answers m' k off len = answers m k off len).
Proof.
  intros (Hnext & Hlive & Hid & Hnodup & Hrel) Hfile.
  destruct (open_returns m uri file Hfile) as (m' & Hopen & _ & _ & _ & Hans & _).
  exists m'. split; [exact Hopen|]. split; [|split].
  - destruct (live_or_unknown m (nextHandle m)) as [Hl|Hu]; [|exact Hu].
    destruct (Hlive _ Hl) as [Hb _]. lia.
  - intros Hin. destruct (Hrel _ Hin) as [Hb _]. lia.
  - intros k off len Hk. apply Hans. destruct (Hlive _ Hk) as [Hb _]. lia.
Qed.

(** X2 at the sample Android module, where handle 1 is open. *)
Lemma X2_open_returns_fresh_handle_witness :
  exists m',
    BigMediaLoader.open (OnAndroid androidSample) "content://media/ten"
    = (Return 2, m') /\
    unknownHandle (OnAndroid androidSample) 2 /\
    ~ In 2 (releasedHandles (OnAndroid androidSample)) /\
    (forall k off len, liveHandle (OnAndroid androidSample) k ->
       answers m' k off len = answers (OnAndroid androidSample) k off len).
Proof.
  apply (X2_open_returns_fresh_handle (OnAndroid androidSample)
           "content://media/ten" tenBytes).
  - exact registryOk_androidSample.
  - reflexivity.
Defined.

(** X3: [close] touches one entry only.  After [close(handle)] the handle
    is no entry of the registry, the counter is as it was, and every other
    handle is an entry exactly if it was one, with the same answers of
    [stat], [playableUri] and [readBase64]. *)
Theorem X3_close_leaves_other_handles (m : NativeModule) (handle k : Z)
    (off len : Z) :
  k <> handle ->
  let m' := (BigMediaLoader.close m handle).2 in
  unknownHandle m' handle /\
  nextHandle m' = nextHandle m /\
  (liveHandle m' k <-> liveHandle m k) /\
  answers m' k off len = answers m k off len.
Proof.
  intros Hne m'.
  destruct (close_leaves m handle) as (Hn & _ & Hans & Hl & _ & Hu & _).
  fold m' in Hn, Hans, Hl, Hu.
  split; [apply Hu; now left|]. split; [exact Hn|]. split.
  - rewrite Hl. tauto.
  - now apply Hans.
Qed.

(** X3 at a module with handles 1 and 2 open: closing 1 leaves 2. *)
Lemma X3_close_leaves_other_handles_witness :
  let m := calls (OnIOS (IOS.init sampleFoundation))
             [CallOpen "file:///ten.bin"; CallOpen "file:///ten.bin"] in
  let m' := (BigMediaLoader.close m 1).2 in
  unknownHandle m' 1 /\
  nextHandle m' = nextHandle m /\
  (liveHandle m' 2 <-> liveHandle m 2) /\
  answers m' 2 4 4 = answers m 2 4 4.
Proof.
  intros m.
  apply (X3_close_leaves_other_handles m 1 2 4 4). lia.
Defined.

Lemma answers_unknown (m m' : NativeModule) (k off len : Z) :
  match m, m' with
  | OnAndroid _, OnAndroid _ | OnIOS _, OnIOS _ => True
  | _, _ => False
  end ->
  unknownHandle m k -> unknownHandle m' k ->
  answers m' k off len = answers m k off len.
Proof.
  intros Hplat Hu Hu'.
  destruct m as [a|i], m' as [a'|i']; try contradiction;
    unfold unknownHandle in Hu, Hu'; unfold answers;
    cbn [BigMediaLoader.stat BigMediaLoader.playableUri BigMediaLoader.readBase64
         NativeModule_spec].
  - destruct (Android_unknown_handle_throws a k off len Hu) as (-> & -> & ->).
    destruct (Android_unknown_handle_throws a' k off len Hu') as (-> & -> & ->).
    reflexivity.
  - destruct (IOS_unknown_handle_nil i k off len Hu) as (-> & -> & ->).
    destruct (IOS_unknown_handle_nil i' k off len Hu') as (-> & -> & ->).
    reflexivity.
Qed.

Lemma platform_call (m : NativeModule) (c : Call) :
  match m, call m c with
  | OnAndroid _, OnAndroid _ | OnIOS _, OnIOS _ => True
  | _, _ => False
  end.
Proof.
  destruct m as [a|i], c as [u|h]; cbn.
  - destruct (Android.open a u); exact I.
  - destruct (Android.close a h); exact I.
  - destruct (IOS.open i u); exact I.
  - destruct (IOS.close i h); exact I.
Qed.

(** X5: in a registry in order, opening a file and closing the handle that
    [open] returned leaves every handle, the returned one included, with the
    answers it had before: nothing of the opened file stays in the registry.
    Only the counter has moved on, and the id is recorded as released. *)
Theorem X5_open_then_close_restores (m : NativeModule) (uri : string)
    (file : list byte) :
  registryOk m -> resolveFile m uri = Some file ->
  let m2 := calls m [CallOpen uri; CallClose (nextHandle m)] in
  (forall k off len, answers m2 k off len = answers m k off len) /\
  (forall k, liveHandle m2 k <-> liveHandle m k) /\
  nextHandle m2 = toInt (nextHandle m + 1) /\
  releasedHandles m2 = nextHandle m :: releasedHandles m.
Proof.
  intros Hok Hfile m2.
  assert (Hplat : match m, m2 with
                  | OnAndroid _, OnAndroid _ | OnIOS _, OnIOS _ => True
                  | _, _ => False
                  end).
  { subst m2. cbn [calls fold_left].
    pose proof (platform_call m (CallOpen uri)) as H1.
    pose proof (platform_call (call m (CallOpen uri))
                  (CallClose (nextHandle m))) as H2.
    destruct m, (call _ (CallOpen uri)), (call _ (CallClose _));
      try contradiction; exact I. }
  assert (Hfresh : exists m0, BigMediaLoader.open m uri = (Return (nextHandle m), m0)
                              /\ unknownHandle m (nextHandle m)).
  { destruct Hok as (_ & Hlive & _).
    destruct (open_returns m uri file Hfile) as (m0 & Hopen & _).
    exists m0. split; [exact Hopen|].
    destruct (live_or_unknown m (nextHandle m)) as [Hl|Hu]; [|exact Hu].
    destruct (Hlive _ Hl) as [Hb _]. lia. }
  destruct Hfresh as (m' & Hopen & Hu).
  pose proof (idsAgree_open m uri (registryOk_ids m Hok)) as Hid'.
  destruct (open_returns m uri file Hfile)
    as (m'' & Hopen' & Hn' & Hr' & _ & Hans & Hl' & _ & Hu' & _).
  rewrite Hopen in Hopen'. injection Hopen' as <-.
  assert (Hm2 : m2 = (BigMediaLoader.close m' (nextHandle m)).2)
    by (subst m2; cbn [calls fold_left call]; now rewrite Hopen).
  rewrite Hopen in Hid'. cbn [snd] in Hid'.
  destruct (close_leaves m' (nextHandle m))
    as (Hn2 & _ & Hans2 & Hl2 & _ & Hu2 & _ & Hpush).
  clearbody m2. subst m2.
  assert (Hlive' : liveHandle m' (nextHandle m)) by (apply Hl'; now left).
  split; [|split; [|split]].
  - intros k off len. destruct (Z.eq_dec k (nextHandle m)) as [->|Hne].
    + apply answers_unknown; [exact Hplat|exact Hu|apply Hu2; now left].
    + rewrite Hans2, Hans by assumption. reflexivity.
  - intros k. rewrite Hl2, Hl'. split.
    + intros [Hne [->|Hk]]; [contradiction|exact Hk].
    + intros Hk. split; [|now right]. intros ->.
      eapply live_not_unknown; eauto.
  - now rewrite Hn2.
  - rewrite <- Hr'. apply Hpush; [exact Hlive'|].
    destruct m' as [a'|i']; [|exact I]. intros it. apply Hid'.
Qed.

(** X5 at the sample iOS module: open a second handle and close it. *)
Lemma X5_open_then_close_restores_witness :
  let m := OnIOS iosSample in
  let m2 := calls m [CallOpen "file:///ten.bin"; CallClose (nextHandle m)] in
  (forall k off len, answers m2 k off len = answers m k off len) /\
  (forall k, liveHandle m2 k <-> liveHandle m k) /\
  nextHandle m2 = toInt (nextHandle m + 1) /\
  releasedHandles m2 = nextHandle m :: releasedHandles m.
Proof.
  intros m.
  apply (X5_open_then_close_restores m "file:///ten.bin" tenBytes).
  - exact registryOk_iosSample.
  - reflexivity.
Defined.

(** ** Further properties: the arguments of [readBase64] *)

(** X6: Android, on an open handle: a length in the negative range of [Int]
    makes [ByteBuffer.allocate] throw, and a negative offset with a
    non-negative length makes [channel.position] throw: the call fails with
    an [IllegalArgumentException] and returns no result. *)
Theorem X6_android_rejects_negative_arguments (a : Android.BigMediaLoaderModule)
    (handle off len : Z) :
  liveHandle (OnAndroid a) handle ->
  - 2 ^ 31 <= len < 0 \/ (0 <= len /\ off < 0) ->
  Android.readBase64 a handle off len = Throw IllegalArgumentException.
Proof.
  intros [h Hh] Hargs. cbn in Hh. unfold Android.readBase64. rewrite Hh.
  pose proof MiB4_value as HM.
  destruct Hargs as [Hlen|[Hlen Hoff]].
  - rewrite (toLong_id len) by lia.
    replace (Z.min len MiB4) with len by lia.
    rewrite toInt_id by lia.
    destruct (Z.ltb_spec len 0); [reflexivity|lia].
  - rewrite (toLong_nonneg len) by lia.
    rewrite toInt_id by lia.
    match goal with |- context [?c <? 0] => destruct (Z.ltb_spec c 0) end; [lia|].
    assert (Hneg : toLong off < 0) by (unfold toLong; lia).
    destruct (Z.ltb_spec (toLong off) 0); [reflexivity|lia].
Qed.

(** X6 at the sample Android module: a length of -1, and an offset of -1. *)
Lemma X6_android_rejects_negative_arguments_witness :
  Android.readBase64 androidSample 1 0 (-1) = Throw IllegalArgumentException /\
  Android.readBase64 androidSample 1 (-1) 4 = Throw IllegalArgumentException.
Proof.
  split.
  - apply (X6_android_rejects_negative_arguments androidSample 1 0 (-1)).
    + eexists. reflexivity.
    + left. lia.
  - apply (X6_android_rejects_negative_arguments androidSample 1 (-1) 4).
    + eexists. reflexivity.
    + right. lia.
Defined.

(** X7: Android: the cap is applied to the [Long] and the buffer is
    allocated from its low 32 bits, so a negative length [c - 2^32] with
    [0 < c < 2^31] passes the cap unchanged and reads up to [c] bytes,
    however large [c] is. *)
Theorem X7_android_negative_length_escapes_cap (a : Android.BigMediaLoaderModule)
    (handle : Z) (file : list byte) (off c : Z) :
  holds (OnAndroid a) handle file ->
  0 <= off < Z.of_nat (length file) -> 0 < c < 2 ^ 31 ->
  let k := Z.min c (Z.of_nat (length file) - off) in
  Android.readBase64 a handle off (c - 2 ^ 32) =
    Return {| offset := off; bytesRead := k;
              eof := Z.of_nat (length file) <=? off + k;
              base64 := Base64.encode (take (Z.to_nat k) (drop (Z.to_nat off) file)) |}.
Proof.
  intros (h & Hh & Hsize & Hfile & Hbound) Hoff Hc k.
  unfold Android.readBase64. rewrite Hh, Hsize, Hfile.
  pose proof MiB4_value as HM.
  rewrite (toLong_id (c - 2 ^ 32)) by lia.
  replace (Z.min (c - 2 ^ 32) MiB4) with (c - 2 ^ 32) by lia.
  assert (Hcap : toInt (c - 2 ^ 32) = c).
  { unfold toInt. replace (c - 2 ^ 32 + 2 ^ 31) with (c + 2 ^ 31 + (-1) * 2 ^ 32) by lia.
    rewrite Z.mod_add by lia. rewrite Z.mod_small; lia. }
  rewrite Hcap, (toLong_id off) by lia.
  destruct (Z.ltb_spec c 0); [lia|]. destruct (Z.ltb_spec off 0); [lia|].
  unfold Android.positionAndRead.
  destruct (Z.eqb_spec c 0); [lia|].
  destruct (Z.leb_spec (Z.of_nat (length file)) off); [lia|].
  rewrite length_range by lia.
  replace (Z.max 0 (Z.min c (Z.of_nat (length file) - off))) with k by (subst k; lia).
  destruct (Z.leb_spec k 0); [subst k; lia|].
  rewrite wrapLong_id by (subst k; lia).
  rewrite take_take.
  replace (Z.to_nat k `min` Z.to_nat c)%nat with (Z.to_nat k) by (subst k; lia).
  reflexivity.
Qed.

(** X7 at an Android handle on a file of 8 MiB: a length of
    [8 MiB - 2^32] reads 8 MiB in one call, twice the cap. *)
Lemma X7_android_negative_length_escapes_cap_witness :
  exists r,
    Android.readBase64 (androidOn (zeros 8388608)) 1 0 (8388608 - 2 ^ 32) = Return r /\
    bytesRead r = 8388608 /\ MiB4 < bytesRead r.
Proof.
  pose proof (X7_android_negative_length_escapes_cap (androidOn (zeros 8388608)) 1
                (zeros 8388608) 0 8388608) as H.
  rewrite length_zeros in H by lia.
  eexists. split.
  - apply H.
    + apply holds_androidOn. rewrite length_zeros; lia.
    + lia.
    + lia.
  - cbn [bytesRead]. rewrite MiB4_value. split; lia.
Defined.

(** X8: for a read that starts inside the file and asks for at least one
    byte and at most the cap, the two platforms return the same result:
    the same offset, count, end-of-file flag and payload. *)
Theorem X8_platforms_agree_below_cap (a : Android.BigMediaLoaderModule)
    (i : IOS.BigMediaLoader) (ha hi : Z) (file : list byte) (off len : Z) :
  holds (OnAndroid a) ha file -> holds (OnIOS i) hi file ->
  0 <= off < Z.of_nat (length file) -> 0 < len <= MiB4 ->
  Android.readBase64 a ha off len = IOS.readBase64 i hi off len.
Proof.
  intros Ha Hi Hoff Hlen.
  assert (Hfit : Z.of_nat (length file) < 2 ^ 63)
    by (destruct Ha as (h & _ & _ & _ & Hb); exact Hb).
  pose proof MiB4_value as HM.
  pose proof (readBase64_some (OnAndroid a) ha _ file off len Ha) as HA.
  pose proof (readBase64_some (OnIOS i) hi _ file off len Hi) as HI.
  cbn [BigMediaLoader.readBase64 NativeModule_spec effectiveLength] in HA, HI.
  rewrite HA, HI;
    try (apply validArg_android; lia); try (apply validArg_ios; lia); try lia.
  replace (Z.min len MiB4) with len by lia. reflexivity.
Qed.

(** X8 at the sample modules: four bytes from offset 8 of the ten-byte
    file, of which two are there. *)
Lemma X8_platforms_agree_below_cap_witness :
  Android.readBase64 androidSample 1 8 4 = IOS.readBase64 iosSample 1 8 4.
Proof.
  apply (X8_platforms_agree_below_cap androidSample iosSample 1 1 tenBytes 8 4).
  - exact holds_androidSample.
  - exact holds_iosSample.
  - cbn. lia.
  - rewrite MiB4_value. lia.
Defined.

(** X9: reads compose.  The bytes of a read of [a] bytes at [off] followed
    by the bytes of a read of [b] bytes at [off + a] are the bytes of one
    read of [a + b] bytes at [off], when [a + b] is within the cap. *)
Theorem X9_adjacent_reads_compose (m : NativeModule) (handle : Z)
    (file : list byte) (off a b : Z) :
  holds m handle file -> 0 <= off -> 0 <= a -> 0 <= b ->
  a + b <= MiB4 -> off + a < 2 ^ 63 ->
  exists r1 r2 r,
    BigMediaLoader.readBase64 m handle off a = Return r1 /\
    BigMediaLoader.readBase64 m handle (off + a) b = Return r2 /\
    BigMediaLoader.readBase64 m handle off (a + b) = Return r /\
    Base64.decode (base64 r1) ++ Base64.decode (base64 r2)
    = Base64.decode (base64 r).
Proof.
  intros Hholds Hoff Ha Hb Hcap Hfit.
  pose proof MiB4_value as HM.
  destruct (readBase64_range m handle _ file off a Hholds) as (r1 & Hr1 & Hd1);
    try (apply validArg_small; lia).
  destruct (readBase64_range m handle _ file (off + a) b Hholds) as (r2 & Hr2 & Hd2);
    try (apply validArg_small; lia).
  destruct (readBase64_range m handle _ file off (a + b) Hholds) as (r & Hr & Hd);
    try (apply validArg_small; lia).
  exists r1, r2, r. split; [exact Hr1|]. split; [exact Hr2|]. split; [exact Hr|].
  rewrite Hd1, Hd2, Hd.
  assert (He : forall x, 0 <= x <= MiB4 -> effectiveLength m x = x)
    by (intros x Hx; destruct m; cbn [effectiveLength]; lia).
  rewrite !He by lia.
  replace (Z.to_nat (off + a)) with (Z.to_nat off + Z.to_nat a)%nat by lia.
  replace (Z.to_nat (a + b)) with (Z.to_nat a + Z.to_nat b)%nat by lia.
  rewrite <- drop_drop. apply take_take_drop.
Qed.

(** X9 at the sample iOS module: 3 bytes at 2, then 4 bytes at 5. *)
Lemma X9_adjacent_reads_compose_witness :
  exists r1 r2 r,
    BigMediaLoader.readBase64 (OnIOS iosSample) 1 2 3 = Return r1 /\
    BigMediaLoader.readBase64 (OnIOS iosSample) 1 (2 + 3) 4 = Return r2 /\
    BigMediaLoader.readBase64 (OnIOS iosSample) 1 2 (3 + 4) = Return r /\
    Base64.decode (base64 r1) ++ Base64.decode (base64 r2)
    = Base64.decode (base64 r).
Proof.
  apply (X9_adjacent_reads_compose (OnIOS iosSample) 1 tenBytes 2 3 4).
  - exact holds_iosSample.
  - lia.
  - lia.
  - lia.
  - rewrite MiB4_value. lia.
  - lia.
Defined.

(** ** Further properties: the geometry of the chunks *)

Lemma slices_at (fuel step : nat) (file : list byte) (off i : nat)
    (b : Buffer) (o : Z) :
  slices fuel step file off !! i = Some (b, o) ->
  o = Z.of_nat (off + i * step) /\
  b = take step (drop (off + i * step) file) /\
  (off + i * step < length file)%nat.
Proof.
  revert off i. induction fuel as [|fuel IH]; intros off i Hi; [discriminate|].
  cbn [slices] in Hi.
  destruct (Nat.ltb_spec off (length file)) as [Hin|Hout]; [|discriminate].
  destruct i as [|i].
  - injection Hi as <- <-. rewrite Nat.add_0_r. auto.
  - cbn [lookup list_lookup] in Hi. apply IH in Hi as (-> & -> & Hlt).
    replace (off + step + i * step)%nat with (off + S i * step)%nat in * by lia.
    auto.
Qed.

Lemma length_slices (fuel step : nat) (file : list byte) (off : nat) :
  (1 <= step)%nat -> (length file - off <= fuel)%nat ->
  length (slices fuel step file off) = ((length file - off + step - 1) / step)%nat.
Proof.
  intros Hstep. revert off. induction fuel as [|fuel IH]; intros off Hfuel.
  - cbn. symmetry. apply Nat.div_small. lia.
  - cbn [slices]. destruct (Nat.ltb_spec off (length file)) as [Hin|Hout].
    + cbn [length]. rewrite IH by lia.
      destruct (Nat.le_gt_cases step (length file - off)) as [Hbig|Hsmall].
      * replace (length file - off + step - 1)%nat
          with ((length file - (off + step) + step - 1) + 1 * step)%nat by lia.
        rewrite Nat.div_add by lia. lia.
      * replace (length file - (off + step) + step - 1)%nat with (step - 1)%nat by lia.
        rewrite Nat.div_small by lia.
        replace (length file - off + step - 1)%nat
          with ((length file - off - 1) + 1 * step)%nat by lia.
        rewrite Nat.div_add by lia. rewrite Nat.div_small by lia. reflexivity.
    + cbn. symmetry. apply Nat.div_small. lia.
Qed.

(** The chunks of a file in steps of [step]: their number, and where each
    one starts and ends. *)
Lemma chunksOf_geometry (step : Z) (file : list byte) :
  1 <= step ->
  Z.of_nat (length (chunksOf step file))
  = (Z.of_nat (length file) + step - 1) / step /\
  forall i b o, chunksOf step file !! i = Some (b, o) ->
    o = Z.of_nat i * step /\ o < Z.of_nat (length file) /\
    b = take (Z.to_nat step) (drop (Z.to_nat o) file) /\
    Z.of_nat (length b) = Z.min step (Z.of_nat (length file) - o).
Proof.
  intros Hstep. unfold chunksOf. split.
  - rewrite length_slices by lia. rewrite Nat.sub_0_r.
    rewrite Nat2Z.inj_div. f_equal; lia.
  - intros i b o Hi. apply slices_at in Hi as (Ho & Hb & Hlt).
    cbn [Nat.add] in Ho, Hb, Hlt.
    assert (Ho' : o = Z.of_nat i * step) by lia.
    split; [exact Ho'|]. split; [lia|].
    replace (Z.to_nat o) with (i * Z.to_nat step)%nat by lia.
    split; [exact Hb|]. rewrite Hb, length_take, length_drop. lia.
Qed.

(** X10: the chunks of [readFileInChunks].  With [step] the chunk size (the
    cap on Android when the chunk size exceeds it), a file of [size] bytes
    is delivered in [ceil(size / step)] chunks; chunk [i] starts at offset
    [i * step] and carries [step] bytes, the last one what is left. *)
Theorem X10_chunk_count_and_sizes (m : NativeModule) (handle : Z)
    (file : list byte) (chunkSize : Z) (fuel : nat) :
  holds m handle file -> 1 <= chunkSize -> validArg m chunkSize ->
  (length file < fuel)%nat ->
  let step := effectiveLength m chunkSize in
  let size := Z.of_nat (length file) in
  exists chunks : list (Buffer * Z),
    Utils.readFileInChunks fuel m handle
      {| Utils.chunkSize := Some chunkSize;
         Utils.onProgress := None;
         Utils.onChunk := Some keep |} [] = Some (Resolved tt, chunks) /\
    Z.of_nat (length chunks) = (size + step - 1) / step /\
    (forall i b o, chunks !! i = Some (b, o) ->
       o = Z.of_nat i * step /\
       b = take (Z.to_nat step) (drop (Z.to_nat o) file) /\
       Z.of_nat (length b) = Z.min step (size - o)).
Proof.
  intros Hholds Hsize Hvalid Hfuel step size.
  assert (Hstep : 1 <= step).
  { subst step. pose proof MiB4_value. destruct m; cbn [effectiveLength]; lia. }
  destruct (chunksOf_geometry step file Hstep) as [Hcount Hall].
  exists (chunksOf step file). split; [|split].
  - rewrite (readFileInChunks_delivers m handle file (Some chunkSize)) by assumption.
    now rewrite deliver_keep.
  - exact Hcount.
  - intros i b o Hi. destruct (Hall i b o Hi) as (? & _ & ? & ?). auto.
Qed.

(** X10 at the sample iOS module: the ten-byte file in chunks of four. *)
Lemma X10_chunk_count_and_sizes_witness :
  exists chunks : list (Buffer * Z),
    Utils.readFileInChunks 11 (OnIOS iosSample) 1
      {| Utils.chunkSize := Some 4;
         Utils.onProgress := None;
         Utils.onChunk := Some keep |} [] = Some (Resolved tt, chunks) /\
    Z.of_nat (length chunks) = (Z.of_nat (length tenBytes) + 4 - 1) / 4 /\
    (forall i b o, chunks !! i = Some (b, o) ->
       o = Z.of_nat i * 4 /\
       b = take (Z.to_nat 4) (drop (Z.to_nat o) tenBytes) /\
       Z.of_nat (length b) = Z.min 4 (Z.of_nat (length tenBytes) - o)).
Proof.
  apply (X10_chunk_count_and_sizes (OnIOS iosSample) 1 tenBytes 4 11).
  - exact holds_iosSample.
  - lia.
  - apply validArg_ios. lia.
  - cbn. lia.
Defined.

Lemma deliver_note (size : Z) (chunks : list (Buffer * Z)) (reports : list (Z * Z)) :
  deliver None (Some note) size chunks reports
  = (Resolved tt,
     reports ++ map (fun c => (c.2 + Z.of_nat (length c.1), size)) chunks).
Proof.
  revert reports. induction chunks as [|[b o] chunks IH]; intros reports.
  - now rewrite app_nil_r.
  - cbn [deliver Utils.whenGiven]. unfold note at 1. rewrite IH.
    now rewrite <- app_assoc.
Qed.

(** X11: the progress reports of [readFileInChunks].  [onProgress] is
    called once per chunk; report [i] is [(min(size, (i + 1) * step), size)],
    so the reported offsets grow strictly and, for a file that is not empty,
    the last report is [(size, size)]. *)
Theorem X11_progress_reports (m : NativeModule) (handle : Z)
    (file : list byte) (chunkSize : Z) (fuel : nat) :
  holds m handle file -> 1 <= chunkSize -> validArg m chunkSize ->
  (length file < fuel)%nat ->
  let step := effectiveLength m chunkSize in
  let size := Z.of_nat (length file) in
  exists reports : list (Z * Z),
    Utils.readFileInChunks fuel m handle
      {| Utils.chunkSize := Some chunkSize;
         Utils.onProgress := Some note;
         Utils.onChunk := None |} [] = Some (Resolved tt, reports) /\
    Z.of_nat (length reports) = (size + step - 1) / step /\
    (forall i p t, reports !! i = Some (p, t) ->
       p = Z.min size ((Z.of_nat i + 1) * step) /\ t = size) /\
    (forall i j p1 t1 p2 t2, (i < j)%nat ->
       reports !! i = Some (p1, t1) -> reports !! j = Some (p2, t2) -> p1 < p2) /\
    (file <> [] -> last reports = Some (size, size)).
Proof.
  intros Hholds Hsize Hvalid Hfuel step size.
  assert (Hstep : 1 <= step).
  { subst step. pose proof MiB4_value. destruct m; cbn [effectiveLength]; lia. }
  destruct (chunksOf_geometry step file Hstep) as [Hcount Hall].
  set (reports := map (fun c : Buffer * Z => (c.2 + Z.of_nat (length c.1), size))
                    (chunksOf step file)).
  assert (Hrep : forall i p t, reports !! i = Some (p, t) ->
            p = Z.min size ((Z.of_nat i + 1) * step) /\ t = size /\
            Z.of_nat i * step < size).
  { intros i p t Hi. subst reports.
    apply list_lookup_fmap_Some in Hi as ([b o] & Heq & Hi).
    cbn [fst snd] in Heq. injection Heq as -> ->.
    destruct (Hall i b o Hi) as (Ho & Hlt & _ & Hlen). fold size in Hlen, Hlt.
    split; [lia|]. split; [reflexivity|lia]. }
  exists reports. split; [|split; [|split; [|split]]].
  - rewrite (readFileInChunks_delivers m handle file (Some chunkSize)) by assumption.
    now rewrite deliver_note.
  - subst reports. now rewrite length_map.
  - intros i p t Hi. destruct (Hrep i p t Hi) as (? & ? & _). auto.
  - intros i j p1 t1 p2 t2 Hij Hi Hj.
    destruct (Hrep _ _ _ Hi) as (-> & _ & _).
    destruct (Hrep _ _ _ Hj) as (-> & _ & Hj').
    assert ((Z.of_nat i + 1) * step <= Z.of_nat j * step) by nia.
    nia.
  - intros Hfile.
    assert (Hlen : Z.of_nat (length reports) = (size + step - 1) / step)
      by (subst reports; now rewrite length_map).
    assert (Hsz : 1 <= size) by (subst size; destruct file; [congruence|cbn; lia]).
    assert (Hn : 1 <= (size + step - 1) / step)
      by (apply Z.div_le_lower_bound; lia).
    rewrite last_lookup.
    destruct (reports !! Init.Nat.pred (length reports)) as [[p t]|] eqn:Hlast.
    + destruct (Hrep _ _ _ Hlast) as (-> & -> & _).
      do 2 f_equal.
      replace (Z.of_nat (Init.Nat.pred (length reports)) + 1)
        with ((size + step - 1) / step) by lia.
      pose proof (Z.mul_succ_div_gt (size + step - 1) step ltac:(lia)). nia.
    + apply lookup_ge_None in Hlast. lia.
Qed.

(** X11 at the sample Android module: the ten-byte file in chunks of four. *)
Lemma X11_progress_reports_witness :
  exists reports : list (Z * Z),
    Utils.readFileInChunks 11 (OnAndroid androidSample) 1
      {| Utils.chunkSize := Some 4;
         Utils.onProgress := Some note;
         Utils.onChunk := None |} [] = Some (Resolved tt, reports) /\
    Z.of_nat (length reports) = (Z.of_nat (length tenBytes) + 4 - 1) / 4 /\
    (forall i p t, reports !! i = Some (p, t) ->
       p = Z.min (Z.of_nat (length tenBytes)) ((Z.of_nat i + 1) * 4) /\
       t = Z.of_nat (length tenBytes)) /\
    (forall i j p1 t1 p2 t2, (i < j)%nat ->
       reports !! i = Some (p1, t1) -> reports !! j = Some (p2, t2) -> p1 < p2) /\
    (tenBytes <> [] ->
     last reports = Some (Z.of_nat (length tenBytes), Z.of_nat (length tenBytes))).
Proof.
  apply (X11_progress_reports (OnAndroid androidSample) 1 tenBytes 4 11).
  - exact holds_androidSample.
  - lia.
  - apply validArg_android. lia.
  - cbn. lia.
Defined.

Example progress_sample :
  Utils.readFileInChunks 11 (OnAndroid androidSample) 1
    {| Utils.chunkSize := Some 4;
       Utils.onProgress := Some note;
       Utils.onChunk := None |} []
  = Some (Resolved tt, [(4, 10); (8, 10); (10, 10)]).
Proof. vm_compute. reflexivity. Qed.

(** ** Further properties: edges of the iteration *)

(** X12: on a handle open on an empty file the loop body never runs:
    [readFileInChunks] resolves without a read and without calling
    [onChunk] or [onProgress]; [uploadFileInChunks] resolves without invoking
    the upload function, whatever the retry policy, zero attempts included;
    [calculateFileHash] is the digest of no bytes. *)
Theorem X12_empty_file {W : Type} `{Timers W} (m : NativeModule) (handle : Z)
    (readOptions : Utils.ChunkedReadOptions) (uploadOptions : Utils.UploadOptions)
    (sha256 : list byte -> Buffer) (fuel : nat) (w : W) :
  holds m handle [] -> (1 <= fuel)%nat ->
  Utils.readFileInChunks fuel m handle readOptions w = Some (Resolved tt, w) /\
  Utils.uploadFileInChunks fuel m handle uploadOptions w = Some (Resolved tt, w) /\
  Utils.calculateFileHash sha256 fuel m handle
  = Some (Resolved (Js.toHex (sha256 []))).
Proof.
  intros Hholds Hfuel.
  destruct (stat_holds m handle [] Hholds) as (stats & Hstat & Hsize).
  cbn [length] in Hsize.
  assert (Hany : forall (V : Type) (opts : @Utils.ChunkedReadOptions V) (v : V),
             Utils.readFileInChunks fuel m handle opts v = Some (Resolved tt, v)).
  { intros V opts v. unfold Utils.readFileInChunks. rewrite Hstat, Hsize.
    destruct fuel as [|fuel]; [lia|]. reflexivity. }
  split; [apply Hany|]. split.
  - unfold Utils.uploadFileInChunks. apply Hany.
  - unfold Utils.calculateFileHash, Utils.hashChunks. now rewrite Hany.
Qed.

(** X12 at an iOS handle open on an empty file, with zero retry attempts. *)
Lemma X12_empty_file_witness :
  let w := {| events := []; inner := tt |} in
  Utils.readFileInChunks 1 (OnIOS (iosOn [])) 1
    {| Utils.chunkSize := None; Utils.onProgress := None;
       Utils.onChunk := None |} w
  = Some (Resolved tt, w) /\
  Utils.uploadFileInChunks 1 (OnIOS (iosOn [])) 1
    {| Utils.uploadFunction := spy (alwaysFails uploadFailed);
       Utils.retryAttempts := Some 0;
       Utils.retryDelay := None;
       Utils.readOptions :=
         {| Utils.chunkSize := None; Utils.onProgress := None;
            Utils.onChunk := None |} |} w
  = Some (Resolved tt, w) /\
  Utils.calculateFileHash (fun bs => bs) 1 (OnIOS (iosOn [])) 1
  = Some (Resolved (Js.toHex [])).
Proof.
  intros w.
  apply (X12_empty_file (OnIOS (iosOn [])) 1
           {| Utils.chunkSize := None; Utils.onProgress := None;
              Utils.onChunk := None |}
           {| Utils.uploadFunction := spy (alwaysFails uploadFailed);
              Utils.retryAttempts := Some 0;
              Utils.retryDelay := None;
              Utils.readOptions :=
                {| Utils.chunkSize := None; Utils.onProgress := None;
                   Utils.onChunk := None |} |}
           (fun bs => bs) 1 w).
  - apply holds_iosOn. cbn. lia.
  - lia.
Defined.

Lemma deliver_rejectsAt (bad : Z) (e : Error) (size : Z)
    (chunks : list (Buffer * Z)) (k : nat) (b : Buffer)
    (calls : list (Buffer * Z)) :
  chunks !! k = Some (b, bad) ->
  (forall i c, (i < k)%nat -> chunks !! i = Some c -> c.2 <> bad) ->
  deliver (Some (rejectsAt bad e)) None size chunks calls
  = (Rejected e, calls ++ take (S k) chunks).
Proof.
  revert k calls. induction chunks as [|[b0 o0] chunks IH]; intros k calls Hk Hbefore;
    [discriminate|].
  cbn [deliver Utils.whenGiven]. unfold rejectsAt at 1.
  destruct k as [|k].
  - injection Hk as -> ->. rewrite Z.eqb_refl. reflexivity.
  - destruct (Z.eqb_spec o0 bad) as [Heq|Hne].
    + exfalso. apply (Hbefore 0%nat (b0, o0)); [lia|reflexivity|exact Heq].
    + cbn [lookup list_lookup] in Hk.
      rewrite (IH k _ Hk).
      * cbn [take]. now rewrite <- app_assoc.
      * intros i c Hi Hc. apply (Hbefore (S i) c); [lia|exact Hc].
Qed.

(** X13: an [onChunk] that throws ends the iteration.  When the callback
    throws on chunk [k], [readFileInChunks] rejects with what it threw; the
    callback has been given the chunks up to chunk [k] and none after it. *)
Theorem X13_onChunk_rejection_stops (m : NativeModule) (handle : Z)
    (file : list byte) (chunkSize : Z) (fuel : nat) (k : nat) (e : Error) :
  holds m handle file -> 1 <= chunkSize -> validArg m chunkSize ->
  (length file < fuel)%nat ->
  let step := effectiveLength m chunkSize in
  Z.of_nat k * step < Z.of_nat (length file) ->
  Utils.readFileInChunks fuel m handle
    {| Utils.chunkSize := Some chunkSize;
       Utils.onProgress := None;
       Utils.onChunk := Some (rejectsAt (Z.of_nat k * step) e) |} []
  = Some (Rejected e, take (S k) (chunksOf step file)).
Proof.
  intros Hholds Hsize Hvalid Hfuel step Hk.
  assert (Hstep : 1 <= step).
  { subst step. pose proof MiB4_value. destruct m; cbn [effectiveLength]; lia. }
  destruct (chunksOf_geometry step file Hstep) as [Hcount Hall].
  rewrite (readFileInChunks_delivers m handle file (Some chunkSize)) by assumption.
  change (default MiB4 (Some chunkSize)) with chunkSize. fold step.
  assert (Hlen : (k < length (chunksOf step file))%nat).
  { apply Nat2Z.inj_lt. rewrite Hcount.
    assert (Z.of_nat k + 1 <= (Z.of_nat (length file) + step - 1) / step)
      by (apply Z.div_le_lower_bound; nia).
    lia. }
  destruct (lookup_lt_is_Some_2 _ _ Hlen) as [[b o] Hb].
  destruct (Hall k b o Hb) as (Ho & _).
  f_equal. rewrite <- Ho.
  rewrite (deliver_rejectsAt o e _ _ k b [] Hb); [reflexivity|].
  intros i [b' o'] Hi Hc. destruct (Hall i b' o' Hc) as (Ho' & _).
  cbn [snd]. nia.
Qed.

(** X13 at the sample Android module: chunks of four, the second one fails;
    the third chunk is never delivered. *)
Lemma X13_onChunk_rejection_stops_witness :
  Utils.readFileInChunks 11 (OnAndroid androidSample) 1
    {| Utils.chunkSize := Some 4;
       Utils.onProgress := None;
       Utils.onChunk := Some (rejectsAt (Z.of_nat 1 * 4) (JsError "disk full")) |} []
  = Some (Rejected (JsError "disk full"), take 2 (chunksOf 4 tenBytes)).
Proof.
  apply (X13_onChunk_rejection_stops (OnAndroid androidSample) 1 tenBytes 4 11 1
           (JsError "disk full")).
  - exact holds_androidSample.
  - lia.
  - apply validArg_android. lia.
  - cbn. lia.
  - cbn. lia.
Defined.

(** X14: the default retry policy.  With neither [retryAttempts] nor
    [retryDelay] given, a chunk whose upload always fails is tried three
    times with a wait of 1000 ms after the first and after the second
    failure, and none after the third; the upload then rejects with the
    error of the last attempt.  An [onChunk] among the caller's options is
    replaced by the uploader and never called. *)
Theorem X14_default_retry_policy (m : NativeModule) (handle : Z)
    (file : list byte) (chunkSize : option Z)
    (userOnChunk : option (Buffer -> Z -> Async (Recorded unit) unit))
    (fuel : nat) (e : Error) :
  holds m handle file -> file <> [] ->
  1 <= default MiB4 chunkSize -> validArg m (default MiB4 chunkSize) ->
  (length file < fuel)%nat ->
  let first := take (Z.to_nat (effectiveLength m (default MiB4 chunkSize))) file in
  Utils.uploadFileInChunks fuel m handle
    {| Utils.uploadFunction := spy (alwaysFails e);
       Utils.retryAttempts := None;
       Utils.retryDelay := None;
       Utils.readOptions :=
         {| Utils.chunkSize := chunkSize;
            Utils.onProgress := None;
            Utils.onChunk := userOnChunk |} |}
    {| events := []; inner := tt |}
  = Some (Rejected e,
          {| events := [Invoked first 0 (Rejected e); Waited 1000;
                        Invoked first 0 (Rejected e); Waited 1000;
                        Invoked first 0 (Rejected e)];
             inner := tt |}).
Proof.
  intros Hholds Hfile Hsize Hvalid Hfuel first.
  unfold Utils.uploadFileInChunks.
  cbn [Utils.retryAttempts Utils.retryDelay Utils.readOptions Utils.uploadFunction
       Utils.chunkSize Utils.onProgress].
  rewrite (readFileInChunks_delivers m handle file chunkSize) by assumption.
  destruct (chunksOf_first (effectiveLength m (default MiB4 chunkSize)) file Hfile)
    as (rest & ->).
  fold first. reflexivity.
Qed.

(** X14 at the sample iOS module, chunks of four. *)
Lemma X14_default_retry_policy_witness :
  let first := take (Z.to_nat (effectiveLength (OnIOS iosSample) (default MiB4 (Some 4))))
                 tenBytes in
  Utils.uploadFileInChunks 11 (OnIOS iosSample) 1
    {| Utils.uploadFunction := spy (alwaysFails (JsError "offline"));
       Utils.retryAttempts := None;
       Utils.retryDelay := None;
       Utils.readOptions :=
         {| Utils.chunkSize := Some 4;
            Utils.onProgress := None;
            Utils.onChunk := None |} |}
    {| events := []; inner := tt |}
  = Some (Rejected (JsError "offline"),
          {| events := [Invoked first 0 (Rejected (JsError "offline")); Waited 1000;
                        Invoked first 0 (Rejected (JsError "offline")); Waited 1000;
                        Invoked first 0 (Rejected (JsError "offline"))];
             inner := tt |}).
Proof.
  apply (X14_default_retry_policy (OnIOS iosSample) 1 tenBytes (Some 4) None 11
           (JsError "offline")).
  - exact holds_iosSample.
  - discriminate.
  - cbn. lia.
  - apply validArg_ios. cbn. lia.
  - cbn. lia.
Defined.

(** ** Further properties: the utilities on a handle that is not open *)

(** X16: on a handle that is no entry of the registry (never opened, or
    closed) every utility fails before any callback runs: on Android with
    the native "Invalid handle" error, on iOS, where the native calls return
    [nil], with the [TypeError] of reading a property of [null]. *)
Theorem X16_utilities_on_unknown_handle {W : Type} `{Timers W} (m : NativeModule)
    (handle : Z) (readOptions : Utils.ChunkedReadOptions)
    (uploadOptions : Utils.UploadOptions) (sha256 : list byte -> Buffer)
    (headerSize : option Z) (fuel : nat) (w : W) :
  unknownHandle m handle -> (1 <= fuel)%nat ->
  let e := unknownHandleError m in
  Utils.readFileInChunks fuel m handle readOptions w = Some (Rejected e, w) /\
  Utils.uploadFileInChunks fuel m handle uploadOptions w = Some (Rejected e, w) /\
  Utils.calculateFileHash sha256 fuel m handle = Some (Rejected e) /\
  Utils.readFileHeader m handle headerSize = Throw e /\
  Utils.detectFileType m handle = Throw e /\
  getFileInfo m handle = Throw e.
Proof.
  intros Hunknown Hfuel e.
  assert (Hstat : BigMediaLoader.stat m handle
                  = match m with OnAndroid _ => Throw e | OnIOS _ => Nil end).
  { destruct m as [a|i]; cbn.
    - now destruct (Android_unknown_handle_throws a handle 0 0 Hunknown) as (-> & _).
    - now destruct (IOS_unknown_handle_nil i handle 0 0 Hunknown) as (-> & _). }
  assert (Hread : forall off len, BigMediaLoader.readBase64 m handle off len
                  = match m with OnAndroid _ => Throw e | OnIOS _ => Nil end).
  { intros off len. destruct m as [a|i]; cbn.
    - now destruct (Android_unknown_handle_throws a handle off len Hunknown) as (_ & -> & _).
    - now destruct (IOS_unknown_handle_nil i handle off len Hunknown) as (_ & -> & _). }
  assert (Hany : forall (V : Type) (opts : @Utils.ChunkedReadOptions V) (v : V),
             Utils.readFileInChunks fuel m handle opts v = Some (Rejected e, v)).
  { intros V opts v. unfold Utils.readFileInChunks. rewrite Hstat.
    destruct m; reflexivity. }
  assert (Hheader : forall hs, Utils.readFileHeader m handle hs = Throw e).
  { intros hs. unfold Utils.readFileHeader. rewrite Hread. destruct m; reflexivity. }
  assert (Hdetect : Utils.detectFileType m handle = Throw e).
  { unfold Utils.detectFileType. now rewrite Hheader. }
  split; [apply Hany|]. split; [unfold Utils.uploadFileInChunks; apply Hany|].
  split; [unfold Utils.calculateFileHash, Utils.hashChunks; now rewrite Hany|].
  split; [apply Hheader|]. split; [exact Hdetect|].
  unfold getFileInfo. rewrite Hstat, Hdetect. destruct m; reflexivity.
Qed.

(** X16 at the sample iOS module after [close(1)]. *)
Lemma X16_utilities_on_unknown_handle_witness :
  let m := (BigMediaLoader.close (OnIOS iosSample) 1).2 in
  let w := {| events := []; inner := tt |} in
  let readOptions := {| Utils.chunkSize := None; Utils.onProgress := None;
                        Utils.onChunk := None |} in
  let uploadOptions := {| Utils.uploadFunction := spy (alwaysFails uploadFailed);
                          Utils.retryAttempts := None;
                          Utils.retryDelay := None;
                          Utils.readOptions := readOptions |} in
  Utils.readFileInChunks 1 m 1 readOptions w = Some (Rejected TypeError, w) /\
  Utils.uploadFileInChunks 1 m 1 uploadOptions w = Some (Rejected TypeError, w) /\
  Utils.calculateFileHash (fun bs => bs) 1 m 1 = Some (Rejected TypeError) /\
  Utils.readFileHeader m 1 None = Throw TypeError /\
  Utils.detectFileType m 1 = Throw TypeError /\
  getFileInfo m 1 = Throw TypeError.
Proof.
  intros m w readOptions uploadOptions.
  apply (X16_utilities_on_unknown_handle m 1 readOptions uploadOptions
           (fun bs => bs) None 1 w).
  - reflexivity.
  - lia.
Defined.

(** ** Further properties: the header and the file type, byte by byte *)

Lemma hexDigit_inj (a b : N) :
  (a < 16)%N -> (b < 16)%N -> Js.hexDigit a = Js.hexDigit b -> a = b.
Proof.
  intros Ha Hb Heq.
  assert (H : forallb (fun i => forallb (fun j =>
                 implb (Ascii.eqb (Js.hexDigit i) (Js.hexDigit j)) (N.eqb i j))
                 (List.map N.of_nat (seq 0 16)))
                (List.map N.of_nat (seq 0 16)) = true) by (vm_compute; reflexivity).
  rewrite forallb_forall in H.
  assert (Hin : forall n, (n < 16)%N -> In n (List.map N.of_nat (seq 0 16))).
  { intros n Hn. apply in_map_iff. exists (N.to_nat n). split; [lia|].
    apply in_seq. lia. }
  specialize (H a (Hin a Ha)). rewrite forallb_forall in H.
  specialize (H b (Hin b Hb)).
  rewrite Heq, Ascii.eqb_refl in H. cbn [implb] in H. now apply N.eqb_eq.
Qed.

Lemma to_N_inj (x y : byte) : Byte.to_N x = Byte.to_N y -> x = y.
Proof.
  intros Heq. pose proof (Byte.of_to_N x) as Hx.
  rewrite Heq, Byte.of_to_N in Hx. congruence.
Qed.

(** Two hexadecimal digits stand for one byte. *)
Lemma startsWith_toHex_cons (x y : byte) (bs p : list byte) :
  Js.startsWith (Js.toHex (x :: bs)) (Js.toHex (y :: p)) = true <->
  x = y /\ Js.startsWith (Js.toHex bs) (Js.toHex p) = true.
Proof.
  cbn [Js.toHex Js.startsWith]. rewrite !andb_true_iff, !Ascii.eqb_eq.
  split.
  - intros (Hhi & Hlo & Hrest). split; [|exact Hrest].
    apply hexDigit_inj in Hhi; [|byte_arith..].
    apply hexDigit_inj in Hlo; [|byte_arith..].
    apply to_N_inj.
    rewrite (N.div_mod (Byte.to_N x) 16), (N.div_mod (Byte.to_N y) 16) by lia.
    now rewrite Hhi, Hlo.
  - intros [-> Hrest]. auto.
Qed.

(** The text of a buffer starts with the text of [p] exactly if the buffer
    starts with the bytes [p]. *)
Lemma startsWith_toHex (bs p : list byte) :
  Js.startsWith (Js.toHex bs) (Js.toHex p) = true <-> take (length p) bs = p.
Proof.
  revert bs. induction p as [|y p IH]; intros bs.
  - cbn. now destruct (Js.toHex bs).
  - destruct bs as [|x bs].
    + cbn. split; discriminate.
    + rewrite startsWith_toHex_cons, IH. cbn [length take]. split.
      * intros [-> ->]. reflexivity.
      * intros [= -> Hp]. auto.
Qed.

Lemma includes_toHex (pre p post : list byte) :
  Js.includes (Js.toHex (pre ++ p ++ post)) (Js.toHex p) = true.
Proof.
  induction pre as [|x pre IH].
  - cbn [app].
    assert (Hs : Js.startsWith (Js.toHex (p ++ post)) (Js.toHex p) = true)
      by (apply startsWith_toHex; now rewrite take_app_length).
    destruct (Js.toHex (p ++ post)); cbn [Js.includes]; now rewrite Hs.
  - cbn [app Js.toHex Js.includes]. rewrite IH. now rewrite !orb_true_r.
Qed.

(** A prefix row of [detectFileType], read on the bytes of the file. *)
Lemma header_startsWith (file p : list byte) :
  (length p <= 16)%nat ->
  Js.startsWith (Js.toLowerCase (Js.toHex (take 16 file))) (Js.toHex p) = true <->
  take (length p) file = p.
Proof.
  intros Hp. rewrite toLowerCase_toHex, startsWith_toHex, take_take.
  now replace (length p `min` 16)%nat with (length p) by lia.
Qed.

(** X17: [readFileHeader] on an open handle returns the first [headerSize]
    bytes of the file, the whole file when it is shorter, and at most 4 MiB
    on Android; without a [headerSize] it returns the first 1024 bytes. *)
Theorem X17_readFileHeader_bytes (m : NativeModule) (handle : Z)
    (file : list byte) (headerSize : Z) :
  holds m handle file -> validArg m headerSize ->
  Utils.readFileHeader m handle (Some headerSize)
  = Return (take (Z.to_nat (effectiveLength m headerSize)) file) /\
  Utils.readFileHeader m handle None = Return (take 1024 file).
Proof.
  intros Hholds Hvalid.
  assert (Hany : forall hs, validArg m hs ->
            Utils.readFileHeader m handle (Some hs)
            = Return (take (Z.to_nat (effectiveLength m hs)) file)).
  { intros hs Hhs. unfold Utils.readFileHeader.
    change (default 1024 (Some hs)) with hs.
    destruct (readBase64_range m handle _ file 0 hs Hholds) as (r & -> & ->);
      [apply validArg_small; lia|exact Hhs|].
    now rewrite drop_0. }
  split; [now apply Hany|].
  change (Utils.readFileHeader m handle None)
    with (Utils.readFileHeader m handle (Some 1024)).
  rewrite Hany by (apply validArg_small; lia).
  do 2 f_equal. destruct m; cbn [effectiveLength]; rewrite ?MiB4_value; reflexivity.
Qed.

(** X17 at the sample Android module: a header of four bytes. *)
Lemma X17_readFileHeader_bytes_witness :
  Utils.readFileHeader (OnAndroid androidSample) 1 (Some 4)
  = Return (take (Z.to_nat (effectiveLength (OnAndroid androidSample) 4)) tenBytes) /\
  Utils.readFileHeader (OnAndroid androidSample) 1 None = Return (take 1024 tenBytes).
Proof.
  apply (X17_readFileHeader_bytes (OnAndroid androidSample) 1 tenBytes 4).
  - exact holds_androidSample.
  - apply validArg_android. lia.
Defined.

Ltac bytes_clash :=
  exfalso;
  match goal with
  | file : list byte |- _ =>
      destruct file as [|? [|? [|? [|? ?]]]]; cbn [take length] in *; congruence
  end.

Ltac settle_side :=
  let Hx := fresh "Hx" in
  intros Hx;
  solve [discriminate Hx | reflexivity | assumption | contradiction | bytes_clash].

Ltac settle_row :=
  lazymatch goal with
  | |- _ <-> _ => split; settle_side
  | |- _ => settle_side
  end.

(** X18: [detectFileType] read on the bytes of the file.  Each prefix row
    of the table is chosen exactly when the file starts with the bytes of
    its signature; in particular [video/mp4] requires the file to start with
    the four bytes [66 74 79 70] ("ftyp"), and a file of fewer than three
    bytes is [application/octet-stream]. *)
Theorem X18_detectFileType_by_bytes (m : NativeModule) (handle : Z)
    (file : list byte) :
  holds m handle file ->
  exists mime,
    Utils.detectFileType m handle = Return mime /\
    (mime = "image/jpeg"%string <-> take 3 file = [xff; xd8; xff]) /\
    (mime = "image/png"%string <-> take 4 file = [x89; x50; x4e; x47]) /\
    (mime = "image/gif"%string <-> take 4 file = [x47; x49; x46; x38]) /\
    (mime = "video/avi"%string -> take 4 file = [x52; x49; x46; x46]) /\
    (mime = "video/mpeg"%string <-> take 4 file = [x00; x00; x01; xb3]) /\
    (mime = "video/mp4"%string <-> take 4 file = [x66; x74; x79; x70]) /\
    (mime = "video/webm"%string <-> take 4 file = [x1a; x45; xdf; xa3]) /\
    (mime = "application/pdf"%string <-> take 4 file = [x25; x50; x44; x46]) /\
    (mime = "application/zip"%string <-> take 4 file = [x50; x4b; x03; x04]) /\
    ((length file < 3)%nat -> mime = "application/octet-stream"%string).
Proof.
  intros Hholds.
  set (hex := Js.toLowerCase (Js.toHex (take 16 file))).
  exists (Utils.classify hex). split.
  { unfold Utils.detectFileType. now rewrite (readFileHeader_holds m handle file). }
  pose proof (header_startsWith file [xff; xd8; xff] ltac:(cbn; lia)) as R1.
  pose proof (header_startsWith file [x89; x50; x4e; x47] ltac:(cbn; lia)) as R2.
  pose proof (header_startsWith file [x47; x49; x46; x38] ltac:(cbn; lia)) as R3.
  pose proof (header_startsWith file [x52; x49; x46; x46] ltac:(cbn; lia)) as R4.
  pose proof (header_startsWith file [x00; x00; x01; xb3] ltac:(cbn; lia)) as R5.
  pose proof (header_startsWith file [x66; x74; x79; x70] ltac:(cbn; lia)) as R6.
  pose proof (header_startsWith file [x1a; x45; xdf; xa3] ltac:(cbn; lia)) as R7.
  pose proof (header_startsWith file [x25; x50; x44; x46] ltac:(cbn; lia)) as R8.
  pose proof (header_startsWith file [x50; x4b; x03; x04] ltac:(cbn; lia)) as R9.
  fold hex in R1, R2, R3, R4, R5, R6, R7, R8, R9.
  cbn [length] in R1, R2, R3, R4, R5, R6, R7, R8, R9.
  change (Js.toHex [xff; xd8; xff]) with "ffd8ff"%string in R1.
  change (Js.toHex [x89; x50; x4e; x47]) with "89504e47"%string in R2.
  change (Js.toHex [x47; x49; x46; x38]) with "47494638"%string in R3.
  change (Js.toHex [x52; x49; x46; x46]) with "52494646"%string in R4.
  change (Js.toHex [x00; x00; x01; xb3]) with "000001b3"%string in R5.
  change (Js.toHex [x66; x74; x79; x70]) with "66747970"%string in R6.
  change (Js.toHex [x1a; x45; xdf; xa3]) with "1a45dfa3"%string in R7.
  change (Js.toHex [x25; x50; x44; x46]) with "25504446"%string in R8.
  change (Js.toHex [x50; x4b; x03; x04]) with "504b0304"%string in R9.
  assert (Hshort : forall n p, (3 <= n)%nat -> (length file < 3)%nat ->
                     length p = n -> take n file <> p).
  { intros n p Hn Hlen Hp Heq. apply (f_equal length) in Heq.
    rewrite length_take in Heq. lia. }
  clearbody hex. clear Hholds.
  unfold Utils.classify.
  destruct (Js.startsWith hex "ffd8ff") eqn:E1.
  { pose proof (proj1 R1 eq_refl) as T1.
    repeat (split; [settle_row|]). intros Hlen. exfalso.
    eapply Hshort; [|exact Hlen| |eassumption]; [lia|reflexivity]. }
  assert (N1 : take 3 file <> [xff; xd8; xff])
    by (intros Hx; apply (proj2 R1) in Hx; discriminate Hx).
  destruct (Js.startsWith hex "89504e47") eqn:E2.
  { pose proof (proj1 R2 eq_refl) as T2.
    repeat (split; [settle_row|]). intros Hlen. exfalso.
    eapply Hshort; [|exact Hlen| |eassumption]; [lia|reflexivity]. }
  assert (N2 : take 4 file <> [x89; x50; x4e; x47])
    by (intros Hx; apply (proj2 R2) in Hx; discriminate Hx).
  destruct (Js.startsWith hex "47494638") eqn:E3.
  { pose proof (proj1 R3 eq_refl) as T3.
    repeat (split; [settle_row|]). intros Hlen. exfalso.
    eapply Hshort; [|exact Hlen| |eassumption]; [lia|reflexivity]. }
  assert (N3 : take 4 file <> [x47; x49; x46; x38])
    by (intros Hx; apply (proj2 R3) in Hx; discriminate Hx).
  destruct (Js.startsWith hex "52494646") eqn:E4.
  { pose proof (proj1 R4 eq_refl) as T4.
    destruct (Js.includes hex "41564920"); cbn [andb].
    - repeat (split; [settle_row|]). intros Hlen. exfalso.
    eapply Hshort; [|exact Hlen| |eassumption]; [lia|reflexivity].
    - destruct (Js.startsWith hex "000001b3") eqn:E5;
        [pose proof (proj1 R5 eq_refl); bytes_clash|].
      destruct (Js.startsWith hex "66747970") eqn:E6;
        [pose proof (proj1 R6 eq_refl); bytes_clash|].
      destruct (Js.startsWith hex "1a45dfa3") eqn:E7;
        [pose proof (proj1 R7 eq_refl); bytes_clash|].
      destruct (Js.startsWith hex "25504446") eqn:E8;
        [pose proof (proj1 R8 eq_refl); bytes_clash|].
      destruct (Js.startsWith hex "504b0304") eqn:E9;
        [pose proof (proj1 R9 eq_refl); bytes_clash|].
      repeat (split; [settle_row|]). reflexivity. }
  assert (N4 : take 4 file <> [x52; x49; x46; x46])
    by (intros Hx; apply (proj2 R4) in Hx; discriminate Hx).
  cbn [andb].
  destruct (Js.startsWith hex "000001b3") eqn:E5.
  { pose proof (proj1 R5 eq_refl) as T5.
    repeat (split; [settle_row|]). intros Hlen. exfalso.
    eapply Hshort; [|exact Hlen| |eassumption]; [lia|reflexivity]. }
  assert (N5 : take 4 file <> [x00; x00; x01; xb3])
    by (intros Hx; apply (proj2 R5) in Hx; discriminate Hx).
  destruct (Js.startsWith hex "66747970") eqn:E6.
  { pose proof (proj1 R6 eq_refl) as T6.
    repeat (split; [settle_row|]). intros Hlen. exfalso.
    eapply Hshort; [|exact Hlen| |eassumption]; [lia|reflexivity]. }
  assert (N6 : take 4 file <> [x66; x74; x79; x70])
    by (intros Hx; apply (proj2 R6) in Hx; discriminate Hx).
  destruct (Js.startsWith hex "1a45dfa3") eqn:E7.
  { pose proof (proj1 R7 eq_refl) as T7.
    repeat (split; [settle_row|]). intros Hlen. exfalso.
    eapply Hshort; [|exact Hlen| |eassumption]; [lia|reflexivity]. }
  assert (N7 : take 4 file <> [x1a; x45; xdf; xa3])
    by (intros Hx; apply (proj2 R7) in Hx; discriminate Hx).
  destruct (Js.startsWith hex "25504446") eqn:E8.
  { pose proof (proj1 R8 eq_refl) as T8.
    repeat (split; [settle_row|]). intros Hlen. exfalso.
    eapply Hshort; [|exact Hlen| |eassumption]; [lia|reflexivity]. }
  assert (N8 : take 4 file <> [x25; x50; x44; x46])
    by (intros Hx; apply (proj2 R8) in Hx; discriminate Hx).
  destruct (Js.startsWith hex "504b0304") eqn:E9.
  { pose proof (proj1 R9 eq_refl) as T9.
    repeat (split; [settle_row|]). intros Hlen. exfalso.
    eapply Hshort; [|exact Hlen| |eassumption]; [lia|reflexivity]. }
  assert (N9 : take 4 file <> [x50; x4b; x03; x04])
    by (intros Hx; apply (proj2 R9) in Hx; discriminate Hx).
  repeat (split; [settle_row|]). reflexivity.
Qed.

(** X18 at an iOS handle open on the MP4 header of the unit tests, whose
    first four bytes are a box size: not [video/mp4]. *)
Lemma X18_detectFileType_by_bytes_witness :
  exists mime,
    Utils.detectFileType (OnIOS (iosOn mp4Header)) 1 = Return mime /\
    (mime = "image/jpeg"%string <-> take 3 mp4Header = [xff; xd8; xff]) /\
    (mime = "image/png"%string <-> take 4 mp4Header = [x89; x50; x4e; x47]) /\
    (mime = "image/gif"%string <-> take 4 mp4Header = [x47; x49; x46; x38]) /\
    (mime = "video/avi"%string -> take 4 mp4Header = [x52; x49; x46; x46]) /\
    (mime = "video/mpeg"%string <-> take 4 mp4Header = [x00; x00; x01; xb3]) /\
    (mime = "video/mp4"%string <-> take 4 mp4Header = [x66; x74; x79; x70]) /\
    (mime = "video/webm"%string <-> take 4 mp4Header = [x1a; x45; xdf; xa3]) /\
    (mime = "application/pdf"%string <-> take 4 mp4Header = [x25; x50; x44; x46]) /\
    (mime = "application/zip"%string <-> take 4 mp4Header = [x50; x4b; x03; x04]) /\
    ((length mp4Header < 3)%nat -> mime = "application/octet-stream"%string).
Proof.
  apply (X18_detectFileType_by_bytes (OnIOS (iosOn mp4Header)) 1 mp4Header).
  apply holds_iosOn. cbn. lia.
Defined.

(** X19: a RIFF file whose form type, the four bytes at offset 8, is
    "AVI " is detected as [video/avi], whatever its bytes 4 to 7 (the size of
    the RIFF chunk) are. *)
Theorem X19_detectFileType_avi (m : NativeModule) (handle : Z) (file : list byte) :
  holds m handle file ->
  take 4 file = [x52; x49; x46; x46] ->
  take 4 (drop 8 file) = [x41; x56; x49; x20] ->
  Utils.detectFileType m handle = Return "video/avi"%string.
Proof.
  intros Hholds Hriff Havi.
  unfold Utils.detectFileType. rewrite (readFileHeader_holds m handle file Hholds).
  set (hex := Js.toLowerCase (Js.toHex (take 16 file))).
  pose proof (header_startsWith file [xff; xd8; xff] ltac:(cbn; lia)) as R1.
  pose proof (header_startsWith file [x89; x50; x4e; x47] ltac:(cbn; lia)) as R2.
  pose proof (header_startsWith file [x47; x49; x46; x38] ltac:(cbn; lia)) as R3.
  pose proof (header_startsWith file [x52; x49; x46; x46] ltac:(cbn; lia)) as R4.
  fold hex in R1, R2, R3, R4. cbn [length] in R1, R2, R3, R4.
  change (Js.toHex [xff; xd8; xff]) with "ffd8ff"%string in R1.
  change (Js.toHex [x89; x50; x4e; x47]) with "89504e47"%string in R2.
  change (Js.toHex [x47; x49; x46; x38]) with "47494638"%string in R3.
  change (Js.toHex [x52; x49; x46; x46]) with "52494646"%string in R4.
  assert (Hinc : Js.includes hex "41564920" = true).
  { subst hex. rewrite toLowerCase_toHex.
    assert (Hsplit : take 16 file
                     = take 8 file ++ [x41; x56; x49; x20] ++ take 4 (drop 12 file)).
    { rewrite <- Havi.
      replace (drop 12 file) with (drop 4 (drop 8 file))
        by (now rewrite drop_drop).
      rewrite (take_take_drop (drop 8 file) 4 4).
      now rewrite (take_take_drop file 8 (4 + 4)). }
    rewrite Hsplit. apply (includes_toHex _ [x41; x56; x49; x20]). }
  clearbody hex. f_equal. unfold Utils.classify.
  destruct (Js.startsWith hex "ffd8ff");
    [pose proof (proj1 R1 eq_refl); bytes_clash|].
  destruct (Js.startsWith hex "89504e47");
    [pose proof (proj1 R2 eq_refl); bytes_clash|].
  destruct (Js.startsWith hex "47494638");
    [pose proof (proj1 R3 eq_refl); bytes_clash|].
  rewrite (proj2 R4 Hriff), Hinc. reflexivity.
Qed.

(** X19 at a header with the RIFF layout. *)
Lemma X19_detectFileType_avi_witness :
  Utils.detectFileType
    (OnAndroid (androidOn [x52; x49; x46; x46; x24; x08; x00; x00;
                           x41; x56; x49; x20; x4c; x49; x53; x54])) 1
  = Return "video/avi"%string.
Proof.
  apply (X19_detectFileType_avi
           (OnAndroid (androidOn [x52; x49; x46; x46; x24; x08; x00; x00;
                                  x41; x56; x49; x20; x4c; x49; x53; x54])) 1
           [x52; x49; x46; x46; x24; x08; x00; x00;
            x41; x56; x49; x20; x4c; x49; x53; x54]).
  - apply holds_androidOn. cbn. lia.
  - reflexivity.
  - reflexivity.
Defined.

(** X20: on a handle that is an entry of the registry [getFileInfo]
    returns, and what it returns carries the stats of the handle together
    with the type that [detectFileType] gives. *)
Theorem X20_getFileInfo (m : NativeModule) (handle : Z) :
  liveHandle m handle ->
  exists stats detectedType,
    getFileInfo m handle = Return (Some stats, detectedType) /\
    BigMediaLoader.stat m handle = Return stats /\
    Utils.detectFileType m handle = Return detectedType.
Proof.
  intros Hlive. unfold getFileInfo.
  assert (Hstat : exists stats, BigMediaLoader.stat m handle = Return stats).
  { destruct m as [a|i]; destruct Hlive as [h Hh]; cbn;
      [unfold Android.stat|unfold IOS.stat]; rewrite Hh; eauto. }
  assert (Hread : exists r, BigMediaLoader.readBase64 m handle 0 16 = Return r).
  { destruct m as [a|i]; destruct Hlive as [h Hh]; cbn.
    - unfold Android.readBase64. rewrite Hh.
      change (toInt (Z.min (toLong 16) MiB4)) with 16.
      change (toLong 0) with 0. cbn [Z.ltb Z.compare].
      destruct (Android.positionAndRead (Android.channel h) 0 16) as [read buf].
      destruct (read <=? 0); eauto.
    - unfold IOS.readBase64. rewrite Hh. eauto. }
  destruct Hstat as (stats & Hstat). destruct Hread as (r & Hread).
  assert (Hdetect : exists t, Utils.detectFileType m handle = Return t).
  { unfold Utils.detectFileType, Utils.readFileHeader.
    change (default 1024 (Some 16)) with 16. rewrite Hread. eauto. }
  destruct Hdetect as (t & Hdetect).
  exists stats, t. rewrite Hstat, Hdetect. auto.
Qed.

(** X20 at the sample iOS module. *)
Lemma X20_getFileInfo_witness :
  exists stats detectedType,
    getFileInfo (OnIOS iosSample) 1 = Return (Some stats, detectedType) /\
    BigMediaLoader.stat (OnIOS iosSample) 1 = Return stats /\
    Utils.detectFileType (OnIOS iosSample) 1 = Return detectedType.
Proof.
  apply (X20_getFileInfo (OnIOS iosSample) 1).
  eexists. reflexivity.
Defined.

(** ** Further properties: [FileHandle] and the wrappers *)

Lemma native_close_completes (m : NativeModule) (h : Z) (e : Error) :
  (BigMediaLoader.close m h).1 <> Throw e.
Proof.
  destruct m as [a|i]; cbn.
  - unfold Android.close. destruct (Android.handles a !! h); discriminate.
  - unfold IOS.close. destruct (IOS._handles i !! h); discriminate.
Qed.

Lemma FileHandle_new_resolved (m : NativeModule) (uri : string) (file : list byte) :
  resolveFile m uri = Some file ->
  FileHandle.new m uri
  = (inr {| FileHandle.handle := Some (nextHandle m); FileHandle.closed := false |},
     (BigMediaLoader.open m uri).2).
Proof.
  intros Hfile. unfold FileHandle.new.
  destruct (open_returns m uri file Hfile) as (m' & -> & _). reflexivity.
Qed.

Lemma FileHandle_new_unresolved (m : NativeModule) (uri : string) :
  resolveFile m uri = None -> exists e, FileHandle.new m uri = (inl e, m).
Proof.
  intros Hfile. unfold FileHandle.new.
  destruct (open_unresolved m uri Hfile) as (e & ->). eauto.
Qed.

Lemma FileHandle_close_open (m : NativeModule) (fh : FileHandle.t) (h : Z) :
  FileHandle.handle fh = Some h -> FileHandle.closed fh = false ->
  FileHandle.close m fh
  = (Return tt, ((BigMediaLoader.close m h).2,
                 {| FileHandle.handle := Some h; FileHandle.closed := true |})).
Proof.
  intros Hh Hc. unfold FileHandle.close. rewrite Hc, Hh.
  pose proof (native_close_completes m h) as Hno.
  destruct (BigMediaLoader.close m h) as [[| |e] m']; cbn [fst snd] in *;
    try reflexivity.
  now destruct (Hno e).
Qed.

Lemma FileHandle_close_closed (m : NativeModule) (fh : FileHandle.t) :
  FileHandle.closed fh = true -> FileHandle.close m fh = (Return tt, (m, fh)).
Proof. intros Hc. unfold FileHandle.close. now rewrite Hc. Qed.

(** X21: the life of a [FileHandle].  Made for a uri that resolves, the
    object wraps the handle [open] returned and its methods are the native
    ones on that handle.  [close] removes the handle from the registry; from
    then on [stat], [readChunk] and [getPlayableUri] throw "File handle is
    closed" on either platform, and another [close] changes nothing. *)
Theorem X21_file_handle_use_after_close (m : NativeModule) (uri : string)
    (file : list byte) (off len : Z) :
  resolveFile m uri = Some file ->
  exists fh m1 fh2 m2,
    FileHandle.new m uri = (inr fh, m1) /\
    FileHandle.handle fh = Some (nextHandle m) /\
    FileHandle.stat m1 fh = BigMediaLoader.stat m1 (nextHandle m) /\
    FileHandle.readChunk m1 fh off len
    = BigMediaLoader.readBase64 m1 (nextHandle m) off len /\
    FileHandle.getPlayableUri m1 fh = Return uri /\
    FileHandle.close m1 fh = (Return tt, (m2, fh2)) /\
    unknownHandle m2 (nextHandle m) /\
    FileHandle.stat m2 fh2 = Throw (JsError "File handle is closed") /\
    FileHandle.readChunk m2 fh2 off len = Throw (JsError "File handle is closed") /\
    FileHandle.getPlayableUri m2 fh2 = Throw (JsError "File handle is closed") /\
    FileHandle.close m2 fh2 = (Return tt, (m2, fh2)).
Proof.
  intros Hfile.
  destruct (open_returns m uri file Hfile)
    as (m1 & Hopen & _ & _ & _ & _ & _ & _ & _ & Huri & _).
  pose proof (FileHandle_new_resolved m uri file Hfile) as Hnew.
  rewrite Hopen in Hnew. cbn [snd] in Hnew.
  destruct (close_leaves m1 (nextHandle m)) as (_ & _ & _ & _ & _ & Hu & _).
  eexists _, m1, _, _. split; [exact Hnew|].
  split; [reflexivity|]. split; [reflexivity|]. split; [reflexivity|].
  split; [exact Huri|].
  split; [now apply FileHandle_close_open|].
  split; [apply Hu; now left|].
  repeat (split; [reflexivity|]). reflexivity.
Qed.

(** X21 at a fresh iOS module. *)
Lemma X21_file_handle_use_after_close_witness :
  exists fh m1 fh2 m2,
    FileHandle.new (OnIOS (IOS.init sampleFoundation)) "file:///ten.bin" = (inr fh, m1) /\
    FileHandle.handle fh = Some (nextHandle (OnIOS (IOS.init sampleFoundation))) /\
    FileHandle.stat m1 fh
    = BigMediaLoader.stat m1 (nextHandle (OnIOS (IOS.init sampleFoundation))) /\
    FileHandle.readChunk m1 fh 0 4
    = BigMediaLoader.readBase64 m1 (nextHandle (OnIOS (IOS.init sampleFoundation))) 0 4 /\
    FileHandle.getPlayableUri m1 fh = Return "file:///ten.bin"%string /\
    FileHandle.close m1 fh = (Return tt, (m2, fh2)) /\
    unknownHandle m2 (nextHandle (OnIOS (IOS.init sampleFoundation))) /\
    FileHandle.stat m2 fh2 = Throw (JsError "File handle is closed") /\
    FileHandle.readChunk m2 fh2 0 4 = Throw (JsError "File handle is closed") /\
    FileHandle.getPlayableUri m2 fh2 = Throw (JsError "File handle is closed") /\
    FileHandle.close m2 fh2 = (Return tt, (m2, fh2)).
Proof.
  apply (X21_file_handle_use_after_close (OnIOS (IOS.init sampleFoundation))
           "file:///ten.bin" tenBytes 0 4).
  reflexivity.
Defined.

(** X22: [withFileHandle] leaves no handle behind.  When the uri does not
    resolve, it rejects with the error of [open] and the operation is not
    run.  When it resolves and the operation settles, in either way, having
    left the object on its handle (closed only if the handle is gone), then
    [withFileHandle] settles as the operation did and the handle is no entry
    of the registry afterwards; the other handles are as the operation left
    them. *)
Theorem X22_withFileHandle_closes {T : Type} (m : NativeModule) (uri : string)
    (operation : NativeModule * FileHandle.t
                 -> Outcome T * (NativeModule * FileHandle.t))
    (settled : Outcome T) (m1 : NativeModule) (fh1 : FileHandle.t) :
  let h := nextHandle m in
  let fh := {| FileHandle.handle := Some h; FileHandle.closed := false |} in
  (resolveFile m uri = None ->
   exists e, withFileHandle m uri operation = (Rejected e, m)) /\
  (is_Some (resolveFile m uri) ->
   operation ((BigMediaLoader.open m uri).2, fh) = (settled, (m1, fh1)) ->
   FileHandle.handle fh1 = Some h ->
   (FileHandle.closed fh1 = true -> unknownHandle m1 h) ->
   exists m2,
     withFileHandle m uri operation = (settled, m2) /\
     unknownHandle m2 h /\
     nextHandle m2 = nextHandle m1 /\
     (forall k off len, k <> h -> answers m2 k off len = answers m1 k off len)).
Proof.
  intros h fh. split.
  - intros Hfile. unfold withFileHandle.
    destruct (FileHandle_new_unresolved m uri Hfile) as (e & ->). eauto.
  - intros [file Hfile] Hop Hh Hclosed. unfold withFileHandle.
    rewrite (FileHandle_new_resolved m uri file Hfile). fold h fh. rewrite Hop.
    destruct (FileHandle.closed fh1) eqn:Hc.
    + rewrite FileHandle_close_closed by exact Hc.
      exists m1. split; [reflexivity|]. split; [now apply Hclosed|].
      split; reflexivity.
    + rewrite (FileHandle_close_open m1 fh1 h Hh Hc).
      destruct (close_leaves m1 h) as (Hn & _ & Hans & _ & _ & Hu & _).
      eexists. split; [reflexivity|]. split; [apply Hu; now left|].
      split; [exact Hn|]. intros k off len Hk. now apply Hans.
Qed.

(** X22 at a fresh Android module: an operation that returns the size. *)
Lemma X22_withFileHandle_closes_witness :
  let m := OnAndroid (Android.init sampleResolver) in
  let operation := fun s : NativeModule * FileHandle.t =>
    (match FileHandle.stat s.1 s.2 with
     | Return stats => Resolved (MediaStats.size stats)
     | Throw e => Rejected e
     | Nil => Rejected TypeError
     end, s) in
  exists m2,
    withFileHandle m "content://media/ten" operation = (Resolved 10, m2) /\
    unknownHandle m2 (nextHandle m) /\
    nextHandle m2 = nextHandle (BigMediaLoader.open m "content://media/ten").2 /\
    (forall k off len, k <> nextHandle m ->
       answers m2 k off len
       = answers (BigMediaLoader.open m "content://media/ten").2 k off len).
Proof.
  intros m operation.
  apply (proj2 (X22_withFileHandle_closes m "content://media/ten" operation
                  (Resolved 10) (BigMediaLoader.open m "content://media/ten").2
                  {| FileHandle.handle := Some 1; FileHandle.closed := false |})).
  - eexists. reflexivity.
  - reflexivity.
  - reflexivity.
  - discriminate.
Defined.

Lemma opens_hold (m : NativeModule) (uris : list string) :
  1 <= nextHandle m -> filesFit m ->
  nextHandle m + Z.of_nat (length uris) < 2 ^ 31 ->
  Forall (fun u => is_Some (resolveFile m u)) uris ->
  let m' := calls m (map CallOpen uris) in
  nextHandle m' = nextHandle m + Z.of_nat (length uris) /\
  (forall u, resolveFile m' u = resolveFile m u) /\
  (forall k f, k < nextHandle m -> holds m k f -> holds m' k f) /\
  (forall k off len, k < nextHandle m -> answers m' k off len = answers m k off len) /\
  (forall i u file, uris !! i = Some u -> resolveFile m u = Some file ->
     holds m' (nextHandle m + Z.of_nat i) file).
Proof.
  revert m. induction uris as [|u uris IH]; intros m Hnext Hfit Hroom Hall.
  - cbn. split; [lia|]. split; [reflexivity|]. split; [auto|]. split; [auto|].
    intros i u file Hi. discriminate.
  - apply Forall_cons in Hall as [[file0 Hu] Hall].
    cbn [map calls fold_left length] in *.
    destruct (open_returns m u file0 Hu)
      as (m1 & Hopen & Hn1 & _ & Hres & Hans & _ & Hh & _ & _ & _ & Hnew).
    rewrite toInt_id in Hn1 by lia.
    assert (Hcall : call m (CallOpen u) = m1) by (cbn [call]; now rewrite Hopen).
    rewrite Hcall.
    destruct (IH m1) as (Hn & Hres' & Hkeep & Hans' & Hidx).
    + lia.
    + rewrite <- Hcall. now apply filesFit_call.
    + lia.
    + eapply Forall_impl; [exact Hall|]. intros x Hx. cbn. now rewrite Hres.
    + fold (calls m1 (map CallOpen uris)) in *.
      split; [lia|]. split; [intros x; now rewrite Hres'|]. split; [|split].
      * intros k f Hk Hf. apply Hkeep; [lia|]. apply Hh; [lia|exact Hf].
      * intros k off len Hk. rewrite Hans' by lia. apply Hans. lia.
      * intros [|i] x file Hi Hx.
        -- cbn in Hi. injection Hi as <-. rewrite Hu in Hx. injection Hx as <-.
           rewrite Z.add_0_r. apply Hkeep; [lia|]. apply Hnew. eapply Hfit; eauto.
        -- cbn [lookup list_lookup] in Hi.
           replace (nextHandle m + Z.of_nat (S i)) with (nextHandle m1 + Z.of_nat i) by lia.
           eapply Hidx; [exact Hi|]. now rewrite Hres.
Qed.

Lemma openAll_resolved (m : NativeModule) (assets : list MediaAsset.t) :
  - 2 ^ 31 <= nextHandle m ->
  nextHandle m + Z.of_nat (length assets) < 2 ^ 31 ->
  Forall (fun a => is_Some (resolveFile m (MediaAsset.uri a))) assets ->
  exists handles,
    openAll m assets = (inr handles, calls m (map CallOpen (map MediaAsset.uri assets))) /\
    length handles = length assets /\
    (forall i fh, handles !! i = Some fh ->
       fh = {| FileHandle.handle := Some (nextHandle m + Z.of_nat i);
               FileHandle.closed := false |}).
Proof.
  revert m. induction assets as [|a assets IH]; intros m Hnext Hroom Hall.
  - exists []. cbn. split; [reflexivity|]. split; [reflexivity|]. discriminate.
  - apply Forall_cons in Hall as [[file0 Hu] Hall].
    cbn [openAll map calls fold_left length] in *.
    rewrite (FileHandle_new_resolved m _ file0 Hu).
    destruct (open_returns m _ file0 Hu) as (m1 & Hopen & Hn1 & _ & Hres & _).
    rewrite toInt_id in Hn1 by lia.
    assert (Hcall : call m (CallOpen (MediaAsset.uri a)) = m1)
      by (cbn [call]; now rewrite Hopen).
    rewrite Hcall, Hopen. cbn [snd].
    destruct (IH m1) as (handles & Hrun & Hlen & Hidx); [lia|lia| |].
    { eapply Forall_impl; [exact Hall|]. intros x Hx. cbn. now rewrite Hres. }
    rewrite Hrun. eexists. split; [reflexivity|]. split; [cbn; lia|].
    intros [|i] fh Hi.
    + cbn in Hi. injection Hi as <-. now rewrite Z.add_0_r.
    + cbn [lookup list_lookup] in Hi. rewrite (Hidx i fh Hi).
      do 2 f_equal. lia.
Qed.

Lemma openAll_unresolved (m : NativeModule) (pre : list MediaAsset.t)
    (bad : MediaAsset.t) (post : list MediaAsset.t) :
  Forall (fun a => is_Some (resolveFile m (MediaAsset.uri a))) pre ->
  resolveFile m (MediaAsset.uri bad) = None ->
  exists e,
    openAll m (pre ++ bad :: post)
    = (inl e, calls m (map CallOpen (map MediaAsset.uri pre))).
Proof.
  revert m. induction pre as [|a pre IH]; intros m Hall Hbad.
  - cbn [app openAll map calls fold_left].
    destruct (FileHandle_new_unresolved m _ Hbad) as (e & ->). eauto.
  - apply Forall_cons in Hall as [[file0 Hu] Hall].
    cbn [app openAll map calls fold_left].
    rewrite (FileHandle_new_resolved m _ file0 Hu).
    destruct (open_returns m _ file0 Hu) as (m1 & Hopen & _ & _ & Hres & _).
    assert (Hcall : call m (CallOpen (MediaAsset.uri a)) = m1)
      by (cbn [call]; now rewrite Hopen).
    rewrite Hcall, Hopen. cbn [snd].
    destruct (IH m1) as (e & ->).
    + eapply Forall_impl; [exact Hall|]. intros x Hx. cbn. now rewrite Hres.
    + now rewrite Hres.
    + eauto.
Qed.

(** X23: the [pick...WithHandles] functions on a picker result that was not
    canceled and whose uris all resolve: one handle object per asset, in the
    order of the assets, on consecutive native handles starting at the
    counter, each open on the file of its asset; the assets are passed on as
    they came. *)
Theorem X23_picked_assets_get_handles (m : NativeModule)
    (assets : list MediaAsset.t) :
  registryOk m -> filesFit m ->
  nextHandle m + Z.of_nat (length assets) < 2 ^ 31 ->
  Forall (fun a => is_Some (resolveFile m (MediaAsset.uri a))) assets ->
  exists handles m',
    pickImagesWithHandles m (Resolved (MediaPickerResult.mk assets false))
    = (Resolved (PickedMedia.mk assets handles false), m') /\
    pickVideosWithHandles m (Resolved (MediaPickerResult.mk assets false))
    = (Resolved (PickedMedia.mk assets handles false), m') /\
    pickMediaWithHandles m (Resolved (MediaPickerResult.mk assets false))
    = (Resolved (PickedMedia.mk assets handles false), m') /\
    length handles = length assets /\
    (forall i fh, handles !! i = Some fh ->
       fh = {| FileHandle.handle := Some (nextHandle m + Z.of_nat i);
               FileHandle.closed := false |}) /\
    (forall i a file, assets !! i = Some a ->
       resolveFile m (MediaAsset.uri a) = Some file ->
       holds m' (nextHandle m + Z.of_nat i) file) /\
    (forall k off len, k < nextHandle m ->
       answers m' k off len = answers m k off len).
Proof.
  intros Hok Hfit Hroom Hall.
  assert (Hnext : 1 <= nextHandle m) by (destruct Hok as (Hn & _); exact Hn).
  destruct (openAll_resolved m assets) as (handles & Hrun & Hlen & Hidx);
    [lia|exact Hroom|exact Hall|].
  destruct (opens_hold m (map MediaAsset.uri assets)) as (_ & _ & _ & Hans & Hheld).
  - exact Hnext.
  - exact Hfit.
  - now rewrite length_map.
  - apply Forall_fmap. exact Hall.
  - exists handles, (calls m (map CallOpen (map MediaAsset.uri assets))).
    assert (Hsame : attachHandles m (Resolved (MediaPickerResult.mk assets false))
                    = (Resolved (PickedMedia.mk assets handles false),
                       calls m (map CallOpen (map MediaAsset.uri assets)))).
    { unfold attachHandles. cbn [MediaPickerResult.canceled MediaPickerResult.assets].
      now rewrite Hrun. }
    split; [exact Hsame|]. split; [exact Hsame|]. split; [exact Hsame|].
    split; [exact Hlen|]. split; [exact Hidx|]. split; [|exact Hans].
    intros i a file Hi Hfile. apply (Hheld i (MediaAsset.uri a)); [|exact Hfile].
    rewrite list_lookup_fmap, Hi. reflexivity.
Qed.

(** X23 at a fresh Android module: the same file picked twice. *)
Lemma X23_picked_assets_get_handles_witness :
  let m := OnAndroid (Android.init sampleResolver) in
  let asset := MediaAsset.mk "content://media/ten" None None (Some "image"%string)
                 None None None None in
  exists handles m',
    pickImagesWithHandles m (Resolved (MediaPickerResult.mk [asset; asset] false))
    = (Resolved (PickedMedia.mk [asset; asset] handles false), m') /\
    pickVideosWithHandles m (Resolved (MediaPickerResult.mk [asset; asset] false))
    = (Resolved (PickedMedia.mk [asset; asset] handles false), m') /\
    pickMediaWithHandles m (Resolved (MediaPickerResult.mk [asset; asset] false))
    = (Resolved (PickedMedia.mk [asset; asset] handles false), m') /\
    length handles = length [asset; asset] /\
    (forall i fh, handles !! i = Some fh ->
       fh = {| FileHandle.handle := Some (nextHandle m + Z.of_nat i);
               FileHandle.closed := false |}) /\
    (forall i a file, [asset; asset] !! i = Some a ->
       resolveFile m (MediaAsset.uri a) = Some file ->
       holds m' (nextHandle m + Z.of_nat i) file) /\
    (forall k off len, k < nextHandle m ->
       answers m' k off len = answers m k off len).
Proof.
  intros m asset.
  apply (X23_picked_assets_get_handles m [asset; asset]).
  - apply registryOk_init_android.
  - exact filesFit_sample_android.
  - cbn. lia.
  - repeat constructor; eexists; reflexivity.
Defined.

(** X24: the [pick...WithHandles] functions when a uri does not resolve.
    The constructor of its handle throws and the function rejects with that
    error; the handles opened for the assets before it stay entries of the
    registry, each open on its file, while the caller is given no object to
    close them with.  A canceled result opens nothing, whatever assets it
    lists. *)
Theorem X24_failed_pick_leaves_handles_open (m : NativeModule)
    (pre : list MediaAsset.t) (bad : MediaAsset.t) (post : list MediaAsset.t) :
  registryOk m -> filesFit m ->
  nextHandle m + Z.of_nat (length pre) < 2 ^ 31 ->
  Forall (fun a => is_Some (resolveFile m (MediaAsset.uri a))) pre ->
  resolveFile m (MediaAsset.uri bad) = None ->
  let assets := pre ++ bad :: post in
  (exists e m',
     pickImagesWithHandles m (Resolved (MediaPickerResult.mk assets false))
     = (Rejected e, m') /\
     nextHandle m' = nextHandle m + Z.of_nat (length pre) /\
     (forall i a file, pre !! i = Some a ->
        resolveFile m (MediaAsset.uri a) = Some file ->
        holds m' (nextHandle m + Z.of_nat i) file)) /\
  pickImagesWithHandles m (Resolved (MediaPickerResult.mk assets true))
  = (Resolved (PickedMedia.mk [] [] true), m).
Proof.
  intros Hok Hfit Hroom Hall Hbad assets.
  assert (Hnext : 1 <= nextHandle m) by (destruct Hok as (Hn & _); exact Hn).
  split; [|reflexivity].
  destruct (openAll_unresolved m pre bad post Hall Hbad) as (e & Hrun).
  destruct (opens_hold m (map MediaAsset.uri pre)) as (Hn & _ & _ & _ & Hheld).
  - exact Hnext.
  - exact Hfit.
  - now rewrite length_map.
  - apply Forall_fmap. exact Hall.
  - exists e, (calls m (map CallOpen (map MediaAsset.uri pre))).
    split; [|split].
    + unfold pickImagesWithHandles, attachHandles.
      cbn [MediaPickerResult.canceled MediaPickerResult.assets].
      subst assets. now rewrite Hrun.
    + now rewrite length_map in Hn.
    + intros i a file Hi Hfile. apply (Hheld i (MediaAsset.uri a)); [|exact Hfile].
      rewrite list_lookup_fmap, Hi. reflexivity.
Qed.

(** X24 at a fresh iOS module: the second of two picked uris is gone. *)
Lemma X24_failed_pick_leaves_handles_open_witness :
  let m := OnIOS (IOS.init sampleFoundation) in
  let good := MediaAsset.mk "file:///ten.bin" None None None None None None None in
  let bad := MediaAsset.mk "file:///gone.bin" None None None None None None None in
  let assets := [good] ++ bad :: [] in
  (exists e m',
     pickImagesWithHandles m (Resolved (MediaPickerResult.mk assets false))
     = (Rejected e, m') /\
     nextHandle m' = nextHandle m + Z.of_nat (length [good]) /\
     (forall i a file, [good] !! i = Some a ->
        resolveFile m (MediaAsset.uri a) = Some file ->
        holds m' (nextHandle m + Z.of_nat i) file)) /\
  pickImagesWithHandles m (Resolved (MediaPickerResult.mk assets true))
  = (Resolved (PickedMedia.mk [] [] true), m).
Proof.
  intros m good bad.
  apply (X24_failed_pick_leaves_handles_open m [good] bad []).
  - apply registryOk_init_ios.
  - exact filesFit_sample_ios.
  - cbn. lia.
  - repeat constructor; eexists; reflexivity.
  - reflexivity.
Defined.

Lemma closeAll_native (m : NativeModule) (handles : list FileHandle.t) :
  Forall (fun fh => exists h, FileHandle.handle fh = Some h /\
                              (FileHandle.closed fh = true -> unknownHandle m h))
         handles ->
  exists m2 handles2,
    closeAll m handles = (Return tt, (m2, handles2)) /\
    Forall (fun fh => FileHandle.closed fh = true) handles2 /\
    nextHandle m2 = nextHandle m /\
    (forall k, unknownHandle m k -> unknownHandle m2 k) /\
    (forall fh h, In fh handles -> FileHandle.handle fh = Some h ->
       unknownHandle m2 h) /\
    (forall k off len,
       (forall fh, In fh handles -> FileHandle.handle fh <> Some k) ->
       answers m2 k off len = answers m k off len).
Proof.
  revert m. induction handles as [|fh handles IH]; intros m Hall.
  - exists m, []. cbn. split; [reflexivity|]. split; [constructor|].
    split; [reflexivity|]. split; [auto|]. split; [intros ? ? []|auto].
  - apply Forall_cons in Hall as [(h & Hh & Hgone) Hall].
    cbn [closeAll].
    assert (Hstep : exists m1 fh1,
               FileHandle.close m fh = (Return tt, (m1, fh1)) /\
               FileHandle.closed fh1 = true /\
               nextHandle m1 = nextHandle m /\
               (forall k, unknownHandle m k -> unknownHandle m1 k) /\
               unknownHandle m1 h /\
               (forall k off len, k <> h ->
                  answers m1 k off len = answers m k off len)).
    { destruct (FileHandle.closed fh) eqn:Hc.
      - exists m, fh. rewrite FileHandle_close_closed by exact Hc.
        split; [reflexivity|]. split; [exact Hc|]. split; [reflexivity|].
        split; [auto|]. split; [now apply Hgone|auto].
      - rewrite (FileHandle_close_open m fh h Hh Hc).
        destruct (close_leaves m h) as (Hn & _ & Hans & _ & _ & Hu & _).
        eexists _, _. split; [reflexivity|]. split; [reflexivity|].
        split; [exact Hn|]. split; [intros k Hk; apply Hu; now right|].
        split; [apply Hu; now left|]. intros k off len Hk. now apply Hans. }
    destruct Hstep as (m1 & fh1 & -> & Hc1 & Hn1 & Hmono & Hu1 & Hans1).
    destruct (IH m1) as (m2 & handles2 & -> & Hc2 & Hn2 & Hmono2 & Hu2 & Hans2).
    { eapply Forall_impl; [exact Hall|]. intros x (hx & Hx & Hgx).
      exists hx. split; [exact Hx|]. intros Hcx. apply Hmono. now apply Hgx. }
    exists m2, (fh1 :: handles2). split; [reflexivity|].
    split; [now constructor|]. split; [lia|].
    split; [intros k Hk; apply Hmono2; now apply Hmono|]. split.
    + intros x hx [<-|Hin] Hx.
      * rewrite Hh in Hx. injection Hx as <-. now apply Hmono2.
      * eapply Hu2; eauto.
    + intros k off len Hk. rewrite Hans2.
      * apply Hans1. intros ->. apply (Hk fh); [now left|exact Hh].
      * intros x Hin. apply Hk. now right.
Qed.

(** X25: [processPickedMedia] closes what was picked.  When the picker
    resolves with handle objects and the processor settles, in either way,
    having left each object of the array on a handle (closed only if the
    handle is gone), [processPickedMedia] settles as the processor did and
    every one of those handles is no entry of the registry afterwards; the
    handles of no object are as the processor left them.  When the picker
    says canceled, the result is [null] and the processor is not run. *)
Theorem X25_processPickedMedia_closes {T : Type} (m : NativeModule)
    (pickerFunction : NativeModule -> Outcome PickedMedia.t * NativeModule)
    (processor : list MediaAsset.t -> NativeModule * list FileHandle.t
                 -> Outcome T * (NativeModule * list FileHandle.t))
    (picked : PickedMedia.t) (m0 : NativeModule)
    (settled : Outcome T) (m1 : NativeModule) (handles1 : list FileHandle.t) :
  pickerFunction m = (Resolved picked, m0) ->
  (PickedMedia.canceled picked = true ->
   processPickedMedia pickerFunction processor m = (Resolved None, m0)) /\
  (PickedMedia.canceled picked = false ->
   processor (PickedMedia.assets picked) (m0, PickedMedia.handles picked)
   = (settled, (m1, handles1)) ->
   Forall (fun fh => exists h, FileHandle.handle fh = Some h /\
                               (FileHandle.closed fh = true -> unknownHandle m1 h))
          handles1 ->
   exists m2,
     processPickedMedia pickerFunction processor m
     = (match settled with
        | Resolved t => Resolved (Some t)
        | Rejected e => Rejected e
        end, m2) /\
     nextHandle m2 = nextHandle m1 /\
     (forall fh h, In fh handles1 -> FileHandle.handle fh = Some h ->
        unknownHandle m2 h) /\
     (forall k off len,
        (forall fh, In fh handles1 -> FileHandle.handle fh <> Some k) ->
        answers m2 k off len = answers m1 k off len)).
Proof.
  intros Hpick. unfold processPickedMedia. rewrite Hpick. split.
  - intros ->. reflexivity.
  - intros -> Hrun Hall. rewrite Hrun.
    destruct (closeAll_native m1 handles1 Hall)
      as (m2 & handles2 & -> & _ & Hn & _ & Hu & Hans).
    exists m2. split; [reflexivity|]. split; [exact Hn|]. split; assumption.
Qed.

(** X25 at a fresh Android module: two picked files, and a processor that
    fails after closing the first handle itself. *)
Lemma X25_processPickedMedia_closes_witness :
  let m := OnAndroid (Android.init sampleResolver) in
  let asset := MediaAsset.mk "content://media/ten" None None None None None None None in
  let pickerFunction := fun m : NativeModule =>
    pickMediaWithHandles m (Resolved (MediaPickerResult.mk [asset; asset] false)) in
  let processor := fun (_ : list MediaAsset.t) (s : NativeModule * list FileHandle.t) =>
    match s.2 with
    | first :: rest =>
        let '(_, (m', first')) := FileHandle.close s.1 first in
        (@Rejected Z (JsError "processing failed"), (m', first' :: rest))
    | [] => (Resolved 0, s)
    end in
  let m1 := (processor [asset; asset]
               ((pickerFunction m).2,
                [ {| FileHandle.handle := Some 1; FileHandle.closed := false |};
                  {| FileHandle.handle := Some 2; FileHandle.closed := false |} ])).2.1 in
  let handles1 := [ {| FileHandle.handle := Some 1; FileHandle.closed := true |};
                    {| FileHandle.handle := Some 2; FileHandle.closed := false |} ] in
  exists m2,
    processPickedMedia pickerFunction processor m
    = (Rejected (JsError "processing failed"), m2) /\
    nextHandle m2 = nextHandle m1 /\
    (forall fh h, In fh handles1 -> FileHandle.handle fh = Some h ->
       unknownHandle m2 h) /\
    (forall k off len,
       (forall fh, In fh handles1 -> FileHandle.handle fh <> Some k) ->
       answers m2 k off len = answers m1 k off len).
Proof.
  intros m asset pickerFunction processor m1 handles1.
  apply (proj2 (X25_processPickedMedia_closes m pickerFunction processor
                  (PickedMedia.mk [asset; asset]
                     [ {| FileHandle.handle := Some 1; FileHandle.closed := false |};
                       {| FileHandle.handle := Some 2; FileHandle.closed := false |} ]
                     false)
                  (pickerFunction m).2
                  (Rejected (JsError "processing failed")) m1 handles1
                  eq_refl)).
  - reflexivity.
  - reflexivity.
  - repeat constructor.
    + exists 1. split; [reflexivity|]. intros _. reflexivity.
    + exists 2. split; [reflexivity|]. discriminate.
Defined.

(** ** Further properties: the Android pickers *)

Lemma onActivityResult_fields (cr : AndroidPicker.Resolver) (rq rc : Z)
    (data : option AndroidPicker.ResultIntent) (s : AndroidPicker.t) :
  let s' := AndroidPicker.onActivityResult cr rq rc data s in
  AndroidPicker.pickImageResolve s' = AndroidPicker.pickImageResolve s /\
  AndroidPicker.pickVideoResolve s' = AndroidPicker.pickVideoResolve s /\
  AndroidPicker.pickMediaResolve s' = AndroidPicker.pickMediaResolve s /\
  AndroidPicker.started s' = AndroidPicker.started s /\
  exists new,
    AndroidPicker.settlements s' = AndroidPicker.settlements s ++ new /\
    forall p x, In (p, x) new ->
      AndroidPicker.pickImageResolve s = Some p \/
      AndroidPicker.pickVideoResolve s = Some p \/
      AndroidPicker.pickMediaResolve s = Some p.
Proof.
  assert (Hres : forall promise result,
            (promise = AndroidPicker.pickImageResolve s \/
             promise = AndroidPicker.pickVideoResolve s \/
             promise = AndroidPicker.pickMediaResolve s) ->
            let s' := AndroidPicker.resolveIfSet promise result s in
            AndroidPicker.pickImageResolve s' = AndroidPicker.pickImageResolve s /\
            AndroidPicker.pickVideoResolve s' = AndroidPicker.pickVideoResolve s /\
            AndroidPicker.pickMediaResolve s' = AndroidPicker.pickMediaResolve s /\
            AndroidPicker.started s' = AndroidPicker.started s /\
            exists new,
              AndroidPicker.settlements s' = AndroidPicker.settlements s ++ new /\
              forall p x, In (p, x) new ->
                AndroidPicker.pickImageResolve s = Some p \/
                AndroidPicker.pickVideoResolve s = Some p \/
                AndroidPicker.pickMediaResolve s = Some p).
  { intros [p|] result Hfield; cbn.
    - repeat (split; [reflexivity|]). eexists. split; [reflexivity|].
      intros q x [[= <- <-]|[]]. intuition congruence.
    - repeat (split; [reflexivity|]). exists []. rewrite app_nil_r.
      split; [reflexivity|]. intros ? ? []. }
  assert (Hid : AndroidPicker.pickImageResolve s = AndroidPicker.pickImageResolve s /\
                AndroidPicker.pickVideoResolve s = AndroidPicker.pickVideoResolve s /\
                AndroidPicker.pickMediaResolve s = AndroidPicker.pickMediaResolve s /\
                AndroidPicker.started s = AndroidPicker.started s /\
                exists new,
                  AndroidPicker.settlements s = AndroidPicker.settlements s ++ new /\
                  forall p x, In (p, x) new ->
                    AndroidPicker.pickImageResolve s = Some p \/
                    AndroidPicker.pickVideoResolve s = Some p \/
                    AndroidPicker.pickMediaResolve s = Some p).
  { repeat (split; [reflexivity|]). exists []. rewrite app_nil_r.
    split; [reflexivity|]. intros ? ? []. }
  assert (Hhandle : forall assetOf promise,
            (promise = AndroidPicker.pickImageResolve s \/
             promise = AndroidPicker.pickVideoResolve s \/
             promise = AndroidPicker.pickMediaResolve s) ->
            let s' := AndroidPicker.handleResult assetOf rc data promise s in
            AndroidPicker.pickImageResolve s' = AndroidPicker.pickImageResolve s /\
            AndroidPicker.pickVideoResolve s' = AndroidPicker.pickVideoResolve s /\
            AndroidPicker.pickMediaResolve s' = AndroidPicker.pickMediaResolve s /\
            AndroidPicker.started s' = AndroidPicker.started s /\
            exists new,
              AndroidPicker.settlements s' = AndroidPicker.settlements s ++ new /\
              forall p x, In (p, x) new ->
                AndroidPicker.pickImageResolve s = Some p \/
                AndroidPicker.pickVideoResolve s = Some p \/
                AndroidPicker.pickMediaResolve s = Some p).
  { intros assetOf promise Hfield. unfold AndroidPicker.handleResult.
    destruct (rc =? AndroidPicker.RESULT_CANCELED); [now apply Hres|].
    destruct data as [intent|]; [|exact Hid].
    destruct (rc =? AndroidPicker.RESULT_OK); [now apply Hres|exact Hid]. }
  unfold AndroidPicker.onActivityResult.
  destruct (rq =? AndroidPicker.REQUEST_PICK_IMAGE); [apply Hhandle; auto|].
  destruct (rq =? AndroidPicker.REQUEST_PICK_VIDEO); [apply Hhandle; auto|].
  destruct (rq =? AndroidPicker.REQUEST_PICK_MEDIA); [apply Hhandle; auto|].
  exact Hid.
Qed.

Lemma deliverResults_fields (cr : AndroidPicker.Resolver)
    (results : list AndroidPicker.ActivityResult) (s : AndroidPicker.t) :
  let s' := AndroidPicker.deliverResults cr results s in
  AndroidPicker.pickImageResolve s' = AndroidPicker.pickImageResolve s /\
  AndroidPicker.pickVideoResolve s' = AndroidPicker.pickVideoResolve s /\
  AndroidPicker.pickMediaResolve s' = AndroidPicker.pickMediaResolve s /\
  AndroidPicker.started s' = AndroidPicker.started s /\
  exists new,
    AndroidPicker.settlements s' = AndroidPicker.settlements s ++ new /\
    forall p x, In (p, x) new ->
      AndroidPicker.pickImageResolve s = Some p \/
      AndroidPicker.pickVideoResolve s = Some p \/
      AndroidPicker.pickMediaResolve s = Some p.
Proof.
  revert s. induction results as [|r results IH]; intros s.
  - cbn. repeat (split; [reflexivity|]). exists []. rewrite app_nil_r.
    split; [reflexivity|]. intros ? ? [].
  - cbn [AndroidPicker.deliverResults fold_left].
    destruct (onActivityResult_fields cr (AndroidPicker.requestCode r)
                (AndroidPicker.resultCode r) (AndroidPicker.intent r) s)
      as (Hi & Hv & Hm & Hs & new1 & Hn1 & Hin1).
    destruct (IH (AndroidPicker.onActivityResult cr (AndroidPicker.requestCode r)
                    (AndroidPicker.resultCode r) (AndroidPicker.intent r) s))
      as (Hi' & Hv' & Hm' & Hs' & new2 & Hn2 & Hin2).
    unfold AndroidPicker.deliverResults in *.
    split; [congruence|]. split; [congruence|]. split; [congruence|].
    split; [congruence|].
    exists (new1 ++ new2). split.
    + rewrite Hn2, Hn1. now rewrite app_assoc.
    + intros p x Hin. apply in_app_or in Hin as [Hin|Hin].
      * eauto.
      * rewrite <- Hi, <- Hv, <- Hm. eauto.
Qed.

(** X26: what a result does to the promise of [pickImage] or [pickVideo].
    With promise [p] stored for the request code: a canceled result resolves
    [p] with no assets and [canceled = true], whatever the intent carries;
    an OK result with clip data resolves [p] with one asset per item, in
    order, each of the picker's type; an OK result whose intent has neither
    clip data nor data resolves [p] with no assets and [canceled = false];
    any other result code, and an OK result without an intent, settles
    nothing and leaves the module as it was. *)
Theorem X26_picker_result_handling (cr : AndroidPicker.Resolver)
    (s : AndroidPicker.t) (p : AndroidPicker.Promise) (rq : Z) (kind : string)
    (uris : list string) (single : option string)
    (data : option AndroidPicker.ResultIntent) (rc : Z) :
  (rq = AndroidPicker.REQUEST_PICK_IMAGE /\
   AndroidPicker.pickImageResolve s = Some p /\ kind = "image"%string) \/
  (rq = AndroidPicker.REQUEST_PICK_VIDEO /\
   AndroidPicker.pickVideoResolve s = Some p /\ kind = "video"%string) ->
  AndroidPicker.settlements
    (AndroidPicker.onActivityResult cr rq AndroidPicker.RESULT_CANCELED data s)
  = AndroidPicker.settlements s
    ++ [(p, AndroidPicker.Resolve (MediaPickerResult.mk [] true))] /\
  (exists assets,
     AndroidPicker.settlements
       (AndroidPicker.onActivityResult cr rq AndroidPicker.RESULT_OK
          (Some {| AndroidPicker.clipData := Some uris;
                   AndroidPicker.data := single |}) s)
     = AndroidPicker.settlements s
       ++ [(p, AndroidPicker.Resolve (MediaPickerResult.mk assets false))] /\
     map MediaAsset.uri assets = uris /\
     Forall (fun a => MediaAsset.type a = Some kind) assets) /\
  AndroidPicker.settlements
    (AndroidPicker.onActivityResult cr rq AndroidPicker.RESULT_OK
       (Some {| AndroidPicker.clipData := None; AndroidPicker.data := None |}) s)
  = AndroidPicker.settlements s
    ++ [(p, AndroidPicker.Resolve (MediaPickerResult.mk [] false))] /\
  (rc <> AndroidPicker.RESULT_CANCELED ->
   rc <> AndroidPicker.RESULT_OK \/ data = None ->
   AndroidPicker.onActivityResult cr rq rc data s = s).
Proof.
  intros Hkind.
  assert (Hrun : exists assetOf,
            (forall rc' data',
               AndroidPicker.onActivityResult cr rq rc' data' s
               = AndroidPicker.handleResult assetOf rc' data' (Some p) s) /\
            (forall uri, MediaAsset.uri (assetOf uri) = uri /\
                         MediaAsset.type (assetOf uri) = Some kind)).
  { destruct Hkind as [(-> & Hp & ->)|(-> & Hp & ->)].
    - exists (fun uri => AndroidPicker.createAssetFromUri cr uri "image").
      split; [|intros uri; split; reflexivity].
      intros rc' data'. unfold AndroidPicker.onActivityResult. now rewrite Hp.
    - exists (fun uri => AndroidPicker.createAssetFromUri cr uri "video").
      split; [|intros uri; split; reflexivity].
      intros rc' data'. unfold AndroidPicker.onActivityResult. now rewrite Hp. }
  destruct Hrun as (assetOf & Hrun & Hasset).
  rewrite !Hrun. split; [reflexivity|]. split; [|split; [reflexivity|]].
  - exists (map assetOf uris). split; [reflexivity|]. split.
    + rewrite map_map. erewrite map_ext; [apply map_id|].
      intros uri. apply Hasset.
    + apply Forall_fmap, Forall_forall. intros uri _. apply Hasset.
  - intros Hnc Hother. unfold AndroidPicker.handleResult.
    destruct (Z.eqb_spec rc AndroidPicker.RESULT_CANCELED); [contradiction|].
    destruct data as [intent|]; [|reflexivity].
    destruct (Z.eqb_spec rc AndroidPicker.RESULT_OK); [|reflexivity].
    destruct Hother; [contradiction|discriminate].
Qed.

(** X26 at the module after [pickImage]: two items picked. *)
Lemma X26_picker_result_handling_witness :
  let s := AndroidPicker.pickImage {| AndroidPicker.multiple := Some true |} 7%nat
             (Some AndroidPicker.Starts) AndroidPicker.init in
  let uris := ["content://media/photo"%string; "content://media/other"%string] in
  AndroidPicker.settlements
    (AndroidPicker.onActivityResult samplePickerResolver
       AndroidPicker.REQUEST_PICK_IMAGE AndroidPicker.RESULT_CANCELED None s)
  = AndroidPicker.settlements s
    ++ [(7%nat, AndroidPicker.Resolve (MediaPickerResult.mk [] true))] /\
  (exists assets,
     AndroidPicker.settlements
       (AndroidPicker.onActivityResult samplePickerResolver
          AndroidPicker.REQUEST_PICK_IMAGE AndroidPicker.RESULT_OK
          (Some {| AndroidPicker.clipData := Some uris;
                   AndroidPicker.data := None |}) s)
     = AndroidPicker.settlements s
       ++ [(7%nat, AndroidPicker.Resolve (MediaPickerResult.mk assets false))] /\
     map MediaAsset.uri assets = uris /\
     Forall (fun a => MediaAsset.type a = Some "image"%string) assets) /\
  AndroidPicker.settlements
    (AndroidPicker.onActivityResult samplePickerResolver
       AndroidPicker.REQUEST_PICK_IMAGE AndroidPicker.RESULT_OK
       (Some {| AndroidPicker.clipData := None; AndroidPicker.data := None |}) s)
  = AndroidPicker.settlements s
    ++ [(7%nat, AndroidPicker.Resolve (MediaPickerResult.mk [] false))] /\
  (1 <> AndroidPicker.RESULT_CANCELED ->
   1 <> AndroidPicker.RESULT_OK \/ @None AndroidPicker.ResultIntent = None ->
   AndroidPicker.onActivityResult samplePickerResolver
     AndroidPicker.REQUEST_PICK_IMAGE 1 None s = s).
Proof.
  intros s uris.
  apply (X26_picker_result_handling samplePickerResolver s 7%nat
           AndroidPicker.REQUEST_PICK_IMAGE "image" uris None None 1).
  left. repeat split; reflexivity.
Defined.

(** X27: a second [pickImage] before the result of the first overwrites the
    stored promise.  Whatever results arrive afterwards, with whatever
    request codes, the promise of the first call is never resolved and never
    rejected. *)
Theorem X27_overlapping_picks_lose_first_promise (cr : AndroidPicker.Resolver)
    (s0 : AndroidPicker.t) (o1 o2 : AndroidPicker.Options)
    (p1 p2 : AndroidPicker.Promise) (activity : option AndroidPicker.Activity)
    (results : list AndroidPicker.ActivityResult) :
  p1 <> p2 ->
  AndroidPicker.pickVideoResolve s0 <> Some p1 ->
  AndroidPicker.pickMediaResolve s0 <> Some p1 ->
  let s1 := AndroidPicker.pickImage o1 p1 (Some AndroidPicker.Starts) s0 in
  let s2 := AndroidPicker.pickImage o2 p2 activity s1 in
  ~ In p1 (AndroidPicker.settledSince (length (AndroidPicker.settlements s0))
             (AndroidPicker.deliverResults cr results s2)).
Proof.
  intros Hne Hv Hm s1 s2 Hin.
  destruct (deliverResults_fields cr results s2)
    as (_ & _ & _ & _ & new & Hnew & Hfrom).
  assert (Hi2 : AndroidPicker.pickImageResolve s2 = Some p2)
    by (subst s2 s1; destruct activity as [[|msg]|]; reflexivity).
  assert (Hv2 : AndroidPicker.pickVideoResolve s2 = AndroidPicker.pickVideoResolve s0)
    by (subst s2 s1; destruct activity as [[|msg]|]; reflexivity).
  assert (Hm2 : AndroidPicker.pickMediaResolve s2 = AndroidPicker.pickMediaResolve s0)
    by (subst s2 s1; destruct activity as [[|msg]|]; reflexivity).
  assert (Hs2 : exists l, AndroidPicker.settlements s2 = AndroidPicker.settlements s0 ++ l /\
                          forall p x, In (p, x) l -> p = p2).
  { subst s2 s1. destruct activity as [[|msg]|]; cbn.
    - exists []. rewrite app_nil_r. split; [reflexivity|]. intros ? ? [].
    - eexists. split; [reflexivity|]. intros p x [[= <- _]|[]]. reflexivity.
    - eexists. split; [reflexivity|]. intros p x [[= <- _]|[]]. reflexivity. }
  destruct Hs2 as (l & Hl & Hfrom2).
  unfold AndroidPicker.settledSince in Hin.
  rewrite Hnew, Hl, <- app_assoc, drop_app_length in Hin.
  apply in_map_iff in Hin as ([p x] & Hp & Hin). cbn [fst] in Hp. subst p.
  apply in_app_or in Hin as [Hin|Hin].
  - apply Hfrom2 in Hin. congruence.
  - apply Hfrom in Hin. rewrite Hi2, Hv2, Hm2 in Hin.
    destruct Hin as [Hin|[Hin|Hin]]; congruence.
Qed.

(** X27 at a fresh module: two calls, then a result for the image picker
    and a stray one for the video picker. *)
Lemma X27_overlapping_picks_lose_first_promise_witness :
  let s1 := AndroidPicker.pickImage {| AndroidPicker.multiple := None |} 1%nat
              (Some AndroidPicker.Starts) AndroidPicker.init in
  let s2 := AndroidPicker.pickImage {| AndroidPicker.multiple := None |} 2%nat
              (Some AndroidPicker.Starts) s1 in
  ~ In 1%nat
      (AndroidPicker.settledSince (length (AndroidPicker.settlements AndroidPicker.init))
         (AndroidPicker.deliverResults samplePickerResolver
            [ {| AndroidPicker.requestCode := 1001; AndroidPicker.resultCode := -1;
                 AndroidPicker.intent :=
                   Some {| AndroidPicker.clipData := None;
                           AndroidPicker.data := Some "content://media/photo"%string |} |};
              {| AndroidPicker.requestCode := 1002; AndroidPicker.resultCode := 0;
                 AndroidPicker.intent := None |} ]
            s2)).
Proof.
  apply (X27_overlapping_picks_lose_first_promise samplePickerResolver
           AndroidPicker.init {| AndroidPicker.multiple := None |}
           {| AndroidPicker.multiple := None |} 1%nat 2%nat
           (Some AndroidPicker.Starts)).
  - discriminate.
  - discriminate.
  - discriminate.
Defined.

(** X28: the type [pickMedia] gives an asset.  With promise [p] stored, an
    OK result with clip data resolves [p] with one asset per item, in order;
    an asset is an "image" exactly when the resolver knows a MIME type for
    its uri that starts with "image/", and a "video" otherwise, also when
    the type is unknown or is neither. *)
Theorem X28_pickMedia_asset_types (cr : AndroidPicker.Resolver)
    (s : AndroidPicker.t) (p : AndroidPicker.Promise) (uris : list string)
    (single : option string) :
  AndroidPicker.pickMediaResolve s = Some p ->
  exists assets,
    AndroidPicker.settlements
      (AndroidPicker.onActivityResult cr AndroidPicker.REQUEST_PICK_MEDIA
         AndroidPicker.RESULT_OK
         (Some {| AndroidPicker.clipData := Some uris;
                  AndroidPicker.data := single |}) s)
    = AndroidPicker.settlements s
      ++ [(p, AndroidPicker.Resolve (MediaPickerResult.mk assets false))] /\
    map MediaAsset.uri assets = uris /\
    Forall (fun a =>
              (MediaAsset.type a = Some "image"%string /\
               exists mime, AndroidPicker.getType cr (MediaAsset.uri a) = Some mime /\
                            Js.startsWith mime "image/" = true) \/
              (MediaAsset.type a = Some "video"%string /\
               forall mime, AndroidPicker.getType cr (MediaAsset.uri a) = Some mime ->
                            Js.startsWith mime "image/" = false))
           assets.
Proof.
  intros Hp.
  exists (map (fun uri => AndroidPicker.createAssetFromUri cr uri
                            (AndroidPicker.mediaType cr uri)) uris).
  split; [|split].
  - unfold AndroidPicker.onActivityResult. cbn [Z.eqb AndroidPicker.REQUEST_PICK_MEDIA
      AndroidPicker.REQUEST_PICK_IMAGE AndroidPicker.REQUEST_PICK_VIDEO Pos.eqb].
    now rewrite Hp.
  - rewrite map_map. apply map_id.
  - apply Forall_fmap, Forall_forall. intros uri _.
    unfold compose, AndroidPicker.createAssetFromUri, AndroidPicker.mediaType.
    cbn [MediaAsset.type MediaAsset.uri].
    destruct (AndroidPicker.getType cr uri) as [mime|] eqn:Hmime.
    + destruct (Js.startsWith mime "image/") eqn:Hs.
      * left. split; [reflexivity|]. eauto.
      * right. split; [reflexivity|]. intros mime' [= <-]. exact Hs.
    + right. split; [reflexivity|]. discriminate.
Qed.

(** X28 at the module after [pickMedia]: a photo and an audio clip. *)
Lemma X28_pickMedia_asset_types_witness :
  let s := AndroidPicker.pickMedia {| AndroidPicker.multiple := Some true |} 3%nat
             (Some AndroidPicker.Starts) AndroidPicker.init in
  let uris := ["content://media/photo"%string; "content://media/clip"%string] in
  exists assets,
    AndroidPicker.settlements
      (AndroidPicker.onActivityResult samplePickerResolver
         AndroidPicker.REQUEST_PICK_MEDIA AndroidPicker.RESULT_OK
         (Some {| AndroidPicker.clipData := Some uris;
                  AndroidPicker.data := None |}) s)
    = AndroidPicker.settlements s
      ++ [(3%nat, AndroidPicker.Resolve (MediaPickerResult.mk assets false))] /\
    map MediaAsset.uri assets = uris /\
    Forall (fun a =>
              (MediaAsset.type a = Some "image"%string /\
               exists mime,
                 AndroidPicker.getType samplePickerResolver (MediaAsset.uri a)
                 = Some mime /\
                 Js.startsWith mime "image/" = true) \/
              (MediaAsset.type a = Some "video"%string /\
               forall mime,
                 AndroidPicker.getType samplePickerResolver (MediaAsset.uri a)
                 = Some mime ->
                 Js.startsWith mime "image/" = false))
           assets.
Proof.
  intros s uris.
  apply (X28_pickMedia_asset_types samplePickerResolver s 3%nat uris None).
  reflexivity.
Defined.

Example pickMedia_audio_is_video :
  AndroidPicker.mediaType samplePickerResolver "content://media/clip" = "video"%string.
Proof. reflexivity. Qed.

(** X29: the result handlers do not clear the stored promise.  After
    [pickImage], however the start of the activity went, each canceled
    result for the image picker calls [resolve] on the same promise again:
    [n] results give [n] calls. *)
Theorem X29_stored_promise_is_settled_again (cr : AndroidPicker.Resolver)
    (s0 : AndroidPicker.t) (options : AndroidPicker.Options)
    (p : AndroidPicker.Promise) (activity : option AndroidPicker.Activity)
    (data : option AndroidPicker.ResultIntent) (n : nat) :
  let s := AndroidPicker.pickImage options p activity s0 in
  let canceled := {| AndroidPicker.requestCode := AndroidPicker.REQUEST_PICK_IMAGE;
                     AndroidPicker.resultCode := AndroidPicker.RESULT_CANCELED;
                     AndroidPicker.intent := data |} in
  AndroidPicker.settlements (AndroidPicker.deliverResults cr (replicate n canceled) s)
  = AndroidPicker.settlements s
    ++ replicate n (p, AndroidPicker.Resolve (MediaPickerResult.mk [] true)).
Proof.
  intros s canceled.
  assert (Hp : AndroidPicker.pickImageResolve s = Some p)
    by (subst s; destruct activity as [[|msg]|]; reflexivity).
  clearbody s. unfold AndroidPicker.deliverResults.
  revert s Hp. induction n as [|n IH]; intros s Hp.
  - cbn. now rewrite app_nil_r.
  - cbn [replicate fold_left].
    rewrite IH.
    + subst canceled. cbn [AndroidPicker.requestCode AndroidPicker.resultCode
        AndroidPicker.intent]. unfold AndroidPicker.onActivityResult.
      cbn [Z.eqb AndroidPicker.REQUEST_PICK_IMAGE Pos.eqb].
      unfold AndroidPicker.handleImageResult, AndroidPicker.handleResult.
      cbn [Z.eqb AndroidPicker.RESULT_CANCELED]. rewrite Hp.
      cbn [AndroidPicker.resolveIfSet AndroidPicker.settlements].
      now rewrite <- app_assoc.
    + destruct (onActivityResult_fields cr (AndroidPicker.requestCode canceled)
                  (AndroidPicker.resultCode canceled) (AndroidPicker.intent canceled) s)
        as (Hi & _). now rewrite Hi.
Qed.

(** ** Further properties: an upload that does not fail *)

Lemma uploadChunk_keep (R D : Z) (b : Buffer) (o : Z)
    (w : Recorded (list (Buffer * Z))) :
  1 <= R ->
  Utils.uploadChunk (spy keep) R D b o w
  = (Resolved tt, {| events := events w ++ [Invoked b o (Resolved tt)];
                     inner := inner w ++ [(b, o)] |}).
Proof.
  intros HR. unfold Utils.uploadChunk.
  assert (Hn : Z.to_nat R = Datatypes.S (Z.to_nat R - 1)) by lia.
  rewrite Hn. reflexivity.
Qed.

Lemma deliver_upload_keep (R D size : Z) (chunks : list (Buffer * Z))
    (w : Recorded (list (Buffer * Z))) :
  1 <= R ->
  deliver (Some (Utils.uploadChunk (spy keep) R D)) None size chunks w
  = (Resolved tt,
     {| events := events w ++ map (fun c => Invoked c.1 c.2 (Resolved tt)) chunks;
        inner := inner w ++ chunks |}).
Proof.
  intros HR. revert w. induction chunks as [|[b o] chunks IH]; intros w.
  - cbn. rewrite !app_nil_r. now destruct w.
  - cbn [deliver Utils.whenGiven]. rewrite uploadChunk_keep by exact HR.
    rewrite IH. cbn [events inner map fst snd]. now rewrite <- !app_assoc.
Qed.

(** X15: an upload whose upload function never fails.  With at least one
    attempt allowed, [uploadFileInChunks] resolves; the upload function has
    been invoked once per chunk, in the order of the file, with no wait in
    between, and the chunks it received, put together, are the file. *)
Theorem X15_reliable_upload_delivers_file (m : NativeModule) (handle : Z)
    (file : list byte) (chunkSize retryAttempts retryDelay : Z) (fuel : nat) :
  holds m handle file -> 1 <= chunkSize -> validArg m chunkSize ->
  1 <= retryAttempts -> (length file < fuel)%nat ->
  exists w',
    observedUpload fuel m handle chunkSize retryAttempts retryDelay keep []
    = Some (Resolved tt, w') /\
    inner w' = chunksOf (effectiveLength m chunkSize) file /\
    concat (map fst (inner w')) = file /\
    events w' = map (fun c => Invoked c.1 c.2 (Resolved tt)) (inner w').
Proof.
  intros Hholds Hsize Hvalid HR Hfuel.
  rewrite (observedUpload_delivers fuel m handle chunkSize retryAttempts retryDelay
             file keep []) by assumption.
  rewrite deliver_upload_keep by exact HR.
  eexists. split; [reflexivity|]. cbn [inner events app].
  split; [reflexivity|]. split; [|reflexivity].
  unfold chunksOf. rewrite slices_concat.
  - apply drop_0.
  - pose proof MiB4_value. destruct m; cbn [effectiveLength]; lia.
  - lia.
Qed.

(** X15 at the sample Android module: chunks of four, three attempts. *)
Lemma X15_reliable_upload_delivers_file_witness :
  exists w',
    observedUpload 11 (OnAndroid androidSample) 1 4 3 1000 keep []
    = Some (Resolved tt, w') /\
    inner w' = chunksOf (effectiveLength (OnAndroid androidSample) 4) tenBytes /\
    concat (map fst (inner w')) = tenBytes /\
    events w' = map (fun c => Invoked c.1 c.2 (Resolved tt)) (inner w').
Proof.
  apply (X15_reliable_upload_delivers_file (OnAndroid androidSample) 1 tenBytes
           4 3 1000 11).
  - exact holds_androidSample.
  - lia.
  - apply validArg_android. lia.
  - lia.
  - cbn. lia.
Defined.
